(** * Quizzer: a shallow embedding of the Telegram quiz bot

    The bot (main.go) keeps one [UserState] per Telegram user in
    [App.Users], reads its questions from a bank [QuestionManager.Themes]
    that is filled once at start-up, and reacts to commands (/start,
    /restart, /help) and to inline-button callbacks.  The handlers are
    embedded as programs of a small state-and-panic monad over the session
    table and the list of messages handed to the Telegram client.  Its
    single-topic predecessor (part_000) is embedded the same way in
    [Legacy].

    Left out: the log lines of the handlers, the token and the set-up of
    the client, and updates without sender or chat (the handlers read
    [From.ID] and [Chat.ID] without a check). *)

From Stdlib Require Import ZArith Lia Ascii String.
From stdpp Require Import gmap strings list fin_maps sorting.

Local Open Scope string_scope.
Local Open Scope list_scope.
Local Open Scope Z_scope.

(** ** Go strings

    A Go string is a sequence of bytes; [string] (a list of [ascii]) is
    used as such.  The functions of the packages [strings], [unicode] and
    [unicode/utf8] that the program calls are modelled for every string,
    ASCII or not: a text is read rune by rune as UTF-8, a byte that
    starts no valid encoding is read as the rune U+FFFD of width 1, and
    the case of a rune is looked up in tables that hold the simple case
    mappings of the Unicode Character Database (version 14.0), the data
    from which the tables of package [unicode] are generated. *)
Module GoStrings.

Definition byte_val (c : ascii) : Z := Z.of_N (N_of_ascii c).

Definition byte_of (z : Z) : ascii := ascii_of_N (Z.to_N z).

Definition between (lo hi x : Z) : bool := (lo <=? x) && (x <=? hi).

Fixpoint take_bytes (n : nat) (s : string) : string :=
  match n, s with
  | S k, String c r => String c (take_bytes k r)
  | _, _ => EmptyString
  end.

Fixpoint skip_bytes (n : nat) (s : string) : string :=
  match n, s with
  | S k, String _ r => skip_bytes k r
  | _, _ => s
  end.

Fixpoint concat_strings (l : list string) : string :=
  match l with
  | [] => EmptyString
  | s :: rest => (s ++ concat_strings rest)%string
  end.

(** *** Package unicode/utf8 *)
Module utf8.

Definition RuneError : Z := 65533.       (* U+FFFD *)
Definition MaxRune : Z := 1114111.       (* U+10FFFF *)

(** What the table [first] and [acceptRanges] hold for a first byte from
    128 on: the width of the encoding and the range of the second byte;
    [None] for the bytes 80-C1 and F5-FF, which start no encoding. *)
Definition first (s0 : Z) : option (nat * Z * Z) :=
  if between 194 223 s0 then Some (2%nat, 128, 191)         (* C2-DF *)
  else if s0 =? 224 then Some (3%nat, 160, 191)             (* E0 *)
  else if between 225 236 s0 then Some (3%nat, 128, 191)    (* E1-EC *)
  else if s0 =? 237 then Some (3%nat, 128, 159)             (* ED *)
  else if between 238 239 s0 then Some (3%nat, 128, 191)    (* EE-EF *)
  else if s0 =? 240 then Some (4%nat, 144, 191)             (* F0 *)
  else if between 241 243 s0 then Some (4%nat, 128, 191)    (* F1-F3 *)
  else if s0 =? 244 then Some (4%nat, 128, 143)             (* F4 *)
  else None.

(** [utf8.DecodeRuneInString]: the first rune of the text and its width
    in bytes; [(RuneError, 1)] when the text starts with no valid
    encoding, [(RuneError, 0)] when it is empty. *)
Definition DecodeRuneInString (s : string) : Z * nat :=
  match s with
  | EmptyString => (RuneError, 0%nat)
  | String c0 r0 =>
      let s0 := byte_val c0 in
      if s0 <? 128 then (s0, 1%nat)
      else
        match first s0 with
        | None => (RuneError, 1%nat)
        | Some (sz, lo, hi) =>
            match r0 with
            | EmptyString => (RuneError, 1%nat)
            | String c1 r1 =>
                let s1 := byte_val c1 in
                if negb (between lo hi s1) then (RuneError, 1%nat)
                else if (sz <=? 2)%nat then
                  (Z.lor (Z.shiftl (Z.land s0 31) 6) (Z.land s1 63), 2%nat)
                else
                  match r1 with
                  | EmptyString => (RuneError, 1%nat)
                  | String c2 r2 =>
                      let s2 := byte_val c2 in
                      if negb (between 128 191 s2) then (RuneError, 1%nat)
                      else if (sz <=? 3)%nat then
                        (Z.lor (Z.shiftl (Z.land s0 15) 12)
                           (Z.lor (Z.shiftl (Z.land s1 63) 6) (Z.land s2 63)),
                         3%nat)
                      else
                        match r2 with
                        | EmptyString => (RuneError, 1%nat)
                        | String c3 _ =>
                            let s3 := byte_val c3 in
                            if negb (between 128 191 s3) then (RuneError, 1%nat)
                            else
                              (Z.lor (Z.shiftl (Z.land s0 7) 18)
                                 (Z.lor (Z.shiftl (Z.land s1 63) 12)
                                    (Z.lor (Z.shiftl (Z.land s2 63) 6)
                                       (Z.land s3 63))),
                               4%nat)
                        end
                  end
            end
        end
  end.

Definition bytes3 (r : Z) : string :=
  String (byte_of (Z.lor 224 (Z.shiftr r 12)))
    (String (byte_of (Z.lor 128 (Z.land (Z.shiftr r 6) 63)))
       (String (byte_of (Z.lor 128 (Z.land r 63))) EmptyString)).

(** [utf8.EncodeRune]: a surrogate and a number that is no code point
    are written as U+FFFD. *)
Definition EncodeRune (r : Z) : string :=
  if between 0 127 r then String (byte_of r) EmptyString
  else if between 128 2047 r then
    String (byte_of (Z.lor 192 (Z.shiftr r 6)))
      (String (byte_of (Z.lor 128 (Z.land r 63))) EmptyString)
  else if (r <? 0) || (MaxRune <? r) || between 55296 57343 r then bytes3 RuneError
  else if r <=? 65535 then bytes3 r
  else
    String (byte_of (Z.lor 240 (Z.shiftr r 18)))
      (String (byte_of (Z.lor 128 (Z.land (Z.shiftr r 12) 63)))
         (String (byte_of (Z.lor 128 (Z.land (Z.shiftr r 6) 63)))
            (String (byte_of (Z.lor 128 (Z.land r 63))) EmptyString))).

End utf8.

(** [for _, r := range s]: the runes of the text, each with the bytes it
    was read from. *)
Fixpoint runes_from (fuel : nat) (s : string) : list (Z * string) :=
  match fuel, s with
  | S fuel', String _ _ =>
      let '(r, size) := utf8.DecodeRuneInString s in
      (r, take_bytes size s) :: runes_from fuel' (skip_bytes size s)
  | _, _ => []
  end.

Definition runes (s : string) : list (Z * string) :=
  runes_from (String.length s) s.

(** *** Package unicode *)
Module unicode.

(** A table of case mappings: the runes [lo], [lo + stride], ..., [hi] are
    mapped to themselves plus [delta]. *)
Definition mapped (tab : list (Z * Z * Z * Z)) (r : Z) : Z :=
  match List.find (fun '(lo, hi, stride, _) =>
                     if between lo hi r then (r - lo) mod stride =? 0 else false)
                  tab with
  | Some (_, _, _, delta) => r + delta
  | None => r
  end.

(** The runes with an upper case of their own (Simple_Uppercase_Mapping). *)
Definition upper_ranges : list (Z * Z * Z * Z) :=
  [
   (97, 122, 1, -32); (181, 181, 1, 743); (224, 246, 1, -32);
   (248, 254, 1, -32); (255, 255, 1, 121); (257, 303, 2, -1);
   (305, 305, 1, -232); (307, 311, 2, -1); (314, 328, 2, -1);
   (331, 375, 2, -1); (378, 382, 2, -1); (383, 383, 1, -300);
   (384, 384, 1, 195); (387, 389, 2, -1); (392, 392, 1, -1);
   (396, 396, 1, -1); (402, 402, 1, -1); (405, 405, 1, 97);
   (409, 409, 1, -1); (410, 410, 1, 163); (414, 414, 1, 130);
   (417, 421, 2, -1); (424, 424, 1, -1); (429, 429, 1, -1);
   (432, 432, 1, -1); (436, 438, 2, -1); (441, 441, 1, -1);
   (445, 445, 1, -1); (447, 447, 1, 56); (453, 453, 1, -1);
   (454, 454, 1, -2); (456, 456, 1, -1); (457, 457, 1, -2);
   (459, 459, 1, -1); (460, 460, 1, -2); (462, 476, 2, -1);
   (477, 477, 1, -79); (479, 495, 2, -1); (498, 498, 1, -1);
   (499, 499, 1, -2); (501, 501, 1, -1); (505, 543, 2, -1);
   (547, 563, 2, -1); (572, 572, 1, -1); (575, 576, 1, 10815);
   (578, 578, 1, -1); (583, 591, 2, -1); (592, 592, 1, 10783);
   (593, 593, 1, 10780); (594, 594, 1, 10782); (595, 595, 1, -210);
   (596, 596, 1, -206); (598, 599, 1, -205); (601, 601, 1, -202);
   (603, 603, 1, -203); (604, 604, 1, 42319); (608, 608, 1, -205);
   (609, 609, 1, 42315); (611, 611, 1, -207); (613, 613, 1, 42280);
   (614, 614, 1, 42308); (616, 616, 1, -209); (617, 617, 1, -211);
   (618, 618, 1, 42308); (619, 619, 1, 10743); (620, 620, 1, 42305);
   (623, 623, 1, -211); (625, 625, 1, 10749); (626, 626, 1, -213);
   (629, 629, 1, -214); (637, 637, 1, 10727); (640, 640, 1, -218);
   (642, 642, 1, 42307); (643, 643, 1, -218); (647, 647, 1, 42282);
   (648, 648, 1, -218); (649, 649, 1, -69); (650, 651, 1, -217);
   (652, 652, 1, -71); (658, 658, 1, -219); (669, 669, 1, 42261);
   (670, 670, 1, 42258); (837, 837, 1, 84); (881, 883, 2, -1);
   (887, 887, 1, -1); (891, 893, 1, 130); (940, 940, 1, -38);
   (941, 943, 1, -37); (945, 961, 1, -32); (962, 962, 1, -31);
   (963, 971, 1, -32); (972, 972, 1, -64); (973, 974, 1, -63);
   (976, 976, 1, -62); (977, 977, 1, -57); (981, 981, 1, -47);
   (982, 982, 1, -54); (983, 983, 1, -8); (985, 1007, 2, -1);
   (1008, 1008, 1, -86); (1009, 1009, 1, -80); (1010, 1010, 1, 7);
   (1011, 1011, 1, -116); (1013, 1013, 1, -96); (1016, 1016, 1, -1);
   (1019, 1019, 1, -1); (1072, 1103, 1, -32); (1104, 1119, 1, -80);
   (1121, 1153, 2, -1); (1163, 1215, 2, -1); (1218, 1230, 2, -1);
   (1231, 1231, 1, -15); (1233, 1327, 2, -1); (1377, 1414, 1, -48);
   (4304, 4346, 1, 3008); (4349, 4351, 1, 3008); (5112, 5117, 1, -8);
   (7296, 7296, 1, -6254); (7297, 7297, 1, -6253); (7298, 7298, 1, -6244);
   (7299, 7300, 1, -6242); (7301, 7301, 1, -6243); (7302, 7302, 1, -6236);
   (7303, 7303, 1, -6181); (7304, 7304, 1, 35266); (7545, 7545, 1, 35332);
   (7549, 7549, 1, 3814); (7566, 7566, 1, 35384); (7681, 7829, 2, -1);
   (7835, 7835, 1, -59); (7841, 7935, 2, -1); (7936, 7943, 1, 8);
   (7952, 7957, 1, 8); (7968, 7975, 1, 8); (7984, 7991, 1, 8);
   (8000, 8005, 1, 8); (8017, 8023, 2, 8); (8032, 8039, 1, 8);
   (8048, 8049, 1, 74); (8050, 8053, 1, 86); (8054, 8055, 1, 100);
   (8056, 8057, 1, 128); (8058, 8059, 1, 112); (8060, 8061, 1, 126);
   (8064, 8071, 1, 8); (8080, 8087, 1, 8); (8096, 8103, 1, 8);
   (8112, 8113, 1, 8); (8115, 8115, 1, 9); (8126, 8126, 1, -7205);
   (8131, 8131, 1, 9); (8144, 8145, 1, 8); (8160, 8161, 1, 8);
   (8165, 8165, 1, 7); (8179, 8179, 1, 9); (8526, 8526, 1, -28);
   (8560, 8575, 1, -16); (8580, 8580, 1, -1); (9424, 9449, 1, -26);
   (11312, 11359, 1, -48); (11361, 11361, 1, -1); (11365, 11365, 1, -10795);
   (11366, 11366, 1, -10792); (11368, 11372, 2, -1); (11379, 11379, 1, -1);
   (11382, 11382, 1, -1); (11393, 11491, 2, -1); (11500, 11502, 2, -1);
   (11507, 11507, 1, -1); (11520, 11557, 1, -7264); (11559, 11559, 1, -7264);
   (11565, 11565, 1, -7264); (42561, 42605, 2, -1); (42625, 42651, 2, -1);
   (42787, 42799, 2, -1); (42803, 42863, 2, -1); (42874, 42876, 2, -1);
   (42879, 42887, 2, -1); (42892, 42892, 1, -1); (42897, 42899, 2, -1);
   (42900, 42900, 1, 48); (42903, 42921, 2, -1); (42933, 42947, 2, -1);
   (42952, 42954, 2, -1); (42961, 42961, 1, -1); (42967, 42969, 2, -1);
   (42998, 42998, 1, -1); (43859, 43859, 1, -928); (43888, 43967, 1, -38864);
   (65345, 65370, 1, -32); (66600, 66639, 1, -40); (66776, 66811, 1, -40);
   (66967, 67003, 2, -39); (66968, 66977, 1, -39); (66980, 66993, 1, -39);
   (66996, 67001, 1, -39); (67004, 67004, 1, -39); (68800, 68850, 1, -64);
   (71872, 71903, 1, -32); (93792, 93823, 1, -32); (125218, 125251, 1, -34)
  ].

(** The runes with a lower case of their own (Simple_Lowercase_Mapping). *)
Definition lower_ranges : list (Z * Z * Z * Z) :=
  [
   (65, 90, 1, 32); (192, 214, 1, 32); (216, 222, 1, 32); (256, 302, 2, 1);
   (304, 304, 1, -199); (306, 310, 2, 1); (313, 327, 2, 1); (330, 374, 2, 1);
   (376, 376, 1, -121); (377, 381, 2, 1); (385, 385, 1, 210);
   (386, 388, 2, 1); (390, 390, 1, 206); (391, 391, 1, 1);
   (393, 394, 1, 205); (395, 395, 1, 1); (398, 398, 1, 79);
   (399, 399, 1, 202); (400, 400, 1, 203); (401, 401, 1, 1);
   (403, 403, 1, 205); (404, 404, 1, 207); (406, 406, 1, 211);
   (407, 407, 1, 209); (408, 408, 1, 1); (412, 412, 1, 211);
   (413, 413, 1, 213); (415, 415, 1, 214); (416, 420, 2, 1);
   (422, 422, 1, 218); (423, 423, 1, 1); (425, 425, 1, 218);
   (428, 428, 1, 1); (430, 430, 1, 218); (431, 431, 1, 1);
   (433, 434, 1, 217); (435, 437, 2, 1); (439, 439, 1, 219);
   (440, 440, 1, 1); (444, 444, 1, 1); (452, 452, 1, 2); (453, 453, 1, 1);
   (455, 455, 1, 2); (456, 456, 1, 1); (458, 458, 1, 2); (459, 475, 2, 1);
   (478, 494, 2, 1); (497, 497, 1, 2); (498, 500, 2, 1); (502, 502, 1, -97);
   (503, 503, 1, -56); (504, 542, 2, 1); (544, 544, 1, -130);
   (546, 562, 2, 1); (570, 570, 1, 10795); (571, 571, 1, 1);
   (573, 573, 1, -163); (574, 574, 1, 10792); (577, 577, 1, 1);
   (579, 579, 1, -195); (580, 580, 1, 69); (581, 581, 1, 71);
   (582, 590, 2, 1); (880, 882, 2, 1); (886, 886, 1, 1); (895, 895, 1, 116);
   (902, 902, 1, 38); (904, 906, 1, 37); (908, 908, 1, 64);
   (910, 911, 1, 63); (913, 929, 1, 32); (931, 939, 1, 32); (975, 975, 1, 8);
   (984, 1006, 2, 1); (1012, 1012, 1, -60); (1015, 1015, 1, 1);
   (1017, 1017, 1, -7); (1018, 1018, 1, 1); (1021, 1023, 1, -130);
   (1024, 1039, 1, 80); (1040, 1071, 1, 32); (1120, 1152, 2, 1);
   (1162, 1214, 2, 1); (1216, 1216, 1, 15); (1217, 1229, 2, 1);
   (1232, 1326, 2, 1); (1329, 1366, 1, 48); (4256, 4293, 1, 7264);
   (4295, 4295, 1, 7264); (4301, 4301, 1, 7264); (5024, 5103, 1, 38864);
   (5104, 5109, 1, 8); (7312, 7354, 1, -3008); (7357, 7359, 1, -3008);
   (7680, 7828, 2, 1); (7838, 7838, 1, -7615); (7840, 7934, 2, 1);
   (7944, 7951, 1, -8); (7960, 7965, 1, -8); (7976, 7983, 1, -8);
   (7992, 7999, 1, -8); (8008, 8013, 1, -8); (8025, 8031, 2, -8);
   (8040, 8047, 1, -8); (8072, 8079, 1, -8); (8088, 8095, 1, -8);
   (8104, 8111, 1, -8); (8120, 8121, 1, -8); (8122, 8123, 1, -74);
   (8124, 8124, 1, -9); (8136, 8139, 1, -86); (8140, 8140, 1, -9);
   (8152, 8153, 1, -8); (8154, 8155, 1, -100); (8168, 8169, 1, -8);
   (8170, 8171, 1, -112); (8172, 8172, 1, -7); (8184, 8185, 1, -128);
   (8186, 8187, 1, -126); (8188, 8188, 1, -9); (8486, 8486, 1, -7517);
   (8490, 8490, 1, -8383); (8491, 8491, 1, -8262); (8498, 8498, 1, 28);
   (8544, 8559, 1, 16); (8579, 8579, 1, 1); (9398, 9423, 1, 26);
   (11264, 11311, 1, 48); (11360, 11360, 1, 1); (11362, 11362, 1, -10743);
   (11363, 11363, 1, -3814); (11364, 11364, 1, -10727); (11367, 11371, 2, 1);
   (11373, 11373, 1, -10780); (11374, 11374, 1, -10749);
   (11375, 11375, 1, -10783); (11376, 11376, 1, -10782);
   (11378, 11378, 1, 1); (11381, 11381, 1, 1); (11390, 11391, 1, -10815);
   (11392, 11490, 2, 1); (11499, 11501, 2, 1); (11506, 11506, 1, 1);
   (42560, 42604, 2, 1); (42624, 42650, 2, 1); (42786, 42798, 2, 1);
   (42802, 42862, 2, 1); (42873, 42875, 2, 1); (42877, 42877, 1, -35332);
   (42878, 42886, 2, 1); (42891, 42891, 1, 1); (42893, 42893, 1, -42280);
   (42896, 42898, 2, 1); (42902, 42920, 2, 1); (42922, 42922, 1, -42308);
   (42923, 42923, 1, -42319); (42924, 42924, 1, -42315);
   (42925, 42925, 1, -42305); (42926, 42926, 1, -42308);
   (42928, 42928, 1, -42258); (42929, 42929, 1, -42282);
   (42930, 42930, 1, -42261); (42931, 42931, 1, 928); (42932, 42946, 2, 1);
   (42948, 42948, 1, -48); (42949, 42949, 1, -42307);
   (42950, 42950, 1, -35384); (42951, 42953, 2, 1); (42960, 42960, 1, 1);
   (42966, 42968, 2, 1); (42997, 42997, 1, 1); (65313, 65338, 1, 32);
   (66560, 66599, 1, 40); (66736, 66771, 1, 40); (66928, 66964, 2, 39);
   (66929, 66938, 1, 39); (66941, 66954, 1, 39); (66957, 66962, 1, 39);
   (66965, 66965, 1, 39); (68736, 68786, 1, 64); (71840, 71871, 1, 32);
   (93760, 93791, 1, 32); (125184, 125217, 1, 34)
  ].

(** The runes that fold to another rune (simple case folding, status C
    and S of CaseFolding.txt). *)
Definition fold_ranges : list (Z * Z * Z * Z) :=
  [
   (65, 90, 1, 32); (181, 181, 1, 775); (192, 214, 1, 32); (216, 222, 1, 32);
   (256, 302, 2, 1); (306, 310, 2, 1); (313, 327, 2, 1); (330, 374, 2, 1);
   (376, 376, 1, -121); (377, 381, 2, 1); (383, 383, 1, -268);
   (385, 385, 1, 210); (386, 388, 2, 1); (390, 390, 1, 206);
   (391, 391, 1, 1); (393, 394, 1, 205); (395, 395, 1, 1); (398, 398, 1, 79);
   (399, 399, 1, 202); (400, 400, 1, 203); (401, 401, 1, 1);
   (403, 403, 1, 205); (404, 404, 1, 207); (406, 406, 1, 211);
   (407, 407, 1, 209); (408, 408, 1, 1); (412, 412, 1, 211);
   (413, 413, 1, 213); (415, 415, 1, 214); (416, 420, 2, 1);
   (422, 422, 1, 218); (423, 423, 1, 1); (425, 425, 1, 218);
   (428, 428, 1, 1); (430, 430, 1, 218); (431, 431, 1, 1);
   (433, 434, 1, 217); (435, 437, 2, 1); (439, 439, 1, 219);
   (440, 440, 1, 1); (444, 444, 1, 1); (452, 452, 1, 2); (453, 453, 1, 1);
   (455, 455, 1, 2); (456, 456, 1, 1); (458, 458, 1, 2); (459, 475, 2, 1);
   (478, 494, 2, 1); (497, 497, 1, 2); (498, 500, 2, 1); (502, 502, 1, -97);
   (503, 503, 1, -56); (504, 542, 2, 1); (544, 544, 1, -130);
   (546, 562, 2, 1); (570, 570, 1, 10795); (571, 571, 1, 1);
   (573, 573, 1, -163); (574, 574, 1, 10792); (577, 577, 1, 1);
   (579, 579, 1, -195); (580, 580, 1, 69); (581, 581, 1, 71);
   (582, 590, 2, 1); (837, 837, 1, 116); (880, 882, 2, 1); (886, 886, 1, 1);
   (895, 895, 1, 116); (902, 902, 1, 38); (904, 906, 1, 37);
   (908, 908, 1, 64); (910, 911, 1, 63); (913, 929, 1, 32);
   (931, 939, 1, 32); (962, 962, 1, 1); (975, 975, 1, 8); (976, 976, 1, -30);
   (977, 977, 1, -25); (981, 981, 1, -15); (982, 982, 1, -22);
   (984, 1006, 2, 1); (1008, 1008, 1, -54); (1009, 1009, 1, -48);
   (1012, 1012, 1, -60); (1013, 1013, 1, -64); (1015, 1015, 1, 1);
   (1017, 1017, 1, -7); (1018, 1018, 1, 1); (1021, 1023, 1, -130);
   (1024, 1039, 1, 80); (1040, 1071, 1, 32); (1120, 1152, 2, 1);
   (1162, 1214, 2, 1); (1216, 1216, 1, 15); (1217, 1229, 2, 1);
   (1232, 1326, 2, 1); (1329, 1366, 1, 48); (4256, 4293, 1, 7264);
   (4295, 4295, 1, 7264); (4301, 4301, 1, 7264); (5112, 5117, 1, -8);
   (7296, 7296, 1, -6222); (7297, 7297, 1, -6221); (7298, 7298, 1, -6212);
   (7299, 7300, 1, -6210); (7301, 7301, 1, -6211); (7302, 7302, 1, -6204);
   (7303, 7303, 1, -6180); (7304, 7304, 1, 35267); (7312, 7354, 1, -3008);
   (7357, 7359, 1, -3008); (7680, 7828, 2, 1); (7835, 7835, 1, -58);
   (7838, 7838, 1, -7615); (7840, 7934, 2, 1); (7944, 7951, 1, -8);
   (7960, 7965, 1, -8); (7976, 7983, 1, -8); (7992, 7999, 1, -8);
   (8008, 8013, 1, -8); (8025, 8031, 2, -8); (8040, 8047, 1, -8);
   (8072, 8079, 1, -8); (8088, 8095, 1, -8); (8104, 8111, 1, -8);
   (8120, 8121, 1, -8); (8122, 8123, 1, -74); (8124, 8124, 1, -9);
   (8126, 8126, 1, -7173); (8136, 8139, 1, -86); (8140, 8140, 1, -9);
   (8152, 8153, 1, -8); (8154, 8155, 1, -100); (8168, 8169, 1, -8);
   (8170, 8171, 1, -112); (8172, 8172, 1, -7); (8184, 8185, 1, -128);
   (8186, 8187, 1, -126); (8188, 8188, 1, -9); (8486, 8486, 1, -7517);
   (8490, 8490, 1, -8383); (8491, 8491, 1, -8262); (8498, 8498, 1, 28);
   (8544, 8559, 1, 16); (8579, 8579, 1, 1); (9398, 9423, 1, 26);
   (11264, 11311, 1, 48); (11360, 11360, 1, 1); (11362, 11362, 1, -10743);
   (11363, 11363, 1, -3814); (11364, 11364, 1, -10727); (11367, 11371, 2, 1);
   (11373, 11373, 1, -10780); (11374, 11374, 1, -10749);
   (11375, 11375, 1, -10783); (11376, 11376, 1, -10782);
   (11378, 11378, 1, 1); (11381, 11381, 1, 1); (11390, 11391, 1, -10815);
   (11392, 11490, 2, 1); (11499, 11501, 2, 1); (11506, 11506, 1, 1);
   (42560, 42604, 2, 1); (42624, 42650, 2, 1); (42786, 42798, 2, 1);
   (42802, 42862, 2, 1); (42873, 42875, 2, 1); (42877, 42877, 1, -35332);
   (42878, 42886, 2, 1); (42891, 42891, 1, 1); (42893, 42893, 1, -42280);
   (42896, 42898, 2, 1); (42902, 42920, 2, 1); (42922, 42922, 1, -42308);
   (42923, 42923, 1, -42319); (42924, 42924, 1, -42315);
   (42925, 42925, 1, -42305); (42926, 42926, 1, -42308);
   (42928, 42928, 1, -42258); (42929, 42929, 1, -42282);
   (42930, 42930, 1, -42261); (42931, 42931, 1, 928); (42932, 42946, 2, 1);
   (42948, 42948, 1, -48); (42949, 42949, 1, -42307);
   (42950, 42950, 1, -35384); (42951, 42953, 2, 1); (42960, 42960, 1, 1);
   (42966, 42968, 2, 1); (42997, 42997, 1, 1); (43888, 43967, 1, -38864);
   (65313, 65338, 1, 32); (66560, 66599, 1, 40); (66736, 66771, 1, 40);
   (66928, 66964, 2, 39); (66929, 66938, 1, 39); (66941, 66954, 1, 39);
   (66957, 66962, 1, 39); (66965, 66965, 1, 39); (68736, 68786, 1, 64);
   (71840, 71871, 1, 32); (93760, 93791, 1, 32); (125184, 125217, 1, 34)
  ].

(** [unicode.ToUpper] and [unicode.ToLower] *)
Definition ToUpper (r : Z) : Z :=
  if r <=? 127 then (if between 97 122 r then r - 32 else r)
  else mapped upper_ranges r.

Definition ToLower (r : Z) : Z :=
  if r <=? 127 then (if between 65 90 r then r + 32 else r)
  else mapped lower_ranges r.

(** The simple case folding of a rune.  Two runes are in one orbit of
    [unicode.SimpleFold] exactly when they have the same folding. *)
Definition fold (r : Z) : Z := mapped fold_ranges r.

(** [unicode.IsSpace]: '\t', '\n', '\v', '\f', '\r', ' ', U+0085, U+00A0
    and the other runes with the property White_Space. *)
Definition IsSpace (r : Z) : bool :=
  between 9 13 r || (r =? 32) || (r =? 133) || (r =? 160) || (r =? 5760)
  || between 8192 8202 r || between 8232 8233 r || (r =? 8239) || (r =? 8287)
  || (r =? 12288).

End unicode.

(** *** Package strings *)

(** [strings.Map]: every rune is replaced by its image, a byte that
    starts no valid encoding by the encoding of U+FFFD; a rune with a
    negative image is dropped. *)
Definition Map (mapping : Z -> Z) (s : string) : string :=
  concat_strings
    ((fun c : Z * string =>
        if mapping c.1 <? 0 then EmptyString else utf8.EncodeRune (mapping c.1))
       <$> runes s).

Definition ToUpper (s : string) : string := Map unicode.ToUpper s.

Definition ToLower (s : string) : string := Map unicode.ToLower s.

Definition is_space (c : Z * string) : bool := unicode.IsSpace c.1.

Fixpoint drop_while {A} (f : A -> bool) (l : list A) : list A :=
  match l with
  | [] => []
  | x :: rest => if f x then drop_while f rest else l
  end.

Fixpoint drop_end {A} (f : A -> bool) (l : list A) : list A :=
  match l with
  | [] => []
  | x :: rest =>
      match drop_end f rest with
      | [] => if f x then [] else [x]
      | kept => x :: kept
      end
  end.

(** [strings.TrimSpace]: the text without the white-space runes at its
    start and at its end.  Go reads the end backwards with
    [utf8.DecodeLastRuneInString]; a white-space rune is found there
    exactly when the text ends with its encoding, which is then the last
    rune of the text read forwards, because the first byte of an
    encoding is never a continuation byte. *)
Definition TrimSpace (s : string) : string :=
  concat_strings (snd <$> drop_end is_space (drop_while is_space (runes s))).

Fixpoint eq_runes (l1 l2 : list Z) : bool :=
  match l1, l2 with
  | [], [] => true
  | r1 :: l1', r2 :: l2' => (r1 =? r2) && eq_runes l1' l2'
  | _, _ => false
  end.

(** [strings.EqualFold]: the texts have as many runes, and the runes at
    the same place are equal or in one orbit of [unicode.SimpleFold]. *)
Definition EqualFold (s t : string) : bool :=
  eq_runes ((fun c : Z * string => unicode.fold c.1) <$> runes s)
           ((fun c : Z * string => unicode.fold c.1) <$> runes t).

Fixpoint strip_prefix (p s : string) : option string :=
  match p with
  | EmptyString => Some s
  | String a p' =>
      match s with
      | EmptyString => None
      | String b s' => if Ascii.eqb a b then strip_prefix p' s' else None
      end
  end.

Definition HasPrefix (s p : string) : bool :=
  match strip_prefix p s with Some _ => true | None => false end.

Definition TrimPrefix (s p : string) : string :=
  match strip_prefix p s with Some r => r | None => s end.

Definition HasSuffix (s suffix : string) : bool :=
  (String.length suffix <=? String.length s)%nat &&
  String.eqb (skip_bytes (String.length s - String.length suffix) s) suffix.

Definition TrimSuffix (s suffix : string) : string :=
  if HasSuffix s suffix then take_bytes (String.length s - String.length suffix) s
  else s.

(** [cut sep text]: the text before and after the first occurrence of the
    (non-empty) separator, if there is one. *)
Fixpoint cut (sep text : string) : option (string * string) :=
  match strip_prefix sep text with
  | Some after => Some (EmptyString, after)
  | None =>
      match text with
      | EmptyString => None
      | String c r =>
          match cut sep r with
          | Some (before, after) => Some (String c before, after)
          | None => None
          end
      end
  end.

(** [strings.SplitN(text, sep, 2)] for a non-empty [sep]. *)
Definition SplitN2 (text sep : string) : list string :=
  match cut sep text with
  | Some (before, after) => [before; after]
  | None => [text]
  end.

(** The conversion [string(b)] of a byte: the UTF-8 encoding of the code
    point with that number, two bytes long from 128 on. *)
Definition string_of_byte (c : ascii) : string :=
  let n := N_of_ascii c in
  if (n <? 128)%N then String c EmptyString
  else String (ascii_of_N (192 + n / 64))
         (String (ascii_of_N (128 + n mod 64)) EmptyString).

End GoStrings.
Import GoStrings.

(** ** extractLetter (main.go:188, the same text in the single-topic
    predecessor of the file) *)

Definition separators : list string := ["."; ")"; ":"].

Fixpoint extractLetter_seps (seps : list string) (text : string) : option string :=
  match seps with
  | [] => None
  | sep :: rest =>
      let parts := SplitN2 text sep in
      if (2 <=? length parts)%nat
      then Some (ToUpper (TrimSpace (nth 0 parts EmptyString)))
      else extractLetter_seps rest text
  end.

Definition extractLetter (text : string) : string :=
  match extractLetter_seps separators text with
  | Some letter => letter
  | None =>
      match text with
      | String c _ => ToUpper (string_of_byte c)
      | EmptyString => EmptyString
      end
  end.

(** ** Go integers, slices and maps *)

(** [int] is 64 bits wide on the platforms the bot is built for. *)
Definition int_max : Z := 2 ^ 63 - 1.

Definition wrap_int (z : Z) : Z := (z + 2 ^ 63) mod 2 ^ 64 - 2 ^ 63.

(** [x++] on an [int]. *)
Definition incr (x : Z) : Z := wrap_int (x + 1).

Definition len {A} (l : list A) : Z := Z.of_nat (length l).

(** ** The data model (main.go:19-75) *)

Record Question := {
  Id : Z;
  QuestionText : string;            (* field [Question] *)
  Options : gmap string string;
  CorrectAnswer : list string
}.

Record UserState := {
  CurrentQuestion : Z;
  Score : Z;
  QuestionOrder : list Z;
  SelectedTheme : string;
  SetupStep : string
}.

(** [QuestionManager.Themes] *)
Abbreviation Themes := (gmap string (list Question)).

(** What the bot hands to the Telegram client.  One constructor per
    message text of main.go (the line is given), carrying the chat and the
    values formatted into the text. *)
Inductive Feedback :=
| InvalidChoice                                      (* :476 *)
| Correct                                            (* :479 *)
| Incorrect (correctOption correctText : string).    (* :481-485 *)

Inductive Effect :=
| MsgUnknownCommand (chat : Z)                                   (* :119 *)
| MsgNoThemes (chat : Z)                                         (* :223 *)
| MsgThemeList (chat : Z) (themes : list string)                 (* :239 *)
| MsgNoQuestions (chat : Z)                                      (* :256 *)
| MsgRestarted (chat : Z)                                        (* :282 *)
| MsgHelp (chat : Z)                                             (* :298 *)
| MsgStartFirst (chat : Z)                                       (* :312 *)
| MsgThemeUnavailable (chat : Z)                                 (* :322, :461 *)
| MsgQuizFinished (chat : Z) (score total : Z)                   (* :331 *)
| MsgBadIndex (chat : Z)                                         (* :347 *)
| MsgQuestion (chat : Z) (prompt : string)
    (options : list (string * string))                           (* :369 *)
| MsgNoSession (chat : Z)                                        (* :390 *)
| MsgOrderChoice (chat : Z)                                      (* :412 *)
| MsgThemeUnavailableRestart (chat : Z)                          (* :427 *)
| MsgAlreadyFinished (chat : Z)                                  (* :467 *)
| MsgResult (chat : Z) (fb : Feedback) (score total : Z)         (* :492 *)
| MsgFinal (chat : Z) (score total : Z)                          (* :502 *)
| CallbackAnswered (callbackID : string).                        (* :525 *)

(** The mutable part of [App]: the session table and, in the order of
    sending, what went to the client.  [S] is the type of the sessions. *)
Record World (S : Type) := {
  Users : gmap Z S;
  outbox : list Effect
}.
Arguments Build_World {S} _ _.
Arguments Users {S} _.
Arguments outbox {S} _.

(** ** Programs

    A handler either returns with a new world or panics ([None]): Go
    panics on an index out of range and on a field access through a nil
    pointer, and the bot recovers from no panic, so a panic ends the
    process.  [app.mu] is taken and released around every access to the
    table; the handlers run one after the other in the loop of
    [App.Start], so locking shows nowhere in the sequential model. *)
Definition M (S A : Type) : Type := World S -> option (A * World S).

Definition ret {S A} (a : A) : M S A := fun w => Some (a, w).

Definition bind {S A B} (c : M S A) (k : A -> M S B) : M S B :=
  fun w => match c w with
           | Some (a, w') => k a w'
           | None => None
           end.

Definition panic {S A} : M S A := fun _ => None.

#[global] Instance M_ret {S} : MRet (M S) := @ret S.
#[global] Instance M_bind {S} : MBind (M S) := fun A B k c => bind c k.

(** [bot.Send(msg)]; a failed send is logged and changes nothing else. *)
Definition send {S} (e : Effect) : M S unit :=
  fun w => Some (tt, {| Users := Users w; outbox := outbox w ++ [e] |}).

(** [state, exists := app.Users[userID]] *)
Definition getUser {S} (userID : Z) : M S (option S) :=
  fun w => Some (Users w !! userID, w).

(** [app.Users[userID] = state] *)
Definition putUser {S} (userID : Z) (state : S) : M S unit :=
  fun w => Some (tt, {| Users := <[userID := state]> (Users w); outbox := outbox w |}).

(** [delete(app.Users, userID)] *)
Definition delUser {S} (userID : Z) : M S unit :=
  fun w => Some (tt, {| Users := delete userID (Users w); outbox := outbox w |}).

(** [l[i]]: panics out of range. *)
Definition index {S A} (l : list A) (i : Z) : M S A :=
  if (i <? 0) || (len l <=? i) then panic
  else match l !! Z.to_nat i with
       | Some x => ret x
       | None => panic
       end.

(** [order := make([]int, n); for i := range order { order[i] = i }] *)
Definition make_ints (n : nat) : list Z := replicate n 0.

Definition fill_range (order : list Z) : list Z :=
  foldl (fun o i => <[i := Z.of_nat i]> o) order (seq 0 (length order)).

Definition identity_order (n : nat) : list Z := fill_range (make_ints n).

(** [order[i], order[j] = order[j], order[i]] *)
Definition swap (order : list Z) (i j : nat) : option (list Z) :=
  match order !! j, order !! i with
  | Some oj, Some oi => Some (<[j := oi]> (<[i := oj]> order))
  | _, _ => None
  end.

(** [rand.Shuffle(n, swap)] of math/rand: for [i] from [n-1] down to 1,
    swap [i] with a random [j] in [0, i].  The process-wide source is the
    oracle [rnd], read at [i]; whatever it holds is brought into range. *)
Fixpoint Shuffle_from (rnd : nat -> nat) (i : nat) (order : list Z) : option (list Z) :=
  match i with
  | O => Some order
  | S i' =>
      match swap order i (rnd i mod S i) with
      | Some order' => Shuffle_from rnd i' order'
      | None => None
      end
  end.

Definition Shuffle (rnd : nat -> nat) (n : nat) (order : list Z) : option (list Z) :=
  Shuffle_from rnd (n - 1) order.

(** main.go:515 *)
Fixpoint contains (slice : list string) (item : string) : bool :=
  match slice with
  | [] => false
  | s :: rest => if EqualFold s item then true else contains rest item
  end.

(** ** Inbound updates (the fields of tgbotapi.Update the bot reads) *)

Record Message := {
  msg_From : Z;                 (* message.From.ID *)
  msg_Chat : Z;                 (* message.Chat.ID *)
  msg_Command : option string   (* Command() when IsCommand() *)
}.

Record CallbackQuery := {
  cb_ID : string;
  cb_From : Z;                  (* callback.From.ID *)
  cb_Chat : Z;                  (* callback.Message.Chat.ID *)
  cb_Data : string
}.

Record Update := {
  upd_Message : option Message;
  upd_CallbackQuery : option CallbackQuery
}.

(** ** The handlers *)

Section Handlers.

(** [app.QuestionMgr.Themes], read only once the bot runs. *)
Variable qm : Themes.

(** A [range] over a Go map visits the keys in no specified order; the
    order of [map_to_list] stands for it. *)
Definition theme_names : list string := (map_to_list qm).*1.

Definition all_questions : list Question := concat (map_to_list qm).*2.

(** main.go:305 *)
Definition sendQuestion (chatID userID : Z) : M UserState unit :=
  st ← getUser userID;
  match st with
  | None => send (MsgStartFirst chatID)
  | Some state =>
      match qm !! SelectedTheme state with
      | None => send (MsgThemeUnavailable chatID)
      | Some questions =>
          if len questions =? 0 then send (MsgThemeUnavailable chatID)
          else if len questions <=? CurrentQuestion state then
            send (MsgQuizFinished chatID (Score state) (len questions));;
            delUser userID
          else
            currentIndex ← index (QuestionOrder state) (CurrentQuestion state);
            if len questions <=? currentIndex then send (MsgBadIndex chatID)
            else
              currentQuestion ← index questions currentIndex;
              send (MsgQuestion chatID (QuestionText currentQuestion)
                      (map_to_list (Options currentQuestion)))
      end
  end.

(** main.go:205 *)
Definition handleStartCommand (message : Message) : M UserState unit :=
  putUser (msg_From message)
    {| CurrentQuestion := 0; Score := 0; QuestionOrder := [];
       SelectedTheme := ""; SetupStep := "select_theme" |};;
  let themes := theme_names in
  if len themes =? 0 then send (MsgNoThemes (msg_Chat message))
  else send (MsgThemeList (msg_Chat message) themes).

(** main.go:247.  [app.Users[message.From.ID].SelectedTheme] reads a field
    through the pointer the table holds for the user, nil when there is
    none. *)
Definition handleRestartCommand (message : Message) : M UserState unit :=
  let allQuestions := all_questions in
  if len allQuestions =? 0 then send (MsgNoQuestions (msg_Chat message))
  else
    let order := identity_order (length allQuestions) in
    old ← getUser (msg_From message);
    match old with
    | None => panic
    | Some prev =>
        putUser (msg_From message)
          {| CurrentQuestion := 0; Score := 0; QuestionOrder := order;
             SelectedTheme := SelectedTheme prev; SetupStep := "" |};;
        send (MsgRestarted (msg_Chat message));;
        sendQuestion (msg_Chat message) (msg_From message)
    end.

(** main.go:292 *)
Definition handleHelpCommand (message : Message) : M UserState unit :=
  send (MsgHelp (msg_Chat message)).

(** main.go:524 *)
Definition answerCallback {S} (callbackID : string) : M S unit :=
  send (CallbackAnswered callbackID).

Definition set_theme (state : UserState) (theme step : string) : UserState :=
  {| CurrentQuestion := CurrentQuestion state; Score := Score state;
     QuestionOrder := QuestionOrder state;
     SelectedTheme := theme; SetupStep := step |}.

Definition set_Score (state : UserState) (score : Z) : UserState :=
  {| CurrentQuestion := CurrentQuestion state; Score := score;
     QuestionOrder := QuestionOrder state;
     SelectedTheme := SelectedTheme state; SetupStep := SetupStep state |}.

Definition set_CurrentQuestion (state : UserState) (pos : Z) : UserState :=
  {| CurrentQuestion := pos; Score := Score state;
     QuestionOrder := QuestionOrder state;
     SelectedTheme := SelectedTheme state; SetupStep := SetupStep state |}.

(** The [select_theme] case, main.go:396-419 *)
Definition on_select_theme (userID chatID : Z) (data : string) (state : UserState) : M UserState unit :=
  if HasPrefix data "theme_" then
    let theme := TrimPrefix data "theme_" in
    putUser userID (set_theme state theme "select_order");;
    send (MsgOrderChoice chatID)
  else ret tt.

(** The [select_order] case, main.go:420-455 *)
Definition on_select_order (rnd : nat -> nat) (userID chatID : Z) (data : string)
    (state : UserState) : M UserState unit :=
  if String.eqb data "order_ordered" || String.eqb data "order_random" then
    match qm !! SelectedTheme state with
    | None => send (MsgThemeUnavailableRestart chatID)
    | Some questions =>
        if len questions =? 0 then send (MsgThemeUnavailableRestart chatID)
        else
          let order := identity_order (length questions) in
          match (if String.eqb data "order_random"
                 then Shuffle rnd (length order) order else Some order) with
          | None => panic
          | Some order =>
              putUser userID
                {| CurrentQuestion := 0; Score := 0; QuestionOrder := order;
                   SelectedTheme := SelectedTheme state; SetupStep := "" |};;
              sendQuestion chatID userID
          end
    end
  else ret tt.

(** The [default] case, main.go:456-511 *)
Definition on_answer (userID chatID : Z) (data : string) (state : UserState) : M UserState unit :=
  let selectedLetter := ToUpper (TrimSpace data) in
  match qm !! SelectedTheme state with
  | None => send (MsgThemeUnavailable chatID)
  | Some questions =>
      if len questions =? 0 then send (MsgThemeUnavailable chatID)
      else if len questions <=? CurrentQuestion state then
        send (MsgAlreadyFinished chatID)
      else
        i ← index (QuestionOrder state) (CurrentQuestion state);
        currentQuestion ← index questions i;
        '(state, fb) ←
          (if String.eqb selectedLetter "" then ret (state, InvalidChoice)
           else if contains (CorrectAnswer currentQuestion) selectedLetter then
             ret (set_Score state (incr (Score state)), Correct)
           else
             correctOption ← index (CorrectAnswer currentQuestion) 0;
             let correctText := default "" (Options currentQuestion !! correctOption) in
             ret (state, Incorrect correctOption correctText));
        let state := set_CurrentQuestion state (incr (CurrentQuestion state)) in
        putUser userID state;;
        send (MsgResult chatID fb (Score state) (len questions));;
        if CurrentQuestion state <? len questions then sendQuestion chatID userID
        else
          send (MsgFinal chatID (Score state) (len questions));;
          delUser userID
  end.

(** main.go:379.  The deferred [answerCallback] runs when the body
    returns. *)
Definition handleCallbackQuery (rnd : nat -> nat) (callback : CallbackQuery) : M UserState unit :=
  let data := cb_Data callback in
  let userID := cb_From callback in
  let chatID := cb_Chat callback in
  (st ← getUser userID;
   match st with
   | None => send (MsgNoSession chatID)
   | Some state =>
       if String.eqb (SetupStep state) "select_theme" then
         on_select_theme userID chatID data state
       else if String.eqb (SetupStep state) "select_order" then
         on_select_order rnd userID chatID data state
       else on_answer userID chatID data state
   end);;
  answerCallback (cb_ID callback).

(** The body of the loop of [App.Start], main.go:108-128. *)
Definition handleUpdate (rnd : nat -> nat) (update : Update) : M UserState unit :=
  match upd_Message update with
   | Some message =>
       match msg_Command message with
       | Some cmd =>
           if String.eqb cmd "start" then handleStartCommand message
           else if String.eqb cmd "help" then handleHelpCommand message
           else if String.eqb cmd "restart" then handleRestartCommand message
           else send (MsgUnknownCommand (msg_Chat message))
       | None => ret tt
       end
   | None => ret tt
   end;;
  match upd_CallbackQuery update with
  | Some callback => handleCallbackQuery rnd callback
  | None => ret tt
  end.

End Handlers.

(** ** Loading the bank (main.go:131-185)

    The file system is what the loader sees of it: whether the root can
    be examined and listed, and for every entry its name, whether it is a
    directory, and what [os.ReadFile] and [json.Unmarshal] make of it. *)

Inductive FileContent :=
| Unreadable                        (* os.ReadFile fails *)
| Malformed                         (* json.Unmarshal fails *)
| Decoded (qs : list Question).     (* what json.Unmarshal puts into qs *)

Record DirEntry := {
  Name : string;
  IsDir : bool;
  content : FileContent
}.

Inductive Dir :=
| Inaccessible                      (* os.Stat fails *)
| NotADirectory                     (* info.IsDir() is false *)
| Unlistable                        (* os.ReadDir fails *)
| Listing (files : list DirEntry).

(** The errors of the loader.  The error of [os.ReadFile] names the file
    it was asked for; the error of [json.Unmarshal] names no file. *)
Inductive LoadError :=
| ErrRead (filename : string)       (* :134 *)
| ErrJSON                           (* :140 *)
| ErrStat                           (* :152 *)
| ErrNotDir                         (* :156 *)
| ErrReadDir.                       (* :162 *)

(** The lines the loader logs, with the values formatted into them. *)
Inductive LogLine :=
| Warning (err : LoadError)                         (* :177 *)
| Loaded (theme name : string).                     (* :181 *)

(** [filepath.Ext]: the suffix of the last element of the path from its
    last dot on. *)
Fixpoint has_slash (s : string) : bool :=
  match s with
  | EmptyString => false
  | String c r => Ascii.eqb c "/" || has_slash r
  end.

Fixpoint Ext (path : string) : string :=
  match path with
  | EmptyString => EmptyString
  | String c r =>
      match Ext r with
      | EmptyString =>
          if Ascii.eqb c "." && negb (has_slash r) then path else EmptyString
      | e => e
      end
  end.

(** The elements of a path, the texts between its separators. *)
Fixpoint split_slash (path : string) : list string :=
  match path with
  | EmptyString => [EmptyString]
  | String c r =>
      if Ascii.eqb c "/" then EmptyString :: split_slash r
      else match split_slash r with
           | e :: rest => String c e :: rest
           | [] => [String c EmptyString]
           end
  end.

Fixpoint join_slash (elems : list string) : string :=
  match elems with
  | [] => EmptyString
  | [e] => e
  | e :: rest => (e ++ "/" ++ join_slash rest)%string
  end.

(** One element read by [filepath.Clean]; [out] holds the elements
    written so far, the last one first.  An empty element and "." are
    dropped; ".." takes the last element back, stays when there is none
    to take back and the path is not rooted, and is dropped at the
    root. *)
Definition clean_step (rooted : bool) (out : list string) (elem : string)
    : list string :=
  if String.eqb elem "" || String.eqb elem "." then out
  else if String.eqb elem ".." then
    match out with
    | top :: rest => if String.eqb top ".." then elem :: out else rest
    | [] => if rooted then [] else [elem]
    end
  else elem :: out.

(** [filepath.Clean] with the separator of the platforms the bot is
    built for, '/'. *)
Definition Clean (path : string) : string :=
  let rooted := HasPrefix path "/" in
  let out := rev (foldl (clean_step rooted) [] (split_slash path)) in
  if rooted then ("/" ++ join_slash out)%string
  else match out with
       | [] => "."
       | _ => join_slash out
       end.

(** [filepath.Join] of a directory and a name: the first non-empty
    element and those after it are joined with separators, and the
    result is cleaned. *)
Definition Join (dirPath name : string) : string :=
  if String.eqb dirPath "" then
    if String.eqb name "" then "" else Clean name
  else Clean (dirPath ++ "/" ++ name).

(** The names [os.ReadDir] returns are those of the entries of the
    directory: not empty, not "." or "..", and without separator. *)
Definition is_entry_name (name : string) : bool :=
  negb (String.eqb name "") && negb (String.eqb name ".")
  && negb (String.eqb name "..") && negb (has_slash name).

(** main.go:131 *)
Definition loadQuestions (themes : Themes) (filename : string) (c : FileContent)
    : Themes * option LoadError :=
  match c with
  | Unreadable => (themes, Some (ErrRead filename))
  | Malformed => (themes, Some ErrJSON)
  | Decoded qs => (<[filename := qs]> themes, None)
  end.

(** The body of the loop over the entries, main.go:166-182 *)
Definition load_entry (dirPath : string) (acc : Themes * list LogLine)
    (file : DirEntry) : Themes * list LogLine :=
  let '(themes, log) := acc in
  if IsDir file then acc
  else if negb (String.eqb (ToLower (Ext (Name file))) ".json") then acc
  else
    let filePath := Join dirPath (Name file) in
    match loadQuestions themes filePath (content file) with
    | (themes', Some err) => (themes', log ++ [Warning err])
    | (themes', None) =>
        (themes', log ++ [Loaded (TrimSuffix (Name file) ".json") (Name file)])
    end.

(** main.go:148 *)
Definition LoadAllQuestionsFromDir (dirPath : string) (dir : Dir) (themes : Themes)
    : option LoadError * Themes * list LogLine :=
  match dir with
  | Inaccessible => (Some ErrStat, themes, [])
  | NotADirectory => (Some ErrNotDir, themes, [])
  | Unlistable => (Some ErrReadDir, themes, [])
  | Listing files =>
      let '(themes', log) := foldl (load_entry dirPath) (themes, []) files in
      (None, themes', log)
  end.

(** * The single-topic predecessor (src/unnamed/part_000)

    The earlier form of the bot: one global list of questions, options
    that carry their letter as a prefix ("A. Paris"), sessions without
    topic and set-up steps, and a /random command.  It sends the texts
    of main.go, so the effects are shared; the feedback for a wrong answer
    shows the text of the correct option only. *)
Module Legacy.

Record Question := {
  QuestionText : string;            (* field [Question] *)
  Options : list string;
  CorrectOption : string
}.

Record UserState := {
  CurrentQuestion : Z;
  Score : Z;
  QuestionOrder : list Z
}.

(** part_000:104, after the file is read and decoded: every correct
    option is reduced to its letter. *)
Definition normalize (q : Question) : Question :=
  {| QuestionText := QuestionText q; Options := Options q;
     CorrectOption := extractLetter (ToUpper (TrimSpace (CorrectOption q))) |}.

Definition loadQuestions (decoded : list Question) : list Question :=
  normalize <$> decoded.

(** part_000:352 *)
Fixpoint getOptionText_in (options : list string) (letter : string) : string :=
  match options with
  | [] => ""
  | option :: rest =>
      if String.eqb (extractLetter option) letter then option
      else getOptionText_in rest letter
  end.

Definition getOptionText (q : Question) (letter : string) : string :=
  getOptionText_in (Options q) letter.

(** The buttons of a question, part_000:257-267: an option without
    letter is left out. *)
Fixpoint buttons (options : list string) : list (string * string) :=
  match options with
  | [] => []
  | option :: rest =>
      let letter := extractLetter option in
      if String.eqb letter "" then buttons rest
      else (letter, option) :: buttons rest
  end.

Definition new_session (order : list Z) : UserState :=
  {| CurrentQuestion := 0; Score := 0; QuestionOrder := order |}.

Definition set_Score (state : UserState) (score : Z) : UserState :=
  {| CurrentQuestion := CurrentQuestion state; Score := score;
     QuestionOrder := QuestionOrder state |}.

Definition set_CurrentQuestion (state : UserState) (pos : Z) : UserState :=
  {| CurrentQuestion := pos; Score := Score state;
     QuestionOrder := QuestionOrder state |}.

Section Handlers.

(** The global [questions], set by [loadQuestions] before the first
    update. *)
Variable questions : list Question.

(** part_000:229 *)
Definition sendQuestion (chatID userID : Z) : M UserState unit :=
  st ← getUser userID;
  match st with
  | None => send (MsgStartFirst chatID)
  | Some state =>
      if len questions <=? CurrentQuestion state then
        send (MsgQuizFinished chatID (Score state) (len questions));;
        delUser userID
      else
        i ← index (QuestionOrder state) (CurrentQuestion state);
        currentQuestion ← index questions i;
        send (MsgQuestion chatID (QuestionText currentQuestion)
                (buttons (Options currentQuestion)))
  end.

(** part_000:139 *)
Definition handleStartCommand (message : Message) : M UserState unit :=
  let order := identity_order (length questions) in
  putUser (msg_From message) (new_session order);;
  sendQuestion (msg_Chat message) (msg_From message).

(** part_000:162 *)
Definition handleRestartCommand (message : Message) : M UserState unit :=
  let order := identity_order (length questions) in
  putUser (msg_From message) (new_session order);;
  send (MsgRestarted (msg_Chat message));;
  sendQuestion (msg_Chat message) (msg_From message).

(** part_000:203 *)
Definition handleRandomCommand (rnd : nat -> nat) (message : Message)
    : M UserState unit :=
  let order := identity_order (length questions) in
  match Shuffle rnd (length order) order with
  | None => panic
  | Some order =>
      putUser (msg_From message) (new_session order);;
      sendQuestion (msg_Chat message) (msg_From message)
  end.

(** part_000:282 *)
Definition handleCallbackQuery (callback : CallbackQuery) : M UserState unit :=
  let userID := cb_From callback in
  let selectedLetter := ToUpper (TrimSpace (cb_Data callback)) in
  let chatID := cb_Chat callback in
  st ← getUser userID;
  match st with
  | None =>
      send (MsgStartFirst chatID);;
      answerCallback (cb_ID callback)
  | Some state =>
      if len questions <=? CurrentQuestion state then
        send (MsgAlreadyFinished chatID);;
        answerCallback (cb_ID callback)
      else
        i ← index (QuestionOrder state) (CurrentQuestion state);
        currentQuestion ← index questions i;
        let '(state, fb) :=
          if String.eqb selectedLetter (CorrectOption currentQuestion) then
            (set_Score state (incr (Score state)), Correct)
          else
            (state, Incorrect (CorrectOption currentQuestion)
                      (getOptionText currentQuestion (CorrectOption currentQuestion))) in
        send (MsgResult chatID fb (Score state) (len questions));;
        let state := set_CurrentQuestion state (incr (CurrentQuestion state)) in
        putUser userID state;;
        (if CurrentQuestion state <? len questions then sendQuestion chatID userID
         else
           send (MsgFinal chatID (Score state) (len questions));;
           delUser userID);;
        answerCallback (cb_ID callback)
  end.

(** The body of the loop of [main], part_000:74-100. *)
Definition handleUpdate (rnd : nat -> nat) (update : Update) : M UserState unit :=
  match upd_Message update with
   | Some message =>
       match msg_Command message with
       | Some cmd =>
           if String.eqb cmd "start" then handleStartCommand message
           else if String.eqb cmd "help" then send (MsgHelp (msg_Chat message))
           else if String.eqb cmd "restart" then handleRestartCommand message
           else if String.eqb cmd "random" then handleRandomCommand rnd message
           else send (MsgUnknownCommand (msg_Chat message))
       | None => ret tt
       end
   | None => ret tt
   end;;
  match upd_CallbackQuery update with
  | Some callback => handleCallbackQuery callback
  | None => ret tt
  end.

End Handlers.

Definition session_inv (st : UserState) : Prop :=
  0 <= Score st <= CurrentQuestion st /\
  CurrentQuestion st <= len (QuestionOrder st).

Fixpoint run (questions : list Question) (updates : list ((nat -> nat) * Update))
    (w : World UserState) : option (World UserState) :=
  match updates with
  | [] => Some w
  | (rnd, update) :: rest =>
      match handleUpdate questions rnd update w with
      | Some (_, w') => run questions rest w'
      | None => None
      end
  end.

Definition reachable (questions : list Question) (w : World UserState) : Prop :=
  exists updates, run questions updates {| Users := ∅; outbox := [] |} = Some w.

End Legacy.

(** * Specification vocabulary *)

(** ** Phases and the session invariant *)

(** The phases of a session are told apart by [SetupStep], as the switch
    of [handleCallbackQuery] does; a finished session is removed from the
    table. *)
Inductive Phase := AwaitingTopic | AwaitingOrder | InProgress.

Definition phase (st : UserState) : Phase :=
  if String.eqb (SetupStep st) "select_theme" then AwaitingTopic
  else if String.eqb (SetupStep st) "select_order" then AwaitingOrder
  else InProgress.

Definition session_inv (st : UserState) : Prop :=
  0 <= Score st <= CurrentQuestion st /\
  CurrentQuestion st <= len (QuestionOrder st).

(** Every position below the number of questions holds the index of a
    question. *)
Definition order_covers (questions : list Question) (order : list Z) : Prop :=
  forall i, (i < length questions)%nat ->
    exists idx, order !! i = Some idx /\ 0 <= idx < len questions.

Definition session_ok (qm : Themes) (st : UserState) : Prop :=
  session_inv st /\
  (phase st = InProgress -> forall questions,
     qm !! SelectedTheme st = Some questions ->
     order_covers questions (QuestionOrder st)).

Definition table_all {S} (P : S -> Prop) (t : gmap Z S) : Prop :=
  forall u st, t !! u = Some st -> P st.

(** Every slice of the bank has a length that fits an [int], as every Go
    slice has. *)
Definition bank_fits (qm : Themes) : Prop :=
  forall theme questions, qm !! theme = Some questions -> len questions <= int_max.

(** ** Transitions *)

(** The session [handleStartCommand] stores. *)
Definition fresh : UserState :=
  {| CurrentQuestion := 0; Score := 0; QuestionOrder := [];
     SelectedTheme := ""; SetupStep := "select_theme" |}.

(** The session a quiz starts with. *)
Definition started (theme : string) (order : list Z) : UserState :=
  {| CurrentQuestion := 0; Score := 0; QuestionOrder := order;
     SelectedTheme := theme; SetupStep := "" |}.

(** The question a session is at: [questions[order[position]]]. *)
Definition current_question (questions : list Question) (st : UserState)
    : option Question :=
  match QuestionOrder st !! Z.to_nat (CurrentQuestion st) with
  | Some i => questions !! Z.to_nat i
  | None => None
  end.

(** What an answer does to a session: one position further, one point
    more for a hit. *)
Definition answered (st : UserState) (hit : bool) : UserState :=
  {| CurrentQuestion := CurrentQuestion st + 1;
     Score := Score st + (if hit then 1 else 0);
     QuestionOrder := QuestionOrder st;
     SelectedTheme := SelectedTheme st;
     SetupStep := SetupStep st |}.

(** The end of the [default] case, main.go:487-511, after the feedback
    is chosen: the next question, or the final score and the end of the
    session. *)
Definition after_answer (qm : Themes) (userID chatID : Z) (fb : Feedback)
    (state : UserState) (questions : list Question) : M UserState unit :=
  putUser userID state;;
  send (MsgResult chatID fb (Score state) (len questions));;
  if CurrentQuestion state <? len questions then sendQuestion qm chatID userID
  else
    send (MsgFinal chatID (Score state) (len questions));;
    delUser userID.

(** ** extractLabel, after the words of the specification: split at the
    first of ".", ")", ":" that occurs (in this order of preference) and
    return the trimmed, upper-cased prefix; without separator the
    upper-cased first character; the empty string for the empty text. *)

(** The offset of the first occurrence of the separator. *)
Fixpoint find_sep (sep text : string) : option nat :=
  if HasPrefix text sep then Some 0%nat
  else match text with
       | EmptyString => None
       | String _ r => S <$> find_sep sep r
       end.

(** The first character of a text: the bytes of its first rune. *)
Definition first_char (text : string) : string :=
  match runes text with
  | (_, bytes) :: _ => bytes
  | [] => EmptyString
  end.

Definition extractLabel (text : string) : string :=
  match find_sep "." text, find_sep ")" text, find_sep ":" text with
  | Some n, _, _ => ToUpper (TrimSpace (substring 0 n text))
  | None, Some n, _ => ToUpper (TrimSpace (substring 0 n text))
  | None, None, Some n => ToUpper (TrimSpace (substring 0 n text))
  | None, None, None => ToUpper (first_char text)
  end.

(** ** Reachable worlds: the bot starts with an empty table and handles
    one update after the other, each with what the random source holds
    at the time. *)

Definition init_world : World UserState := {| Users := ∅; outbox := [] |}.

Fixpoint run (qm : Themes) (updates : list ((nat -> nat) * Update)) (w : World UserState)
    : option (World UserState) :=
  match updates with
  | [] => Some w
  | (rnd, update) :: rest =>
      match handleUpdate qm rnd update w with
      | Some (_, w') => run qm rest w'
      | None => None
      end
  end.

Definition reachable (qm : Themes) (w : World UserState) : Prop :=
  exists updates, run qm updates init_world = Some w.

(** ** Loading *)

Definition is_topic_file (file : DirEntry) : bool :=
  negb (IsDir file) && String.eqb (ToLower (Ext (Name file))) ".json".

(** What [os.ReadDir] returns: the entries of the directory, each under
    a name of its own. *)
Definition listing_ok (files : list DirEntry) : Prop :=
  NoDup (Name <$> files) /\
  Forall (fun file => is_entry_name (Name file) = true) files.

(** What the loop leaves for one topic file of the listing. *)
Definition entry_outcome (dirPath : string) (before : Themes) (after : Themes * list LogLine)
    (file : DirEntry) : Prop :=
  let filePath := Join dirPath (Name file) in
  match content file with
  | Decoded qs =>
      after.1 !! filePath = Some qs /\
      Loaded (TrimSuffix (Name file) ".json") (Name file) ∈ after.2
  | Unreadable =>
      after.1 !! filePath = before !! filePath /\ Warning (ErrRead filePath) ∈ after.2
  | Malformed =>
      after.1 !! filePath = before !! filePath /\ Warning ErrJSON ∈ after.2
  end.

(** ** Concrete data for the examples *)

Module Demo.

Definition q1 : Question :=
  {| Id := 1; QuestionText := "capital of France";
     Options := {["A" := "Paris"; "B" := "Rome"]}; CorrectAnswer := ["A"] |}.

Definition q2 : Question :=
  {| Id := 2; QuestionText := "capital of Italy";
     Options := {["A" := "Paris"; "B" := "Rome"]}; CorrectAnswer := ["b"] |}.

Definition bank : Themes := {["quizzes/geo.json" := [q1; q2]]}.

Definition command (user : Z) (cmd : string) : Update :=
  {| upd_Message := Some {| msg_From := user; msg_Chat := user;
                            msg_Command := Some cmd |};
     upd_CallbackQuery := None |}.

Definition press (user : Z) (data : string) : CallbackQuery :=
  {| cb_ID := "cb"; cb_From := user; cb_Chat := user; cb_Data := data |}.

Definition button (user : Z) (data : string) : Update :=
  {| upd_Message := None; upd_CallbackQuery := Some (press user data) |}.

Definition no_rnd : nat -> nat := fun _ => 0%nat.

(** User 7 has started, chosen the topic and the order, and answered the
    first question. *)
Definition history : list ((nat -> nat) * Update) :=
  [(no_rnd, command 7 "start");
   (no_rnd, button 7 "theme_quizzes/geo.json");
   (no_rnd, button 7 "order_ordered");
   (no_rnd, button 7 "a")].

Definition after_first : UserState :=
  {| CurrentQuestion := 1; Score := 1; QuestionOrder := [0; 1];
     SelectedTheme := "quizzes/geo.json"; SetupStep := "" |}.

Definition world1 : World UserState :=
  match run bank history init_world with
  | Some w => w
  | None => init_world
  end.

(** User 7 has chosen the topic and is asked for the order. *)
Definition waiting : UserState :=
  {| CurrentQuestion := 0; Score := 0; QuestionOrder := [];
     SelectedTheme := "quizzes/geo.json"; SetupStep := "select_order" |}.

Definition world_waiting : World UserState := {| Users := {[7 := waiting]}; outbox := [] |}.


Definition q_keyless : Question :=
  {| Id := 4; QuestionText := "no key"; Options := {["A" := "yes"; "B" := "no"]};
     CorrectAnswer := [] |}.


Definition keyless_bank : Themes := {["quizzes/geo.json" := [q_keyless; q1]]}.

(** User 7 has started, chosen the topic and the order. *)
Definition setup : list ((nat -> nat) * Update) :=
  [(no_rnd, command 7 "start");
   (no_rnd, button 7 "theme_quizzes/geo.json");
   (no_rnd, button 7 "order_ordered")].

End Demo.

(** * Further vocabulary *)

(** A program run for user [u] leaves the sessions of the other users
    alone and only adds to what was sent. *)
Definition touches_only {S} (u : Z) (w w' : World S) : Prop :=
  (forall v, v <> u -> Users w' !! v = Users w !! v) /\
  exists effs, outbox w' = outbox w ++ effs.

Definition preserves {S A} (u : Z) (c : M S A) : Prop :=
  forall w a w', c w = Some (a, w') -> touches_only u w w'.

(** The users an update comes from. *)
Definition senders (update : Update) : list Z :=
  match upd_Message update with Some m => [msg_From m] | None => [] end ++
  match upd_CallbackQuery update with Some c => [cb_From c] | None => [] end.

(** An update that is a command, and one that is a button press. *)
Definition command_from (user chat : Z) (cmd : string) : Update :=
  {| upd_Message := Some {| msg_From := user; msg_Chat := chat;
                            msg_Command := Some cmd |};
     upd_CallbackQuery := None |}.

Definition press_from (user chat : Z) (id data : string) : Update :=
  {| upd_Message := None;
     upd_CallbackQuery := Some {| cb_ID := id; cb_From := user; cb_Chat := chat;
                                  cb_Data := data |} |}.

(** Whether a press scores on a question, and the feedback it gets
    (main.go:475-486). *)
Definition is_hit (q : Question) (data : string) : bool :=
  let label := ToUpper (TrimSpace data) in
  negb (String.eqb label "") && contains (CorrectAnswer q) label.

Definition feedback (q : Question) (data : string) : Feedback :=
  let label := ToUpper (TrimSpace data) in
  if String.eqb label "" then InvalidChoice
  else if contains (CorrectAnswer q) label then Correct
  else
    let correctOption := hd "" (CorrectAnswer q) in
    Incorrect correctOption (default "" (Options q !! correctOption)).

(** The message that shows a question (main.go:355-371). *)
Definition question_msg (chat : Z) (q : Question) : Effect :=
  MsgQuestion chat (QuestionText q) (map_to_list (Options q)).

(** The hits of a row of presses, the first of them at position [pos]. *)
Fixpoint count_hits (questions : list Question) (order : list Z) (pos : nat)
    (datas : list string) : Z :=
  match datas with
  | [] => 0
  | data :: rest =>
      match order !! pos with
      | Some i =>
          match questions !! Z.to_nat i with
          | Some q => if is_hit q data then 1 else 0
          | None => 0
          end
      | None => 0
      end + count_hits questions order (S pos) rest
  end.

(** The world after an answer to the question [q] a session is at. *)
Definition answer_outcome (callback : CallbackQuery) (st : UserState)
    (questions : list Question) (q : Question) (w : World UserState)
    : World UserState :=
  let st' := answered st (is_hit q (cb_Data callback)) in
  let result := MsgResult (cb_Chat callback) (feedback q (cb_Data callback))
                  (Score st') (len questions) in
  if CurrentQuestion st' <? len questions then
    {| Users := <[cb_From callback := st']> (Users w);
       outbox := outbox w ++
         [result] ++
         match current_question questions st' with
         | Some q' => [question_msg (cb_Chat callback) q']
         | None => []
         end ++
         [CallbackAnswered (cb_ID callback)] |}
  else
    {| Users := delete (cb_From callback) (Users w);
       outbox := outbox w ++
         [result; MsgFinal (cb_Chat callback) (Score st') (len questions);
          CallbackAnswered (cb_ID callback)] |}.

(** The line the loader logs for a topic file (main.go:177, :181), and
    the topic a file that decodes gives. *)
Definition log_line (dirPath : string) (file : DirEntry) : LogLine :=
  match content file with
  | Decoded _ => Loaded (TrimSuffix (Name file) ".json") (Name file)
  | Unreadable => Warning (ErrRead (Join dirPath (Name file)))
  | Malformed => Warning ErrJSON
  end.

Definition decodes (file : DirEntry) : bool :=
  is_topic_file file &&
  match content file with Decoded _ => true | _ => false end.

(** Every question of the bank names a correct answer. *)
Definition bank_keyed (qm : Themes) : Prop :=
  forall theme questions, qm !! theme = Some questions ->
    Forall (fun q => CorrectAnswer q <> []) questions.

(** The update holds a /restart of a user without session, and the bank
    holds a question. *)
Definition restart_from_nowhere (qm : Themes) (w : World UserState)
    (update : Update) : Prop :=
  exists message,
    upd_Message update = Some message /\
    msg_Command message = Some "restart" /\
    Users w !! msg_From message = None /\
    all_questions qm <> [].

(** A session of the predecessor as every reachable one is. *)
Definition legacy_session_ok (questions : list Legacy.Question)
    (st : Legacy.UserState) : Prop :=
  Legacy.session_inv st /\
  Legacy.CurrentQuestion st < len questions /\
  Legacy.QuestionOrder st ≡ₚ identity_order (length questions).

(** The question a session of the predecessor is at, and what an answer
    does to the session. *)
Definition legacy_current (questions : list Legacy.Question)
    (st : Legacy.UserState) : option Legacy.Question :=
  match Legacy.QuestionOrder st !! Z.to_nat (Legacy.CurrentQuestion st) with
  | Some i => questions !! Z.to_nat i
  | None => None
  end.

Definition legacy_answered (st : Legacy.UserState) (hit : bool) : Legacy.UserState :=
  {| Legacy.CurrentQuestion := Legacy.CurrentQuestion st + 1;
     Legacy.Score := if hit then Legacy.Score st + 1 else Legacy.Score st;
     Legacy.QuestionOrder := Legacy.QuestionOrder st |}.

(** The messages of the predecessor that are not those of a finished
    quiz still in the table. *)
Definition legacy_live (questions : list Legacy.Question) (e : Effect) : Prop :=
  match e with
  | MsgAlreadyFinished _ => False
  | MsgQuizFinished _ _ _ => questions = []
  | _ => True
  end.

(** A step of the predecessor that keeps the sessions as above and adds
    such messages only. *)
Definition legacy_step_ok (questions : list Legacy.Question)
    (w w' : World Legacy.UserState) : Prop :=
  table_all (legacy_session_ok questions) (Users w') /\
  exists sent, outbox w' = outbox w ++ sent /\ Forall (legacy_live questions) sent.

(** A rune that has an encoding: a code point that is no surrogate. *)
Definition valid_rune (r : Z) : bool := between 0 55295 r || between 57344 1114111 r.

(** A text that does not start with a continuation byte. *)
Definition starts_rune (y : string) : Prop :=
  match y with
  | EmptyString => True
  | String d _ => between 128 191 (byte_val d) = false
  end.

(** What a rune is once written and read again. *)
Definition written (u : Z) : Z := if valid_rune u then u else utf8.RuneError.

(** The runes an entry of a table of case mappings is about. *)
Definition entry_runes (e : Z * Z * Z * Z) : list Z :=
  let '(lo, hi, stride, _) := e in
  (fun k => lo + Z.of_nat k * stride) <$> seq 0 (S (Z.to_nat ((hi - lo) / stride))).

Definition table_forall (tab : list (Z * Z * Z * Z)) (P : Z -> bool) : bool :=
  forallb (fun e => (0 <? e.1.2) && forallb P (entry_runes e)) tab.

(** The upper case of a rune is its own upper case, is no negative
    number, and is white space exactly when the rune is. *)
Definition upper_ok (r : Z) : bool :=
  let u := unicode.ToUpper r in
  (unicode.ToUpper u =? u) && (0 <=? u)
  && Bool.eqb (unicode.IsSpace u) (unicode.IsSpace r).

(** A list that does not start with an element to drop. *)
Definition starts_kept {A} (f : A -> bool) (l : list A) : Prop :=
  match l with [] => True | x :: _ => f x = false end.

(** Two questions of the predecessor; user 7 has asked for a random
    order and answered one question. *)
Module Old.

Definition questions : list Legacy.Question :=
  Legacy.loadQuestions
    [ {| Legacy.QuestionText := "Capital of France?";
         Legacy.Options := ["A. Paris"; "B. London"];
         Legacy.CorrectOption := " a " |};
      {| Legacy.QuestionText := "Capital of Italy?";
         Legacy.Options := ["A) Milan"; "B) Rome"];
         Legacy.CorrectOption := "b) Rome" |} ].

Definition history : list ((nat -> nat) * Update) :=
  [(Demo.no_rnd, command_from 7 70 "random");
   (Demo.no_rnd, press_from 7 70 "cb1" "a")].

Definition start : World Legacy.UserState := {| Users := ∅; outbox := [] |}.

Definition world : World Legacy.UserState :=
  match Legacy.run questions history start with Some w => w | None => start end.

Definition step_of (o : option (unit * World Legacy.UserState))
    : World Legacy.UserState :=
  match o with Some (_, w) => w | None => start end.

Definition session : Legacy.UserState :=
  match Users world !! 7 with Some st => st | None => Legacy.new_session [] end.

Definition press (data : string) : CallbackQuery :=
  {| cb_ID := "cb2"; cb_From := 7; cb_Chat := 70; cb_Data := data |}.

End Old.

(** A second user next to the one of [Demo]. *)
Module Scene.

Definition two_users : list ((nat -> nat) * Update) :=
  [(Demo.no_rnd, command_from 7 70 "start");
   (Demo.no_rnd, command_from 8 80 "start");
   (Demo.no_rnd, press_from 8 80 "c1" "theme_quizzes/geo.json");
   (Demo.no_rnd, press_from 7 70 "c2" "theme_quizzes/geo.json");
   (Demo.no_rnd, press_from 7 70 "c3" "order_random")].

Definition world_of (o : option (World UserState)) : World UserState :=
  match o with Some w => w | None => init_world end.

Definition step_of (o : option (unit * World UserState)) : World UserState :=
  match o with Some (_, w) => w | None => init_world end.

(** User 7 is at the first question, user 8 is asked for the order. *)
Definition world2 : World UserState := world_of (run Demo.bank two_users init_world).

End Scene.

(** * Properties *)

(** ** Slices: the identity order and the shuffle *)

Section Slices.

Lemma fill_prefix (k : nat) (l : list Z) :
  (k <= length l)%nat ->
  foldl (fun o i => <[i := Z.of_nat i]> o) l (seq 0 k)
  = (Z.of_nat <$> seq 0 k) ++ drop k l.
Proof.
  induction k as [|k IH]; intros Hk.
  - by rewrite drop_0.
  - rewrite seq_S, foldl_app, IH by lia. cbn [foldl].
    rewrite fmap_app. cbn [fmap list_fmap].
    destruct (drop k l) as [|y rest] eqn:Hd.
    { apply (f_equal length) in Hd. rewrite length_drop in Hd. simpl in Hd. lia. }
    assert (Hrest : drop (S k) l = rest).
    { replace (S k) with (k + 1)%nat by lia.
      rewrite <- drop_drop, Hd. reflexivity. }
    rewrite Hrest, <- app_assoc. cbn [app].
    rewrite insert_app_r_alt; rewrite length_fmap, length_seq; [|lia].
    replace (0 + k - k)%nat with 0%nat by lia. reflexivity.
Qed.

Lemma identity_order_seq (n : nat) : identity_order n = Z.of_nat <$> seq 0 n.
Proof.
  unfold identity_order, fill_range, make_ints.
  rewrite fill_prefix by lia.
  rewrite length_replicate, drop_ge, app_nil_r by (rewrite length_replicate; lia).
  reflexivity.
Qed.

Lemma identity_order_length (n : nat) : length (identity_order n) = n.
Proof. by rewrite identity_order_seq, length_fmap, length_seq. Qed.

Lemma identity_order_lookup (n i : nat) :
  (i < n)%nat -> identity_order n !! i = Some (Z.of_nat i).
Proof.
  intros Hi. rewrite identity_order_seq, list_lookup_fmap, lookup_seq_lt by lia.
  reflexivity.
Qed.

Lemma delete_insert_same {A} (l : list A) (i : nat) (x : A) :
  delete i (<[i := x]> l) = delete i l.
Proof.
  revert i. induction l as [|y l IH]; intros [|i]; simpl; try reflexivity.
  by rewrite IH.
Qed.

Lemma swap_length order i j order' :
  swap order i j = Some order' -> length order' = length order.
Proof.
  unfold swap. destruct (order !! j), (order !! i); intros [= <-].
  by rewrite !length_insert.
Qed.

Lemma swap_Permutation order i j order' :
  swap order i j = Some order' -> order' ≡ₚ order.
Proof.
  unfold swap.
  destruct (order !! j) as [oj|] eqn:Hj; [|discriminate].
  destruct (order !! i) as [oi|] eqn:Hi; [|discriminate].
  intros [= <-].
  destruct (decide (i = j)) as [->|Hne].
  { rewrite list_insert_insert_eq. by rewrite list_insert_id by congruence. }
  set (l1 := <[i := oj]> order).
  assert (Hi1 : l1 !! i = Some oj).
  { apply list_lookup_insert_eq. by eapply lookup_lt_Some. }
  assert (Hj1 : l1 !! j = Some oj).
  { unfold l1. by rewrite list_lookup_insert_ne. }
  assert (Hj2 : <[j := oi]> l1 !! j = Some oi).
  { apply list_lookup_insert_eq. by eapply lookup_lt_Some. }
  pose proof (delete_Permutation _ _ _ Hj2) as P2.
  rewrite delete_insert_same in P2.
  pose proof (delete_Permutation _ _ _ Hj1) as P1j.
  pose proof (delete_Permutation _ _ _ Hi1) as P1i.
  unfold l1 in P1i at 2. rewrite delete_insert_same in P1i.
  pose proof (delete_Permutation _ _ _ Hi) as P0.
  assert (Hd : delete j l1 ≡ₚ delete i order).
  { apply (Permutation_cons_inv (a := oj)). by rewrite <- P1j, <- P1i. }
  by rewrite P2, Hd, <- P0.
Qed.

Lemma swap_defined order i j :
  (i < length order)%nat -> (j < length order)%nat ->
  exists order', swap order i j = Some order'.
Proof.
  intros Hi Hj. unfold swap.
  destruct (lookup_lt_is_Some_2 _ _ Hi) as [oi ->].
  destruct (lookup_lt_is_Some_2 _ _ Hj) as [oj ->]. eauto.
Qed.

Lemma Shuffle_from_Permutation rnd i order :
  (i < length order)%nat \/ i = 0%nat ->
  exists order', Shuffle_from rnd i order = Some order' /\ order' ≡ₚ order.
Proof.
  revert order. induction i as [|i IH]; intros order Hi.
  - exists order. done.
  - destruct Hi as [Hi|]; [|done]. cbn [Shuffle_from].
    assert (Hj : (rnd (S i) mod S (S i) < length order)%nat).
    { pose proof (Nat.mod_upper_bound (rnd (S i)) (S (S i))). lia. }
    destruct (swap_defined order (S i) _ Hi Hj) as [o1 Ho1]. rewrite Ho1.
    destruct (IH o1) as (o2 & Ho2 & P2).
    { left. rewrite (swap_length _ _ _ _ Ho1). lia. }
    exists o2. split; [done|].
    by rewrite P2, (swap_Permutation _ _ _ _ Ho1).
Qed.

Lemma Shuffle_Permutation rnd order :
  exists order', Shuffle rnd (length order) order = Some order' /\ order' ≡ₚ order.
Proof.
  unfold Shuffle. apply Shuffle_from_Permutation.
  destruct order; simpl; [by right | left; lia].
Qed.

End Slices.

(** ** Running programs *)

Ltac unfold_M :=
  unfold answerCallback in *;
  unfold mbind, M_bind, mret, M_ret, bind, ret, panic,
    send, getUser, putUser, delUser in *;
  cbn beta iota in *; cbn [Users outbox] in *.

Lemma incr_small (x : Z) : 0 <= x < int_max -> incr x = x + 1.
Proof.
  unfold incr, wrap_int, int_max. intros Hx.
  rewrite Z.mod_small; lia.
Qed.

Lemma index_Some {S A} (l : list A) (i : Z) (w : World S) (x : A) (w' : World S) :
  index l i w = Some (x, w') ->
  w' = w /\ 0 <= i < len l /\ l !! Z.to_nat i = Some x.
Proof.
  unfold index, len.
  destruct (i <? 0) eqn:Hlo; [discriminate|].
  destruct (Z.of_nat (length l) <=? i) eqn:Hhi; [discriminate|]. simpl.
  destruct (l !! Z.to_nat i) eqn:Hl; [|discriminate].
  unfold_M. intros [= -> ->]. repeat split; lia.
Qed.

Lemma index_in_range {S A} (l : list A) (i : Z) (x : A) (w : World S) :
  0 <= i -> l !! Z.to_nat i = Some x -> index l i w = Some (x, w).
Proof.
  intros Hi Hl. unfold index, len.
  pose proof (lookup_lt_Some _ _ _ Hl).
  destruct (i <? 0) eqn:Hlo; [lia|].
  destruct (Z.of_nat (length l) <=? i) eqn:Hhi; [lia|]. simpl.
  by rewrite Hl.
Qed.

Lemma len_cons {A} (x : A) (l : list A) : len (x :: l) = 1 + len l.
Proof. unfold len. simpl. lia. Qed.

Lemma len_nonneg {A} (l : list A) : 0 <= len l.
Proof. unfold len. lia. Qed.

(** ** The session invariant *)

Lemma table_all_insert {S} (P : S -> Prop) t u st :
  table_all P t -> P st -> table_all P (<[u := st]> t).
Proof.
  intros Ht Hs v st'. rewrite lookup_insert.
  case_decide; [by intros [= <-] | apply Ht].
Qed.

Lemma table_all_delete {S} (P : S -> Prop) t u :
  table_all P t -> table_all P (delete u t).
Proof.
  intros Ht v st'. rewrite lookup_delete.
  case_decide; [done | apply Ht].
Qed.

Lemma order_covers_identity questions n :
  (length questions <= n)%nat -> order_covers questions (identity_order n).
Proof.
  intros Hn i Hi. exists (Z.of_nat i).
  rewrite identity_order_lookup by lia. unfold len. split; [done | lia].
Qed.

Lemma order_covers_Permutation questions order :
  order ≡ₚ identity_order (length questions) -> order_covers questions order.
Proof.
  intros HP i Hi.
  assert (Hlen : length order = length questions).
  { by rewrite HP, identity_order_length. }
  destruct (lookup_lt_is_Some_2 order i) as [idx Hidx]; [lia|].
  exists idx. split; [done|].
  assert (Hin : idx ∈ identity_order (length questions)).
  { rewrite <- HP. by eapply list_elem_of_lookup_2. }
  rewrite identity_order_seq in Hin.
  apply list_elem_of_fmap in Hin as (k & -> & Hk).
  apply elem_of_seq in Hk. unfold len. lia.
Qed.

Lemma concat_length_ge {A} (ls : list (list A)) (l : list A) :
  l ∈ ls -> (length l <= length (concat ls))%nat.
Proof.
  induction 1 as [l ls | l l' ls _ IH]; simpl; rewrite length_app; lia.
Qed.

Lemma theme_in_all_questions (qm : Themes) theme questions :
  qm !! theme = Some questions ->
  (length questions <= length (all_questions qm))%nat.
Proof.
  intros H. apply concat_length_ge.
  apply list_elem_of_fmap. exists (theme, questions).
  split; [done | by apply elem_of_map_to_list].
Qed.

Section Invariant.

Variable qm : Themes.
Hypothesis qm_fits : bank_fits qm.

Lemma sendQuestion_table chatID userID w w' :
  sendQuestion qm chatID userID w = Some (tt, w') ->
  Users w' = Users w \/ Users w' = delete userID (Users w).
Proof.
  unfold sendQuestion. unfold_M.
  destruct (Users w !! userID) as [state|]; [|intros [= <-]; by left].
  destruct (qm !! SelectedTheme state) as [questions|]; [|intros [= <-]; by left].
  destruct (len questions =? 0); [intros [= <-]; by left|].
  destruct (len questions <=? CurrentQuestion state); [intros [= <-]; by right|].
  destruct (index (QuestionOrder state) (CurrentQuestion state) w)
    as [[i w1]|] eqn:Hi; [|discriminate].
  apply index_Some in Hi as (-> & _ & _).
  destruct (len questions <=? i); [intros [= <-]; by left|].
  destruct (index questions i w) as [[q w2]|] eqn:Hq; [|discriminate].
  apply index_Some in Hq as (-> & _ & _).
  intros [= <-]; by left.
Qed.

Lemma sendQuestion_all P chatID userID w w' :
  table_all P (Users w) ->
  sendQuestion qm chatID userID w = Some (tt, w') -> table_all P (Users w').
Proof.
  intros Ht H. destruct (sendQuestion_table _ _ _ _ H) as [-> | ->];
    [done | by apply table_all_delete].
Qed.

(** The question at the current position is sent when the order covers
    the topic. *)
Lemma sendQuestion_next chatID userID w state questions :
  Users w !! userID = Some state ->
  qm !! SelectedTheme state = Some questions ->
  0 <= CurrentQuestion state < len questions ->
  order_covers questions (QuestionOrder state) ->
  exists prompt options,
    sendQuestion qm chatID userID w
    = Some (tt, {| Users := Users w;
                   outbox := outbox w ++ [MsgQuestion chatID prompt options] |}).
Proof.
  intros Hst Hqs Hpos Hcov. unfold sendQuestion. unfold_M.
  rewrite Hst, Hqs.
  destruct (len questions =? 0) eqn:E0; [lia|].
  destruct (len questions <=? CurrentQuestion state) eqn:E1; [lia|].
  destruct (Hcov (Z.to_nat (CurrentQuestion state))) as (idx & Hidx & Hr).
  { unfold len in Hpos. lia. }
  rewrite (index_in_range _ _ idx) by (done || lia).
  destruct (len questions <=? idx) eqn:E2; [lia|].
  destruct (lookup_lt_is_Some_2 questions (Z.to_nat idx)) as [q Hq].
  { unfold len in Hr. lia. }
  rewrite (index_in_range _ _ q) by (done || lia).
  eauto.
Qed.

Lemma answered_ok st hit :
  session_ok qm st ->
  CurrentQuestion st < len (QuestionOrder st) ->
  session_ok qm (answered st hit).
Proof.
  intros [(Hs & Hp) Hcov] Hlt. split.
  - unfold session_inv. simpl. destruct hit; lia.
  - exact Hcov.
Qed.

Lemma set_fields_answered st questions (hit : bool) :
  session_inv st ->
  qm !! SelectedTheme st = Some questions ->
  CurrentQuestion st < len questions ->
  set_CurrentQuestion
    (if hit then set_Score st (incr (Score st)) else st)
    (incr (CurrentQuestion st))
  = answered st hit.
Proof.
  intros [Hs Hp] Hqs Hlt. pose proof (qm_fits _ _ Hqs).
  unfold set_CurrentQuestion, set_Score, answered.
  destruct hit; simpl; rewrite ?incr_small by lia; f_equal; lia.
Qed.

Lemma after_answer_all P userID chatID fb state questions w w' :
  table_all P (Users w) -> P state ->
  after_answer qm userID chatID fb state questions w = Some (tt, w') ->
  table_all P (Users w').
Proof.
  intros Ht Hs. unfold after_answer. unfold_M.
  destruct (CurrentQuestion state <? len questions).
  - intros H. eapply sendQuestion_all; [|exact H]. simpl.
    by apply table_all_insert.
  - intros [= <-]. simpl. by apply table_all_delete, table_all_insert.
Qed.

(** The [default] case, split at the feedback. *)
Lemma on_answer_unfold userID chatID data state w :
  on_answer qm userID chatID data state w =
  match qm !! SelectedTheme state with
  | None => send (MsgThemeUnavailable chatID) w
  | Some questions =>
      if len questions =? 0 then send (MsgThemeUnavailable chatID) w
      else if len questions <=? CurrentQuestion state then
        send (MsgAlreadyFinished chatID) w
      else
        match index (QuestionOrder state) (CurrentQuestion state) w with
        | None => @None (unit * World UserState)
        | Some (i, _) =>
            match index questions i w with
            | None => @None (unit * World UserState)
            | Some (q, _) =>
                let selectedLetter := ToUpper (TrimSpace data) in
                if String.eqb selectedLetter "" then
                  after_answer qm userID chatID InvalidChoice
                    (set_CurrentQuestion state (incr (CurrentQuestion state)))
                    questions w
                else if contains (CorrectAnswer q) selectedLetter then
                  after_answer qm userID chatID Correct
                    (set_CurrentQuestion (set_Score state (incr (Score state)))
                       (incr (CurrentQuestion state)))
                    questions w
                else
                  match index (CorrectAnswer q) 0 w with
                  | None => @None (unit * World UserState)
                  | Some (correctOption, _) =>
                      after_answer qm userID chatID
                        (Incorrect correctOption
                           (default "" (Options q !! correctOption)))
                        (set_CurrentQuestion state (incr (CurrentQuestion state)))
                        questions w
                  end
            end
        end
  end.
Proof.
  unfold on_answer.
  destruct (qm !! SelectedTheme state) as [questions|]; [|done].
  destruct (len questions =? 0); [done|].
  destruct (len questions <=? CurrentQuestion state); [done|].
  unfold mbind at 1, M_bind at 1, bind at 1.
  destruct (index (QuestionOrder state) (CurrentQuestion state) w)
    as [[i w1]|] eqn:Hi; [|done].
  apply index_Some in Hi as (-> & _ & _).
  unfold mbind at 1, M_bind at 1, bind at 1.
  destruct (index questions i w) as [[q w2]|] eqn:Hq; [|done].
  apply index_Some in Hq as (-> & _ & _).
  cbn zeta.
  destruct (String.eqb (ToUpper (TrimSpace data)) ""); [done|].
  destruct (contains (CorrectAnswer q) (ToUpper (TrimSpace data))); [done|].
  unfold mbind at 1, M_bind at 1, bind at 1.
  unfold mbind at 1, M_bind at 1, bind at 1.
  destruct (index (CorrectAnswer q) 0 w) as [[c w3]|] eqn:Hc; [|done].
  apply index_Some in Hc as (-> & _ & _). done.
Qed.

Lemma on_answer_ok userID chatID data state w w' :
  table_all (session_ok qm) (Users w) -> session_ok qm state ->
  on_answer qm userID chatID data state w = Some (tt, w') ->
  table_all (session_ok qm) (Users w').
Proof.
  intros Ht Hok. rewrite on_answer_unfold.
  destruct (qm !! SelectedTheme state) as [questions|] eqn:Hqs;
    [|unfold_M; by intros [= <-]].
  destruct (len questions =? 0); [unfold_M; by intros [= <-]|].
  destruct (len questions <=? CurrentQuestion state) eqn:Hpos;
    [unfold_M; by intros [= <-]|].
  destruct (index (QuestionOrder state) (CurrentQuestion state) w)
    as [[i w1]|] eqn:Hi; [|discriminate].
  apply index_Some in Hi as (_ & Hir & _).
  destruct (index questions i w) as [[q w2]|]; [|discriminate].
  assert (Hlt : CurrentQuestion state < len questions) by lia.
  pose proof (set_fields_answered state questions false (proj1 Hok) Hqs Hlt) as Hmiss.
  pose proof (set_fields_answered state questions true (proj1 Hok) Hqs Hlt) as Hhit.
  simpl in Hmiss, Hhit. cbn zeta.
  destruct (String.eqb _ "").
  { rewrite Hmiss. apply after_answer_all; [done|].
    apply answered_ok; [done | lia]. }
  destruct (contains _ _).
  { rewrite Hhit. apply after_answer_all; [done|].
    apply answered_ok; [done | lia]. }
  destruct (index (CorrectAnswer q) 0 w) as [[c w3]|]; [|discriminate].
  rewrite Hmiss. apply after_answer_all; [done|].
  apply answered_ok; [done | lia].
Qed.

Lemma handleStartCommand_ok message w w' :
  table_all (session_ok qm) (Users w) ->
  handleStartCommand qm message w = Some (tt, w') ->
  table_all (session_ok qm) (Users w').
Proof.
  intros Ht. unfold handleStartCommand. unfold_M.
  assert (Hfresh : session_ok qm
            {| CurrentQuestion := 0; Score := 0; QuestionOrder := [];
               SelectedTheme := ""; SetupStep := "select_theme" |}).
  { split; [unfold session_inv, len; simpl; lia | discriminate]. }
  destruct (len (theme_names qm) =? 0); intros [= <-]; simpl;
    by apply table_all_insert.
Qed.

Lemma handleRestartCommand_ok message w w' :
  table_all (session_ok qm) (Users w) ->
  handleRestartCommand qm message w = Some (tt, w') ->
  table_all (session_ok qm) (Users w').
Proof.
  intros Ht. unfold handleRestartCommand. unfold_M.
  destruct (len (all_questions qm) =? 0); [by intros [= <-]|].
  destruct (Users w !! msg_From message) as [prev|]; [|discriminate].
  intros H. eapply sendQuestion_all; [|exact H]. simpl.
  apply table_all_insert; [done|]. split.
  - unfold session_inv, len. simpl. lia.
  - simpl. intros _ questions Hqs.
    by apply order_covers_identity, (theme_in_all_questions _ (SelectedTheme prev)).
Qed.

Lemma on_select_theme_ok userID chatID data state w w' :
  table_all (session_ok qm) (Users w) -> session_ok qm state ->
  on_select_theme userID chatID data state w = Some (tt, w') ->
  table_all (session_ok qm) (Users w').
Proof.
  intros Ht [Hinv _]. unfold on_select_theme. unfold_M.
  destruct (HasPrefix data "theme_"); intros [= <-]; [|done]. simpl.
  apply table_all_insert; [done|]. split; [exact Hinv | discriminate].
Qed.

Lemma on_select_order_ok rnd userID chatID data state w w' :
  table_all (session_ok qm) (Users w) ->
  on_select_order qm rnd userID chatID data state w = Some (tt, w') ->
  table_all (session_ok qm) (Users w').
Proof.
  intros Ht. unfold on_select_order.
  destruct (String.eqb data "order_ordered" || String.eqb data "order_random");
    [|unfold_M; by intros [= <-]].
  destruct (qm !! SelectedTheme state) as [questions|] eqn:Hqs;
    [|unfold_M; by intros [= <-]].
  destruct (len questions =? 0); [unfold_M; by intros [= <-]|].
  cbn zeta.
  assert (Hperm : forall order,
    (if String.eqb data "order_random"
     then Shuffle rnd (length (identity_order (length questions)))
            (identity_order (length questions))
     else Some (identity_order (length questions))) = Some order ->
    order ≡ₚ identity_order (length questions)).
  { intros order. destruct (String.eqb data "order_random"); [|by intros [= <-]].
    destruct (Shuffle_Permutation rnd (identity_order (length questions)))
      as (o & -> & HP). by intros [= <-]. }
  destruct (if String.eqb data "order_random" then _ else _) as [order|];
    [|discriminate].
  specialize (Hperm order eq_refl). unfold_M.
  intros H. eapply sendQuestion_all; [|exact H]. simpl.
  apply table_all_insert; [done|]. split.
  - unfold session_inv, len. simpl. lia.
  - simpl. intros _ qs Hqs'. rewrite Hqs in Hqs'. injection Hqs' as <-.
    by apply order_covers_Permutation.
Qed.

Lemma handleCallbackQuery_ok rnd callback w w' :
  table_all (session_ok qm) (Users w) ->
  handleCallbackQuery qm rnd callback w = Some (tt, w') ->
  table_all (session_ok qm) (Users w').
Proof.
  intros Ht. unfold handleCallbackQuery. cbn zeta.
  unfold mbind at 1, M_bind at 1, bind at 1.
  unfold mbind at 1, M_bind at 1, bind at 1.
  unfold getUser at 1.
  destruct (Users w !! cb_From callback) as [state|] eqn:Hst.
  2:{ unfold_M. by intros [= <-]. }
  assert (Hok : session_ok qm state) by (by eapply Ht).
  assert (Hans : forall w1, answerCallback (cb_ID callback) w1 = Some (tt, w') ->
            Users w' = Users w1).
  { intros w1. unfold_M. by intros [= <-]. }
  destruct (String.eqb (SetupStep state) "select_theme");
    [|destruct (String.eqb (SetupStep state) "select_order")].
  - destruct (on_select_theme _ _ _ _ w) as [[[] w1]|] eqn:H1; [|discriminate].
    intros H. rewrite (Hans _ H). by eapply on_select_theme_ok.
  - destruct (on_select_order _ _ _ _ _ _ w) as [[[] w1]|] eqn:H1; [|discriminate].
    intros H. rewrite (Hans _ H). by eapply on_select_order_ok.
  - destruct (on_answer _ _ _ _ _ w) as [[[] w1]|] eqn:H1; [|discriminate].
    intros H. rewrite (Hans _ H). by eapply on_answer_ok.
Qed.

Lemma handleUpdate_ok rnd update w w' :
  table_all (session_ok qm) (Users w) ->
  handleUpdate qm rnd update w = Some (tt, w') ->
  table_all (session_ok qm) (Users w').
Proof.
  intros Ht. unfold handleUpdate.
  unfold mbind at 1, M_bind at 1, bind at 1.
  match goal with |- context [match ?c w with _ => _ end] =>
    destruct (c w) as [[[] w1]|] eqn:H1; [|discriminate] end.
  assert (Ht1 : table_all (session_ok qm) (Users w1)).
  { destruct (upd_Message update) as [message|]; [|by injection H1 as <-].
    destruct (msg_Command message) as [cmd|]; [|by injection H1 as <-].
    destruct (String.eqb cmd "start"); [by eapply handleStartCommand_ok|].
    destruct (String.eqb cmd "help").
    { revert H1. unfold handleHelpCommand. unfold_M. by intros [= <-]. }
    destruct (String.eqb cmd "restart"); [by eapply handleRestartCommand_ok|].
    revert H1. unfold_M. by intros [= <-]. }
  destruct (upd_CallbackQuery update) as [callback|].
  - by apply handleCallbackQuery_ok.
  - by intros [= <-].
Qed.

End Invariant.

(** ** Reachable worlds: the bot starts with an empty table and handles
    one update after the other, each with what the random source holds
    at the time. *)

Lemma run_ok qm updates w w' :
  bank_fits qm ->
  table_all (session_ok qm) (Users w) ->
  run qm updates w = Some w' -> table_all (session_ok qm) (Users w').
Proof.
  intros Hfit. revert w. induction updates as [|[rnd update] rest IH]; intros w Ht.
  - by intros [= <-].
  - simpl. destruct (handleUpdate qm rnd update w) as [[[] w1]|] eqn:H1;
      [|discriminate].
    apply IH. by eapply handleUpdate_ok.
Qed.

Lemma reachable_ok qm w :
  bank_fits qm -> reachable qm w -> table_all (session_ok qm) (Users w).
Proof.
  intros Hfit [updates Hrun]. eapply run_ok; [done| |exact Hrun].
  intros u st. simpl. by rewrite lookup_empty.
Qed.


(** ** The predecessor: the same invariant, the same shuffle *)

Section LegacyFacts.

Variable questions : list Legacy.Question.
Hypothesis questions_fit : len questions <= int_max.

Lemma legacy_sendQuestion_table chatID userID w w' :
  Legacy.sendQuestion questions chatID userID w = Some (tt, w') ->
  Users w' = Users w \/ Users w' = delete userID (Users w).
Proof.
  unfold Legacy.sendQuestion. unfold_M.
  destruct (Users w !! userID) as [state|]; [|intros [= <-]; by left].
  destruct (len questions <=? Legacy.CurrentQuestion state);
    [intros [= <-]; by right|].
  destruct (index (Legacy.QuestionOrder state) (Legacy.CurrentQuestion state) w)
    as [[i w1]|] eqn:Hi; [|discriminate].
  apply index_Some in Hi as (-> & _ & _).
  destruct (index questions i w) as [[q w2]|] eqn:Hq; [|discriminate].
  apply index_Some in Hq as (-> & _ & _).
  intros [= <-]; by left.
Qed.

Lemma legacy_sendQuestion_inv chatID userID w w' :
  table_all Legacy.session_inv (Users w) ->
  Legacy.sendQuestion questions chatID userID w = Some (tt, w') ->
  table_all Legacy.session_inv (Users w').
Proof.
  intros Ht H. destruct (legacy_sendQuestion_table _ _ _ _ H) as [-> | ->];
    [done | by apply table_all_delete].
Qed.

Lemma legacy_new_session_inv order : Legacy.session_inv (Legacy.new_session order).
Proof. unfold Legacy.session_inv, len. simpl. lia. Qed.

Lemma legacy_handleCallbackQuery_inv callback w w' :
  table_all Legacy.session_inv (Users w) ->
  Legacy.handleCallbackQuery questions callback w = Some (tt, w') ->
  table_all Legacy.session_inv (Users w').
Proof.
  intros Ht. unfold Legacy.handleCallbackQuery. cbn zeta.
  unfold mbind at 1, M_bind at 1, bind at 1, getUser at 1.
  destruct (Users w !! cb_From callback) as [state|] eqn:Hst;
    [|unfold_M; by intros [= <-]].
  destruct (Ht _ _ Hst) as [Hs Hp].
  destruct (len questions <=? Legacy.CurrentQuestion state) eqn:Hpos;
    [unfold_M; by intros [= <-]|].
  unfold mbind at 1, M_bind at 1, bind at 1.
  destruct (index (Legacy.QuestionOrder state) (Legacy.CurrentQuestion state) w)
    as [[i w1]|] eqn:Hi; [|discriminate].
  apply index_Some in Hi as (-> & Hir & _).
  unfold mbind at 1, M_bind at 1, bind at 1.
  destruct (index questions i w) as [[q w2]|] eqn:Hq; [|discriminate].
  apply index_Some in Hq as (-> & _ & _).
  set (hit := String.eqb _ (Legacy.CorrectOption q)).
  assert (Hnew : exists st', Legacy.session_inv st' /\
    forall fb0 st0, (if hit then (Legacy.set_Score state (incr (Legacy.Score state)), Correct)
                     else (state, fb0)) = (st0, if hit then Correct else fb0) ->
      Legacy.set_CurrentQuestion st0 (incr (Legacy.CurrentQuestion st0)) = st').
  { exists (Legacy.set_CurrentQuestion
              (if hit then Legacy.set_Score state (Legacy.Score state + 1) else state)
              (Legacy.CurrentQuestion state + 1)).
    split.
    - unfold Legacy.session_inv. destruct hit; simpl; lia.
    - intros fb0 st0. destruct hit; intros [= <-]; simpl;
        rewrite ?incr_small by lia; reflexivity. }
  destruct Hnew as (st' & Hinv' & Hst').
  match goal with |- context [let '(_, _) := ?pair in _] =>
    destruct pair as [st0 fb] eqn:Hpair end.
  assert (Hst0 : Legacy.set_CurrentQuestion st0 (incr (Legacy.CurrentQuestion st0)) = st').
  { eapply (Hst' fb). destruct hit; injection Hpair as <- <-; reflexivity. }
  unfold_M. rewrite Hst0.
  destruct (Legacy.CurrentQuestion st' <? len questions).
  - destruct (Legacy.sendQuestion _ _ _ _) as [[[] w3]|] eqn:Hsend; [|discriminate].
    intros [= <-]. simpl. eapply legacy_sendQuestion_inv; [|exact Hsend].
    simpl. by apply table_all_insert.
  - intros [= <-]. simpl. by apply table_all_delete, table_all_insert.
Qed.

Lemma legacy_handleUpdate_inv rnd update w w' :
  table_all Legacy.session_inv (Users w) ->
  Legacy.handleUpdate questions rnd update w = Some (tt, w') ->
  table_all Legacy.session_inv (Users w').
Proof.
  intros Ht. unfold Legacy.handleUpdate.
  unfold mbind at 1, M_bind at 1, bind at 1.
  match goal with |- context [match ?c w with _ => _ end] =>
    destruct (c w) as [[[] w1]|] eqn:H1; [|discriminate] end.
  assert (Ht1 : table_all Legacy.session_inv (Users w1)).
  { destruct (upd_Message update) as [message|]; [|by injection H1 as <-].
    destruct (msg_Command message) as [cmd|]; [|by injection H1 as <-].
    destruct (String.eqb cmd "start").
    { revert H1. unfold Legacy.handleStartCommand. cbn zeta. unfold_M.
      intros H. eapply legacy_sendQuestion_inv; [|exact H]. simpl.
      apply table_all_insert; [done | apply legacy_new_session_inv]. }
    destruct (String.eqb cmd "help"); [revert H1; unfold_M; by intros [= <-]|].
    destruct (String.eqb cmd "restart").
    { revert H1. unfold Legacy.handleRestartCommand. cbn zeta. unfold_M.
      intros H. eapply legacy_sendQuestion_inv; [|exact H]. simpl.
      apply table_all_insert; [done | apply legacy_new_session_inv]. }
    destruct (String.eqb cmd "random"); [|revert H1; unfold_M; by intros [= <-]].
    revert H1. unfold Legacy.handleRandomCommand. cbn zeta.
    destruct (Shuffle _ _ _) as [order|]; [|discriminate]. unfold_M.
    intros H. eapply legacy_sendQuestion_inv; [|exact H]. simpl.
    apply table_all_insert; [done | apply legacy_new_session_inv]. }
  destruct (upd_CallbackQuery update) as [callback|].
  - by apply legacy_handleCallbackQuery_inv.
  - by intros [= <-].
Qed.

Lemma legacy_invariant w :
  Legacy.reachable questions w -> table_all Legacy.session_inv (Users w).
Proof.
  intros [updates Hrun]. revert Hrun.
  assert (H0 : table_all Legacy.session_inv
                 (Users {| Users := (∅ : gmap Z Legacy.UserState); outbox := [] |})).
  { intros u st. simpl. by rewrite lookup_empty. }
  revert H0. generalize ({| Users := (∅ : gmap Z Legacy.UserState); outbox := [] |}).
  induction updates as [|[rnd update] rest IH]; intros w0 Ht; simpl.
  - by intros [= <-].
  - destruct (Legacy.handleUpdate questions rnd update w0) as [[[] w1]|] eqn:H1;
      [|discriminate].
    apply IH. by eapply legacy_handleUpdate_inv.
Qed.

(** /random starts a quiz on a permutation of all questions. *)
Lemma legacy_random_Permutation rnd message w :
  questions <> [] ->
  exists order e,
    Legacy.handleRandomCommand questions rnd message w
    = Some (tt, {| Users := <[msg_From message := Legacy.new_session order]> (Users w);
                   outbox := outbox w ++ [e] |}) /\
    order ≡ₚ Z.of_nat <$> seq 0 (length questions).
Proof.
  intros Hne. unfold Legacy.handleRandomCommand. cbn zeta.
  destruct (Shuffle_Permutation rnd (identity_order (length questions)))
    as (order & -> & HP).
  assert (Hlen : length order = length questions)
    by (by rewrite HP, identity_order_length).
  destruct order as [|idx order'] eqn:Ho.
  { destruct questions; [done | discriminate]. }
  assert (Hidx : idx ∈ identity_order (length questions))
    by (rewrite <- HP; by left).
  rewrite identity_order_seq in Hidx.
  apply list_elem_of_fmap in Hidx as (k & -> & Hk). apply elem_of_seq in Hk.
  destruct (lookup_lt_is_Some_2 questions k) as [q Hq]; [lia|].
  exists (Z.of_nat k :: order'), (MsgQuestion (msg_Chat message) (Legacy.QuestionText q)
                      (Legacy.buttons (Legacy.Options q))).
  split; [|by rewrite HP, identity_order_seq].
  unfold Legacy.sendQuestion. unfold_M. rewrite lookup_insert_eq. simpl.
  destruct (len questions <=? 0) eqn:E; [unfold len in E; simpl in Hlen; lia|].
  rewrite (index_in_range _ _ q) by (lia || by rewrite Nat2Z.id).
  reflexivity.
Qed.

End LegacyFacts.

(** A correct option given as the bare Cyrillic letter BE is stored as the
    Latin letter ETH, which no button of the question carries. *)
Lemma legacy_normalize_first_byte :
  let be := String "208" (String "145" "") in
  let q := {| Legacy.QuestionText := "?";
              Legacy.Options := [(be ++ ". yes")%string; "A. no"];
              Legacy.CorrectOption := be |} in
  Legacy.CorrectOption (Legacy.normalize q) = String "195" (String "144" "") /\
  Legacy.buttons (Legacy.Options q)
  = [(be, (be ++ ". yes")%string); ("A", "A. no")].
Proof. vm_compute. split; reflexivity. Qed.

(** ** Facts about the concrete data *)

Lemma demo_bank_fits : bank_fits Demo.bank.
Proof.
  intros theme questions H. unfold Demo.bank in H.
  apply lookup_singleton_Some in H as [_ <-]. vm_compute. discriminate.
Defined.

Lemma demo_reachable_world1 : reachable Demo.bank Demo.world1.
Proof. exists Demo.history. vm_compute. reflexivity. Defined.

Lemma demo_world1_user7 : Users Demo.world1 !! 7 = Some Demo.after_first.
Proof. vm_compute. reflexivity. Defined.

(** * The claims *)

(** ** The invariant *)

(** C2.  In every world the bot can reach, by any sequence of updates
    handled from the empty table, every session of the table satisfies
    0 <= score <= position <= len(order). *)
Theorem session_invariant_holds (qm : Themes) (w : World UserState) (u : Z) (st : UserState) :
  bank_fits qm ->
  reachable qm w ->
  Users w !! u = Some st ->
  0 <= Score st /\ Score st <= CurrentQuestion st /\
  CurrentQuestion st <= len (QuestionOrder st).
Proof.
  intros Hfit Hreach Hst.
  destruct (reachable_ok qm w Hfit Hreach u st Hst) as [[[H0 H1] H2] _].
  auto.
Qed.

Lemma session_invariant_holds_witness :
  0 <= Score Demo.after_first /\
  Score Demo.after_first <= CurrentQuestion Demo.after_first /\
  CurrentQuestion Demo.after_first <= len (QuestionOrder Demo.after_first).
Proof.
  apply (session_invariant_holds Demo.bank Demo.world1 7 Demo.after_first).
  - apply demo_bank_fits.
  - apply demo_reachable_world1.
  - apply demo_world1_user7.
Defined.

(** ** Phases, prefixes and sorted orders *)

Lemma strip_prefix_app (p s : string) : strip_prefix p (p ++ s)%string = Some s.
Proof.
  induction p as [|a p IH]; simpl; [done|].
  by rewrite Ascii.eqb_refl.
Qed.

Lemma phase_AwaitingTopic st :
  phase st = AwaitingTopic -> String.eqb (SetupStep st) "select_theme" = true.
Proof.
  unfold phase. destruct (String.eqb (SetupStep st) "select_theme"); [done|].
  by destruct (String.eqb (SetupStep st) "select_order").
Qed.

Lemma phase_AwaitingOrder st :
  phase st = AwaitingOrder ->
  String.eqb (SetupStep st) "select_theme" = false /\
  String.eqb (SetupStep st) "select_order" = true.
Proof.
  unfold phase. destruct (String.eqb (SetupStep st) "select_theme"); [done|].
  by destruct (String.eqb (SetupStep st) "select_order").
Qed.

Lemma phase_InProgress st :
  phase st = InProgress ->
  String.eqb (SetupStep st) "select_theme" = false /\
  String.eqb (SetupStep st) "select_order" = false.
Proof.
  unfold phase. destruct (String.eqb (SetupStep st) "select_theme"); [done|].
  by destruct (String.eqb (SetupStep st) "select_order").
Qed.

Lemma Sorted_range (s n : nat) : Sorted Z.le (Z.of_nat <$> seq s n).
Proof.
  revert s. induction n as [|n IH]; intros s; simpl; constructor.
  - apply IH.
  - destruct n; simpl; constructor. lia.
Qed.

Lemma sorted_Permutation_range (order : list Z) (n : nat) :
  order ≡ₚ Z.of_nat <$> seq 0 n ->
  merge_sort Z.le order = Z.of_nat <$> seq 0 n.
Proof.
  intros HP. apply (Sorted_unique Z.le).
  - apply Sorted_merge_sort. apply _.
  - apply Sorted_range.
  - by rewrite merge_sort_Permutation.
Qed.

(** ** Choosing the order *)

(** C4, amended.  For a session in AwaitingOrder whose topic is in the
    bank with n >= 1 questions, OrderChosen(ordered) sets the order to
    [0, ..., n-1] and OrderChosen(random) to a permutation of it (sorting
    gives [0, ..., n-1]), whatever the random source holds; both set
    position and score to 0 and leave the session in InProgress, and the
    first question is sent.  For a topic without questions, and for a
    topic that is not in the bank, either choice only sends the error
    message, and the table - with the session in AwaitingOrder - stays as
    it is. *)
Theorem order_chosen_starts_quiz (qm : Themes) (rnd : nat -> nat)
    (callback : CallbackQuery) (w : World UserState) (state : UserState) :
  Users w !! cb_From callback = Some state ->
  phase state = AwaitingOrder ->
  cb_Data callback = "order_ordered" \/ cb_Data callback = "order_random" ->
  match qm !! SelectedTheme state with
  | Some (q :: rest) =>
      exists order prompt options,
        handleCallbackQuery qm rnd callback w
        = Some (tt, {| Users := <[cb_From callback :=
                                    started (SelectedTheme state) order]> (Users w);
                       outbox := outbox w ++
                         [MsgQuestion (cb_Chat callback) prompt options;
                          CallbackAnswered (cb_ID callback)] |}) /\
        phase (started (SelectedTheme state) order) = InProgress /\
        (cb_Data callback = "order_ordered" ->
           order = Z.of_nat <$> seq 0 (length (q :: rest))) /\
        order ≡ₚ Z.of_nat <$> seq 0 (length (q :: rest)) /\
        merge_sort Z.le order = Z.of_nat <$> seq 0 (length (q :: rest))
  | _ =>
      handleCallbackQuery qm rnd callback w
      = Some (tt, {| Users := Users w;
                     outbox := outbox w ++
                       [MsgThemeUnavailableRestart (cb_Chat callback);
                        CallbackAnswered (cb_ID callback)] |})
  end.
Proof.
  intros Hst Hph Hdata.
  apply phase_AwaitingOrder in Hph as [Hne Heq].
  assert (Hb : String.eqb (cb_Data callback) "order_ordered"
               || String.eqb (cb_Data callback) "order_random" = true).
  { destruct Hdata as [-> | ->]; reflexivity. }
  assert (Herr : forall qs, qm !! SelectedTheme state = qs ->
    match qs with Some (_ :: _) => False | _ => True end ->
    handleCallbackQuery qm rnd callback w
    = Some (tt, {| Users := Users w;
                   outbox := outbox w ++
                     [MsgThemeUnavailableRestart (cb_Chat callback);
                      CallbackAnswered (cb_ID callback)] |})).
  { intros qs Hqs Hnone. unfold handleCallbackQuery. cbn zeta. unfold_M.
    rewrite Hst, Hne, Heq. unfold on_select_order. rewrite Hb, Hqs.
    destruct qs as [[|q rest]|]; [simpl (len _ =? 0) | done |];
      unfold_M; by rewrite <- app_assoc. }
  destruct (qm !! SelectedTheme state) as [[|q rest]|] eqn:Hqs;
    [by apply (Herr (Some [])) | | by apply (Herr None)].
  clear Herr. set (questions := q :: rest) in *.
  set (n := length questions) in *.
  assert (Hord : exists order,
    (if String.eqb (cb_Data callback) "order_random"
     then Shuffle rnd (length (identity_order n)) (identity_order n)
     else Some (identity_order n)) = Some order /\
    order ≡ₚ identity_order n /\
    (cb_Data callback = "order_ordered" -> order = identity_order n)).
  { destruct Hdata as [-> | ->]; simpl.
    - exists (identity_order n). done.
    - destruct (Shuffle_Permutation rnd (identity_order n)) as (o & Ho & HP).
      exists o. repeat split; [done | done | discriminate]. }
  destruct Hord as (order & Hshuffle & HP & Hid).
  set (st' := started (SelectedTheme state) order).
  set (w1 := {| Users := <[cb_From callback := st']> (Users w); outbox := outbox w |}).
  destruct (sendQuestion_next qm (cb_Chat callback) (cb_From callback) w1 st' questions)
    as (prompt & options & Hsend).
  { simpl. apply lookup_insert_eq. }
  { exact Hqs. }
  { unfold len. simpl. lia. }
  { by apply order_covers_Permutation. }
  assert (HP' : order ≡ₚ Z.of_nat <$> seq 0 n)
    by (by rewrite <- identity_order_seq).
  exists order, prompt, options.
  split; [|repeat split;
           [by rewrite <- identity_order_seq | done
           | by apply sorted_Permutation_range]].
  unfold handleCallbackQuery. cbn zeta. unfold_M. rewrite Hst, Hne, Heq.
  unfold on_select_order. rewrite Hb, Hqs.
  destruct (len questions =? 0) eqn:E0; [unfold len in E0; simpl in E0; lia|].
  cbn zeta. fold n. rewrite Hshuffle. unfold_M.
  unfold w1, st', started in Hsend. simpl in Hsend. rewrite Hsend. simpl.
  by rewrite <- app_assoc.
Qed.

Lemma order_chosen_starts_quiz_witness :
  exists order prompt options,
    handleCallbackQuery Demo.bank Demo.no_rnd (Demo.press 7 "order_random")
      Demo.world_waiting
    = Some (tt, {| Users := <[7 := started "quizzes/geo.json" order]>
                              (Users Demo.world_waiting);
                   outbox := outbox Demo.world_waiting ++
                     [MsgQuestion 7 prompt options; CallbackAnswered "cb"] |}) /\
    phase (started "quizzes/geo.json" order) = InProgress /\
    ("order_random" = "order_ordered" -> order = Z.of_nat <$> seq 0 2) /\
    order ≡ₚ Z.of_nat <$> seq 0 2 /\
    merge_sort Z.le order = Z.of_nat <$> seq 0 2.
Proof.
  apply (order_chosen_starts_quiz Demo.bank Demo.no_rnd
           (Demo.press 7 "order_random") Demo.world_waiting Demo.waiting).
  - reflexivity.
  - reflexivity.
  - right. reflexivity.
Defined.

(** C4 as stated fails for a topic without questions: the session stays
    in AwaitingOrder and the user is told that the topic is unavailable. *)
Lemma order_chosen_empty_topic_counterexample :
  let waiting := {| CurrentQuestion := 0; Score := 0; QuestionOrder := [];
                    SelectedTheme := "quizzes/empty.json";
                    SetupStep := "select_order" |} in
  let w := {| Users := {[7 := waiting]}; outbox := [] |} in
  ({["quizzes/empty.json" := []]} : Themes) !! SelectedTheme waiting = Some [] /\
  phase waiting = AwaitingOrder /\
  handleCallbackQuery {["quizzes/empty.json" := []]} Demo.no_rnd
    (Demo.press 7 "order_ordered") w
  = Some (tt, {| Users := {[7 := waiting]};
                 outbox := [MsgThemeUnavailableRestart 7; CallbackAnswered "cb"] |}).
Proof. vm_compute. repeat split; reflexivity. Qed.

(** ** Restart *)

Lemma sendQuestion_at_start (qm : Themes) chatID userID w st :
  Users w !! userID = Some st ->
  CurrentQuestion st = 0 ->
  (forall questions, qm !! SelectedTheme st = Some questions ->
     order_covers questions (QuestionOrder st)) ->
  exists e, sendQuestion qm chatID userID w
            = Some (tt, {| Users := Users w; outbox := outbox w ++ [e] |}).
Proof.
  intros Hst Hpos Hcov.
  destruct (qm !! SelectedTheme st) as [questions|] eqn:Hqs.
  - destruct (decide (len questions = 0)) as [H0|H0].
    + exists (MsgThemeUnavailable chatID). unfold sendQuestion. unfold_M.
      rewrite Hst, Hqs, H0. reflexivity.
    + destruct (sendQuestion_next qm chatID userID w st questions)
        as (prompt & options & H); eauto.
      unfold len in *. lia.
  - exists (MsgThemeUnavailable chatID). unfold sendQuestion. unfold_M.
    by rewrite Hst, Hqs.
Qed.

(** C5, amended.  When the bank holds a question and the user has a
    session, Restart replaces the session, whatever its phase, position
    and score were, by one in InProgress with position 0 and score 0 that
    keeps the topic of the old session; its order is the identity over all
    questions of the bank.  After the restart notice the first question
    of that topic is sent when the topic is in the bank and has a
    question; otherwise - no topic chosen yet, a topic that is not in the
    bank, a topic without questions - the user is told that the topic is
    unavailable. *)
Theorem restart_keeps_topic (qm : Themes) (message : Message) (w : World UserState)
    (prev : UserState) :
  Users w !! msg_From message = Some prev ->
  (1 <= length (all_questions qm))%nat ->
  handleRestartCommand qm message w
  = Some (tt, {| Users := <[msg_From message :=
                             started (SelectedTheme prev)
                               (Z.of_nat <$> seq 0 (length (all_questions qm)))]>
                            (Users w);
                 outbox := outbox w ++
                   [MsgRestarted (msg_Chat message);
                    match qm !! SelectedTheme prev with
                    | Some (q0 :: _) => question_msg (msg_Chat message) q0
                    | _ => MsgThemeUnavailable (msg_Chat message)
                    end] |}) /\
  phase (started (SelectedTheme prev)
           (Z.of_nat <$> seq 0 (length (all_questions qm)))) = InProgress.
Proof.
  intros Hprev Hn. split; [|reflexivity].
  unfold handleRestartCommand. unfold_M. cbn zeta.
  destruct (len (all_questions qm) =? 0) eqn:E0; [unfold len in E0; lia|].
  rewrite Hprev. unfold sendQuestion. unfold_M. rewrite lookup_insert_eq.
  cbn [SelectedTheme CurrentQuestion QuestionOrder Score].
  rewrite identity_order_seq. unfold started.
  destruct (qm !! SelectedTheme prev) as [[|q0 rest]|] eqn:Hqs.
  - change (len (@nil Question) =? 0) with true. cbn iota.
    cbn [Users outbox]. by rewrite <- app_assoc.
  - assert (Hlen : 0 < len (q0 :: rest)) by (rewrite len_cons; pose proof (len_nonneg rest); lia).
    destruct (len (q0 :: rest) =? 0) eqn:E1; [lia|].
    destruct (len (q0 :: rest) <=? 0) eqn:E2; [lia|].
    rewrite (index_in_range _ _ 0);
      [|lia | rewrite <- identity_order_seq; by apply (identity_order_lookup _ 0)].
    rewrite E2. rewrite (index_in_range _ _ q0) by (lia || reflexivity).
    cbn [Users outbox]. by rewrite <- app_assoc.
  - cbn [Users outbox]. by rewrite <- app_assoc.
Qed.

Lemma restart_keeps_topic_witness :
  handleRestartCommand Demo.bank
    {| msg_From := 7; msg_Chat := 7; msg_Command := Some "restart" |} Demo.world1
  = Some (tt, {| Users := <[7 := started "quizzes/geo.json" (Z.of_nat <$> seq 0 2)]>
                            (Users Demo.world1);
                 outbox := outbox Demo.world1 ++
                   [MsgRestarted 7; question_msg 7 Demo.q1] |}) /\
  phase (started "quizzes/geo.json" (Z.of_nat <$> seq 0 2)) = InProgress.
Proof.
  apply (restart_keeps_topic Demo.bank
           {| msg_From := 7; msg_Chat := 7; msg_Command := Some "restart" |}
           Demo.world1 Demo.after_first).
  - apply demo_world1_user7.
  - vm_compute. lia.
Defined.

(** C5 as stated fails: a restart in the middle of a quiz leaves a session
    that is in InProgress, not in AwaitingTopic, and that still has the
    topic. *)
Lemma restart_counterexample :
  phase Demo.after_first = InProgress /\
  exists w',
    handleRestartCommand Demo.bank
      {| msg_From := 7; msg_Chat := 7; msg_Command := Some "restart" |} Demo.world1
    = Some (tt, w') /\
    (phase <$> Users w' !! 7) = Some InProgress /\
    (SelectedTheme <$> Users w' !! 7) = Some "quizzes/geo.json".
Proof.
  split; [reflexivity|].
  destruct (handleRestartCommand Demo.bank
              {| msg_From := 7; msg_Chat := 7; msg_Command := Some "restart" |}
              Demo.world1) as [[[] w']|] eqn:H.
  - exists w'. split; [reflexivity|]. revert H. vm_compute.
    intros [= <-]. split; reflexivity.
  - revert H. vm_compute. discriminate.
Qed.

(** ** Choosing the topic *)

(** C6, amended.  For a session in AwaitingTopic, TopicChosen(name) sets
    the topic to name and moves the session to AwaitingOrder with the
    ordered/random choice as its effect, whether or not name is a topic of
    the bank.  For a name that is not in the bank the error effect comes
    with the OrderChosen that follows, which leaves the session in
    AwaitingOrder. *)
Theorem topic_chosen_unchecked (qm : Themes) (rnd : nat -> nat)
    (callback : CallbackQuery) (w : World UserState) (state : UserState) (name : string) :
  Users w !! cb_From callback = Some state ->
  phase state = AwaitingTopic ->
  cb_Data callback = ("theme_" ++ name)%string ->
  let chosen := set_theme state name "select_order" in
  let w' := {| Users := <[cb_From callback := chosen]> (Users w);
               outbox := outbox w ++ [MsgOrderChoice (cb_Chat callback);
                                      CallbackAnswered (cb_ID callback)] |} in
  handleCallbackQuery qm rnd callback w = Some (tt, w') /\
  SelectedTheme chosen = name /\
  phase chosen = AwaitingOrder /\
  (qm !! name = None ->
   forall rnd' callback',
     cb_From callback' = cb_From callback ->
     cb_Data callback' = "order_ordered" \/ cb_Data callback' = "order_random" ->
     handleCallbackQuery qm rnd' callback' w'
     = Some (tt, {| Users := Users w';
                    outbox := outbox w' ++
                      [MsgThemeUnavailableRestart (cb_Chat callback');
                       CallbackAnswered (cb_ID callback')] |})).
Proof.
  intros Hst Hph Hdata chosen w'.
  apply phase_AwaitingTopic in Hph.
  repeat split.
  - unfold handleCallbackQuery. cbn zeta. unfold_M. rewrite Hst, Hph.
    unfold on_select_theme, HasPrefix, TrimPrefix. rewrite Hdata.
    change "theme_" with ("theme_" ++ "")%string at 1 3.
    rewrite !strip_prefix_app. unfold_M. simpl.
    by rewrite <- app_assoc.
  - intros Hname rnd' callback' Hfrom Hdata'.
    unfold handleCallbackQuery. cbn zeta. unfold_M. rewrite Hfrom.
    unfold w' at 1. simpl. rewrite lookup_insert_eq. simpl.
    unfold on_select_order.
    assert (Hb : String.eqb (cb_Data callback') "order_ordered"
                 || String.eqb (cb_Data callback') "order_random" = true).
    { destruct Hdata' as [-> | ->]; reflexivity. }
    rewrite Hb. simpl. rewrite Hname. unfold_M. simpl.
    by rewrite <- app_assoc.
Qed.

Lemma topic_chosen_unchecked_witness :
  let state := {| CurrentQuestion := 0; Score := 0; QuestionOrder := [];
                  SelectedTheme := ""; SetupStep := "select_theme" |} in
  let w := {| Users := {[7 := state]}; outbox := [] |} in
  let chosen := set_theme state "nowhere" "select_order" in
  let w' := {| Users := <[7 := chosen]> (Users w);
               outbox := outbox w ++ [MsgOrderChoice 7; CallbackAnswered "cb"] |} in
  handleCallbackQuery Demo.bank Demo.no_rnd (Demo.press 7 "theme_nowhere") w
  = Some (tt, w') /\
  SelectedTheme chosen = "nowhere" /\
  phase chosen = AwaitingOrder /\
  (Demo.bank !! "nowhere" = None ->
   forall rnd' callback',
     cb_From callback' = 7 ->
     cb_Data callback' = "order_ordered" \/ cb_Data callback' = "order_random" ->
     handleCallbackQuery Demo.bank rnd' callback' w'
     = Some (tt, {| Users := Users w';
                    outbox := outbox w' ++
                      [MsgThemeUnavailableRestart (cb_Chat callback');
                       CallbackAnswered (cb_ID callback')] |})).
Proof.
  apply (topic_chosen_unchecked Demo.bank Demo.no_rnd (Demo.press 7 "theme_nowhere")
           {| Users := {[7 := {| CurrentQuestion := 0; Score := 0; QuestionOrder := [];
                                 SelectedTheme := ""; SetupStep := "select_theme" |}]};
              outbox := [] |}
           {| CurrentQuestion := 0; Score := 0; QuestionOrder := [];
              SelectedTheme := ""; SetupStep := "select_theme" |} "nowhere").
  - reflexivity.
  - reflexivity.
  - reflexivity.
Defined.

(** C6 as stated fails: a name that is not in the bank is taken as the
    topic and the session moves on to AwaitingOrder without an error. *)
Lemma topic_chosen_counterexample :
  let state := {| CurrentQuestion := 0; Score := 0; QuestionOrder := [];
                  SelectedTheme := ""; SetupStep := "select_theme" |} in
  Demo.bank !! "nowhere" = None /\
  phase state = AwaitingTopic /\
  handleCallbackQuery Demo.bank Demo.no_rnd (Demo.press 7 "theme_nowhere")
    {| Users := {[7 := state]}; outbox := [] |}
  = Some (tt, {| Users := {[7 := {| CurrentQuestion := 0; Score := 0;
                                    QuestionOrder := [];
                                    SelectedTheme := "nowhere";
                                    SetupStep := "select_order" |}]};
                 outbox := [MsgOrderChoice 7; CallbackAnswered "cb"] |}).
Proof. vm_compute. repeat split; reflexivity. Qed.

(** ** Begin *)

(** C7, amended.  With an empty bank, BeginQuiz produces the "no topics"
    message as its only effect, and a fresh session in AwaitingTopic is
    stored for the user all the same. *)
Theorem begin_quiz_empty_bank (message : Message) (w : World UserState) :
  handleStartCommand ∅ message w
  = Some (tt, {| Users := <[msg_From message := fresh]> (Users w);
                 outbox := outbox w ++ [MsgNoThemes (msg_Chat message)] |}) /\
  phase fresh = AwaitingTopic.
Proof.
  split; [|reflexivity].
  unfold handleStartCommand, theme_names. unfold_M.
  rewrite map_to_list_empty. reflexivity.
Qed.

(** C7 as stated fails: the table is not what it was, the user has a
    session after the error. *)
Lemma begin_quiz_empty_bank_counterexample :
  exists w',
    handleStartCommand ∅ {| msg_From := 7; msg_Chat := 7; msg_Command := Some "start" |}
      init_world = Some (tt, w') /\
    outbox w' = [MsgNoThemes 7] /\
    Users init_world !! 7 = None /\
    Users w' !! 7 = Some fresh.
Proof.
  eexists. split; [vm_compute; reflexivity|].
  vm_compute. repeat split; reflexivity.
Qed.

(** ** An answer *)






(** ** Panics *)

(** C8 (a defect of the code).  A /restart of a user without a session,
    with a question in the bank, reads a field of the missing session and
    panics; so does a wrong answer to a question that names no correct
    answer, by the index 0 into its empty list. *)
Theorem restart_without_session_panics :
  Users init_world !! 9 = None /\
  handleUpdate Demo.bank Demo.no_rnd (Demo.command 9 "restart") init_world = None /\
  exists w,
    run Demo.keyless_bank Demo.setup init_world = Some w /\
    handleUpdate Demo.keyless_bank Demo.no_rnd (Demo.button 7 "A") w = None.
Proof.
  split; [reflexivity|]. split; [vm_compute; reflexivity|].
  eexists. split; [vm_compute; reflexivity|]. vm_compute. reflexivity.
Qed.

(** ** extractLetter *)

(** C3 (a defect of the code).  Without a separator the function takes
    the first byte of the text, not its first character, and converts
    the byte as if it were a code point: for the Cyrillic capital BE
    (U+0411, the bytes 208 145) it returns the Latin capital ETH (U+00D0,
    the bytes 195 144), which is neither the letter nor its upper case. *)
Theorem extractLetter_first_byte :
  let be := String "208" (String "145" "") in
  extractLetter be = String "195" (String "144" "") /\
  extractLetter be <> ToUpper be /\
  extractLetter be <> be.
Proof. vm_compute. repeat split; discriminate. Qed.

(** Everywhere else the function is the one of the specification: when
    a separator occurs, and when the text starts with an ASCII
    character. *)
Lemma SplitN2_find_sep (sep text : string) :
  match find_sep sep text with
  | Some n => exists after, SplitN2 text sep = [substring 0 n text; after]
  | None => SplitN2 text sep = [text]
  end.
Proof.
  unfold SplitN2. induction text as [|c r IH].
  - simpl. unfold HasPrefix. destruct (strip_prefix sep ""); simpl; eauto.
  - cbn [find_sep cut]. unfold HasPrefix.
    destruct (strip_prefix sep (String c r)) as [after|]; [simpl; eauto|].
    destruct (find_sep sep r) as [n|]; simpl.
    + destruct IH as [after IH]. destruct (cut sep r) as [[b a]|]; [|discriminate].
      injection IH as -> ->. eauto.
    + destruct (cut sep r) as [[b a]|]; [discriminate | done].
Qed.

Lemma extractLetter_seps_cons (sep : string) (rest : list string) (text : string) :
  extractLetter_seps (sep :: rest) text =
  match find_sep sep text with
  | Some n => Some (ToUpper (TrimSpace (substring 0 n text)))
  | None => extractLetter_seps rest text
  end.
Proof.
  cbn [extractLetter_seps]. pose proof (SplitN2_find_sep sep text) as H.
  destruct (find_sep sep text) as [n|].
  - destruct H as [after ->]. reflexivity.
  - rewrite H. reflexivity.
Qed.

Lemma first_char_ascii (c : ascii) (r : string) :
  (N_of_ascii c < 128)%N -> first_char (String c r) = String c EmptyString.
Proof.
  intros Hc. unfold first_char, runes. cbn [String.length runes_from].
  unfold utf8.DecodeRuneInString.
  assert (H : (byte_val c <? 128) = true) by (unfold byte_val; lia).
  by rewrite H.
Qed.

Lemma extractLetter_is_extractLabel (text : string) :
  (forall c r, text = String c r ->
     extractLetter_seps separators text = None -> (N_of_ascii c < 128)%N) ->
  extractLetter text = extractLabel text.
Proof.
  intros Hascii. unfold extractLetter, extractLabel.
  destruct (extractLetter_seps separators text) as [letter|] eqn:Hseps.
  - unfold separators in Hseps. rewrite !extractLetter_seps_cons in Hseps.
    destruct (find_sep "." text); [by injection Hseps as <-|].
    destruct (find_sep ")" text); [by injection Hseps as <-|].
    destruct (find_sep ":" text); [by injection Hseps as <-|]. discriminate.
  - specialize (fun c r H => Hascii c r H eq_refl).
    unfold separators in Hseps. rewrite !extractLetter_seps_cons in Hseps.
    destruct (find_sep "." text); [discriminate|].
    destruct (find_sep ")" text); [discriminate|].
    destruct (find_sep ":" text); [discriminate|].
    destruct text as [|c r]; [done|].
    specialize (Hascii c r eq_refl).
    rewrite (first_char_ascii c r Hascii).
    apply N.ltb_lt in Hascii. unfold string_of_byte. by rewrite Hascii.
Qed.

(** The examples of the specification. *)
Lemma extractLetter_examples :
  extractLetter "A. Paris" = "A" /\
  extractLetter "b) London" = "B" /\
  extractLetter "C:Berlin" = "C" /\
  extractLetter "x" = "X" /\
  extractLetter "" = "".
Proof. repeat split; reflexivity. Qed.

(** ** Loading *)

Section Loading.

Variable dirPath : string.

Lemma append_inv_head (p a b : string) : (p ++ a)%string = (p ++ b)%string -> a = b.
Proof. induction p as [|c p IH]; simpl; [done|]. intros [= H]. auto. Qed.

Lemma append_cons (x : ascii) (a b : string) :
  (String x a ++ b)%string = String x (a ++ b).
Proof. reflexivity. Qed.

Lemma append_assoc3 (a b c : string) : ((a ++ b) ++ c)%string = (a ++ (b ++ c))%string.
Proof. induction a as [|x a IH]; [done|]. by rewrite !append_cons, IH. Qed.

Lemma split_slash_nonempty (path : string) : split_slash path <> [].
Proof.
  destruct path as [|c r]; simpl; [done|].
  destruct (Ascii.eqb c "/"); [done|]. by destruct (split_slash r).
Qed.

Lemma split_slash_app (a b : string) :
  split_slash (a ++ "/" ++ b) = split_slash a ++ split_slash b.
Proof.
  induction a as [|c a IH]; [done|].
  rewrite append_cons. cbn [split_slash]. rewrite IH.
  destruct (Ascii.eqb c "/"); [done|].
  pose proof (split_slash_nonempty a). by destruct (split_slash a).
Qed.

Lemma split_slash_name (name : string) :
  has_slash name = false -> split_slash name = [name].
Proof.
  induction name as [|c r IH]; [done|]. cbn [has_slash split_slash].
  destruct (Ascii.eqb c "/"); [done|]. simpl. intros H. by rewrite IH.
Qed.

Lemma join_slash_snoc (elems : list string) (name : string) :
  join_slash (elems ++ [name])
  = (match elems with [] => "" | _ => join_slash elems ++ "/" end ++ name)%string.
Proof.
  induction elems as [|e elems IH]; [done|].
  destruct elems as [|e' elems]; [cbn [app join_slash]; by rewrite append_assoc3|].
  change (join_slash ((e :: e' :: elems) ++ [name]))
    with (e ++ "/" ++ join_slash ((e' :: elems) ++ [name]))%string.
  rewrite IH.
  change (join_slash (e :: e' :: elems))
    with (e ++ "/" ++ join_slash (e' :: elems))%string.
  by rewrite !append_assoc3.
Qed.

Lemma HasPrefix_slash_app (d rest : string) :
  d <> "" -> HasPrefix (d ++ rest) "/" = HasPrefix d "/".
Proof.
  destruct d as [|c r]; [done|]. intros _. rewrite append_cons.
  unfold HasPrefix. cbn [strip_prefix]. by destruct (Ascii.eqb "/" c).
Qed.

Lemma is_entry_name_spec (name : string) :
  is_entry_name name = true ->
  String.eqb name "" = false /\ String.eqb name "." = false /\
  String.eqb name ".." = false /\ has_slash name = false.
Proof.
  unfold is_entry_name. rewrite !andb_true_iff, !negb_true_iff. tauto.
Qed.

(** The path of an entry of the directory is the cleaned directory
    followed by the name of the entry. *)
Lemma Join_entry_name :
  exists prefix, forall name,
    is_entry_name name = true -> Join dirPath name = (prefix ++ name)%string.
Proof.
  destruct (String.eqb dirPath "") eqn:Hdir.
  - exists "". intros name Hname.
    apply is_entry_name_spec in Hname as (Hne & Hdot & Hdd & Hsl).
    unfold Join, Clean. rewrite Hdir, Hne, split_slash_name by done.
    assert (Hroot : HasPrefix name "/" = false).
    { destruct name as [|c r]; [done|]. cbn [has_slash] in Hsl.
      apply orb_false_iff in Hsl as [Hc _]. unfold HasPrefix. cbn [strip_prefix].
      rewrite Ascii.eqb_sym. by rewrite Hc. }
    rewrite Hroot. simpl. unfold clean_step. by rewrite Hne, Hdot, Hdd.
  - set (rooted := HasPrefix dirPath "/").
    set (out := foldl (clean_step rooted) [] (split_slash dirPath)).
    exists ((if rooted then "/" else "") ++
            match rev out with [] => "" | _ => join_slash (rev out) ++ "/" end)%string.
    intros name Hname.
    apply is_entry_name_spec in Hname as (Hne & Hdot & Hdd & Hsl).
    unfold Join, Clean. rewrite Hdir.
    assert (Hroot : HasPrefix (dirPath ++ "/" ++ name) "/" = rooted).
    { apply HasPrefix_slash_app. by intros ->. }
    rewrite Hroot, split_slash_app, (split_slash_name name), foldl_app by done.
    fold out. cbn [foldl].
    assert (Hstep : clean_step rooted out name = name :: out).
    { unfold clean_step. by rewrite Hne, Hdot, Hdd. }
    rewrite Hstep. cbn [rev]. rewrite join_slash_snoc.
    destruct rooted.
    + by rewrite !append_assoc3.
    + destruct (rev out) as [|e l] eqn:E; reflexivity.
Qed.

Lemma Join_inj (n1 n2 : string) :
  is_entry_name n1 = true -> is_entry_name n2 = true ->
  Join dirPath n1 = Join dirPath n2 -> n1 = n2.
Proof.
  intros H1 H2. destruct Join_entry_name as [prefix Hjoin].
  rewrite (Hjoin n1 H1), (Hjoin n2 H2). apply append_inv_head.
Qed.

Lemma load_entry_other acc file key :
  Join dirPath (Name file) <> key ->
  (load_entry dirPath acc file).1 !! key = acc.1 !! key.
Proof.
  intros Hne. destruct acc as [themes log]. unfold load_entry.
  destruct (IsDir file); [done|].
  destruct (negb _); [done|].
  destruct (content file); simpl; [done | done |].
  by rewrite lookup_insert_ne.
Qed.

Lemma load_entry_log acc file line :
  line ∈ acc.2 -> line ∈ (load_entry dirPath acc file).2.
Proof.
  intros Hin. destruct acc as [themes log]. unfold load_entry.
  destruct (IsDir file); [done|].
  destruct (negb _); [done|].
  destruct (content file); simpl; rewrite elem_of_app; auto.
Qed.

Lemma load_all_other files acc key :
  (forall file, file ∈ files -> Join dirPath (Name file) <> key) ->
  (foldl (load_entry dirPath) acc files).1 !! key = acc.1 !! key.
Proof.
  revert acc. induction files as [|f files IH]; intros acc Hne; simpl; [done|].
  rewrite IH by (intros file Hin; apply Hne; by right).
  apply load_entry_other, Hne. by left.
Qed.

Lemma load_all_log files acc line :
  line ∈ acc.2 -> line ∈ (foldl (load_entry dirPath) acc files).2.
Proof.
  revert acc. induction files as [|f files IH]; intros acc Hin; simpl; [done|].
  by apply IH, load_entry_log.
Qed.

Lemma load_all_entries files acc file :
  listing_ok files ->
  file ∈ files -> is_topic_file file = true ->
  entry_outcome dirPath acc.1 (foldl (load_entry dirPath) acc files) file.
Proof.
  revert acc. induction files as [|f files IH]; intros acc [Hnd Hnames] Hin Htopic.
  { by apply elem_of_nil in Hin. }
  rewrite fmap_cons in Hnd. apply NoDup_cons in Hnd as [Hf Hnd].
  apply Forall_cons in Hnames as [Hname Hnames].
  rewrite Forall_forall in Hnames.
  apply elem_of_cons in Hin as [-> | Hin]; simpl.
  - (* the entry itself, the later ones leave its key alone *)
    assert (Hlater : forall g, g ∈ files -> Join dirPath (Name g) <> Join dirPath (Name f)).
    { intros g Hg Heq. apply Join_inj in Heq; [|by apply Hnames | done].
      apply Hf. rewrite <- Heq. apply list_elem_of_fmap. eauto. }
    unfold entry_outcome. cbn zeta.
    rewrite (load_all_other files _ _ Hlater).
    destruct acc as [themes log]. unfold load_entry.
    apply andb_true_iff in Htopic as [Hd Hj].
    apply negb_true_iff in Hd. rewrite Hd, Hj. simpl.
    destruct (content f); simpl; (split; [|apply load_all_log; simpl;
      rewrite elem_of_app, elem_of_cons; auto]); try done.
    apply lookup_insert_eq.
  - (* a later entry, the first one leaves its key alone *)
    assert (Hok : listing_ok files) by (split; [done | by apply Forall_forall]).
    specialize (IH (load_entry dirPath acc f) Hok Hin Htopic).
    assert (Hne : Join dirPath (Name f) <> Join dirPath (Name file)).
    { intros Heq. apply Join_inj in Heq; [|done | by apply Hnames].
      apply Hf. rewrite Heq. apply list_elem_of_fmap. eauto. }
    unfold entry_outcome in *. cbn zeta in *.
    rewrite (load_entry_other acc f _ Hne) in IH. exact IH.
Qed.

End Loading.

(** C9, amended.  The load validates no question.  When the root cannot
    be examined, is no directory or cannot be listed, the load returns an
    error and loads nothing.  Otherwise it returns without error, and for
    every file of the listing with the extension .json (in any case):
    when the file decodes, its questions are stored as they are under the
    cleaned path of the file, filepath.Join(root, name); when it cannot
    be read or decoded, a warning is logged (it names the path when the
    file cannot be read, and no file when it cannot be decoded), nothing
    is stored for it, and the load goes on. *)
Theorem load_skips_bad_files (dirPath : string) (files : list DirEntry)
    (themes : Themes) :
  listing_ok files ->
  LoadAllQuestionsFromDir dirPath Inaccessible themes = (Some ErrStat, themes, []) /\
  LoadAllQuestionsFromDir dirPath NotADirectory themes = (Some ErrNotDir, themes, []) /\
  LoadAllQuestionsFromDir dirPath Unlistable themes = (Some ErrReadDir, themes, []) /\
  exists themes' log,
    LoadAllQuestionsFromDir dirPath (Listing files) themes = (None, themes', log) /\
    forall file, file ∈ files -> is_topic_file file = true ->
      entry_outcome dirPath themes (themes', log) file.
Proof.
  intros Hok. repeat split.
  unfold LoadAllQuestionsFromDir.
  destruct (foldl (load_entry dirPath) (themes, []) files) as [themes' log] eqn:Hrun.
  exists themes', log. split; [done|].
  intros file Hin Htopic. rewrite <- Hrun.
  by apply (load_all_entries dirPath files (themes, [])).
Qed.

Lemma load_skips_bad_files_witness :
  let files := [ {| Name := "geo.JSON"; IsDir := false;
                    content := Decoded [Demo.q1; Demo.q2] |};
                 {| Name := "broken.json"; IsDir := false; content := Malformed |};
                 {| Name := "notes.txt"; IsDir := false; content := Unreadable |} ] in
  LoadAllQuestionsFromDir "./quizzes" Inaccessible ∅ = (Some ErrStat, ∅, []) /\
  LoadAllQuestionsFromDir "./quizzes" NotADirectory ∅ = (Some ErrNotDir, ∅, []) /\
  LoadAllQuestionsFromDir "./quizzes" Unlistable ∅ = (Some ErrReadDir, ∅, []) /\
  exists themes' log,
    LoadAllQuestionsFromDir "./quizzes" (Listing files) ∅ = (None, themes', log) /\
    forall file, file ∈ files -> is_topic_file file = true ->
      entry_outcome "./quizzes" ∅ (themes', log) file.
Proof.
  apply (load_skips_bad_files "./quizzes"
           [ {| Name := "geo.JSON"; IsDir := false;
                content := Decoded [Demo.q1; Demo.q2] |};
             {| Name := "broken.json"; IsDir := false; content := Malformed |};
             {| Name := "notes.txt"; IsDir := false; content := Unreadable |} ] ∅).
  split.
  - simpl. repeat (apply NoDup_cons; split; [rewrite ?elem_of_cons; intros H;
      repeat (destruct H as [H|H]; [discriminate|]); by apply elem_of_nil in H|]).
    apply NoDup_nil_2.
  - repeat (apply Forall_cons; split; [reflexivity|]). apply Forall_nil_2.
Defined.

(** C9 as stated fails: a question without options and without a correct
    answer is loaded like any other. *)
Lemma load_unvalidated_counterexample :
  let bare := {| Id := 0; QuestionText := ""; Options := ∅; CorrectAnswer := [] |} in
  let files := [ {| Name := "bare.json"; IsDir := false; content := Decoded [bare] |} ] in
  LoadAllQuestionsFromDir "./quizzes" (Listing files) ∅
  = (None, {["quizzes/bare.json" := [bare]]}, [Loaded "bare" "bare.json"]).
Proof. vm_compute. reflexivity. Qed.

(** * Further properties *)

(** ** Runes and texts *)

(** *** Decoding and encoding *)
Lemma byte_val_range (c : ascii) : 0 <= byte_val c < 256.
Proof. unfold byte_val. pose proof (N_ascii_bounded c). lia. Qed.

Lemma byte_val_of (z : Z) : 0 <= z < 256 -> byte_val (byte_of z) = z.
Proof.
  intros Hz. unfold byte_val, byte_of. rewrite N_ascii_embedding by lia. lia.
Qed.

Lemma first_range s0 sz lo hi :
  utf8.first s0 = Some (sz, lo, hi) ->
  194 <= s0 <= 244 /\ 128 <= lo /\ hi <= 191 /\ (2 <= sz <= 4)%nat.
Proof.
  unfold utf8.first, between. repeat case_match; intros [= <- <- <-]; lia.
Qed.

Lemma Decode_app_sync (x y : string) :
  x <> "" -> starts_rune y ->
  utf8.DecodeRuneInString (x ++ y) = utf8.DecodeRuneInString x.
Proof.
  destruct x as [|c0 x1]; [done|]. intros _ Hy. rewrite append_cons.
  unfold utf8.DecodeRuneInString.
  destruct (byte_val c0 <? 128); [done|].
  destruct (utf8.first (byte_val c0)) as [[[sz lo] hi]|] eqn:Hf; [|done].
  apply first_range in Hf as (_ & Hlo & Hhi & _).
  assert (Hcont : forall d lo' hi', 128 <= lo' -> hi' <= 191 ->
            between 128 191 (byte_val d) = false -> between lo' hi' (byte_val d) = false).
  { unfold between. intros. lia. }
  destruct x1 as [|c1 x2].
  { destruct y as [|d y']; [done|]. simpl in Hy.
    change ("" ++ String d y')%string with (String d y'). cbv beta iota.
    by rewrite (Hcont d lo hi). }
  rewrite append_cons. destruct (negb (between lo hi (byte_val c1))); [done|].
  destruct (sz <=? 2)%nat; [done|].
  destruct x2 as [|c2 x3].
  { destruct y as [|d y']; [done|]. simpl in Hy.
    change ("" ++ String d y')%string with (String d y'). cbv beta iota.
    by rewrite (Hcont d 128 191). }
  rewrite append_cons. destruct (negb (between 128 191 (byte_val c2))); [done|].
  destruct (sz <=? 3)%nat; [done|].
  destruct x3 as [|c3 x4].
  { destruct y as [|d y']; [done|]. simpl in Hy.
    change ("" ++ String d y')%string with (String d y'). cbv beta iota.
    by rewrite (Hcont d 128 191). }
  by rewrite append_cons.
Qed.

Lemma Decode_size (z : string) r n :
  z <> "" -> utf8.DecodeRuneInString z = (r, n) -> (1 <= n <= String.length z)%nat.
Proof.
  intros Hz. unfold utf8.DecodeRuneInString.
  repeat case_match; intros [= <- <-]; simplify_eq; simpl; lia.
Qed.

Lemma Decode_nonneg (z : string) r n :
  utf8.DecodeRuneInString z = (r, n) -> 0 <= r.
Proof.
  unfold utf8.DecodeRuneInString.
  pose proof byte_val_range as Hb.
  repeat case_match; intros [= <- <-]; try done;
    rewrite ?Z.lor_nonneg, ?Z.shiftl_nonneg, ?Z.land_nonneg;
    repeat split; first [apply Hb | right; lia].
Qed.

Lemma Decode_cont (d : ascii) (z : string) :
  between 128 191 (byte_val d) = true ->
  utf8.DecodeRuneInString (String d z) = (utf8.RuneError, 1%nat).
Proof.
  intros Hd. unfold utf8.DecodeRuneInString.
  destruct (byte_val d <? 128) eqn:E; [unfold between in Hd; lia|].
  destruct (utf8.first (byte_val d)) as [[[sz lo] hi]|] eqn:Hf; [|done].
  apply first_range in Hf. unfold between in Hd. lia.
Qed.

(** *** Bits *)
Lemma land_disjoint (c x k : Z) :
  0 <= k -> c mod 2 ^ k = 0 -> 0 <= x < 2 ^ k -> Z.land c x = 0.
Proof.
  intros Hk Hc Hx. apply Z.bits_inj'. intros n Hn.
  rewrite Z.land_spec, Z.bits_0.
  destruct (decide (n < k)).
  - assert (Hq : c = c / 2 ^ k * 2 ^ k).
    { pose proof (Z.div_mod c (2 ^ k)). lia. }
    rewrite Hq, Z.mul_pow2_bits_low by lia. done.
  - rewrite <- (Z.mod_small x (2 ^ k)) by lia.
    rewrite Z.mod_pow2_bits_high by lia. apply andb_false_r.
Qed.

Lemma lor_disjoint (c x k : Z) :
  0 <= k -> c mod 2 ^ k = 0 -> 0 <= x < 2 ^ k -> Z.lor c x = c + x.
Proof.
  intros Hk Hc Hx. pose proof (Z.add_lor_land c x) as H.
  rewrite (land_disjoint c x k) in H by done. lia.
Qed.

Lemma land_low (c x k : Z) :
  0 <= k -> c mod 2 ^ k = 0 -> 0 <= x < 2 ^ k -> Z.land (c + x) (Z.ones k) = x.
Proof.
  intros Hk Hc Hx. rewrite Z.land_ones by done.
  rewrite Z.add_mod, Hc, Z.add_0_l, Z.mod_mod, Z.mod_small by lia. done.
Qed.

Ltac first_is := unfold utf8.first, between; repeat case_match; first [lia | reflexivity].

Lemma Decode_bytes2 (a b : Z) (rest : string) :
  2 <= a < 32 -> 0 <= b < 64 ->
  utf8.DecodeRuneInString
    (String (byte_of (192 + a)) (String (byte_of (128 + b)) rest))
  = (a * 64 + b, 2%nat).
Proof.
  intros Ha Hb. unfold utf8.DecodeRuneInString.
  rewrite !byte_val_of by lia.
  destruct (192 + a <? 128) eqn:E; [lia|].
  assert (Hf : utf8.first (192 + a) = Some (2%nat, 128, 191)) by first_is.
  rewrite Hf.
  assert (Hs1 : between 128 191 (128 + b) = true) by (unfold between; lia).
  rewrite Hs1. cbn [negb Nat.leb].
  change 31 with (Z.ones 5). change 63 with (Z.ones 6).
  rewrite (land_low 192 a 5), (land_low 128 b 6) by (done || lia).
  rewrite Z.shiftl_mul_pow2 by lia.
  rewrite (lor_disjoint (a * 2 ^ 6) b 6) by (try apply Z.mod_mul; lia).
  f_equal.
Qed.

Lemma Decode_bytes3 (a b c : Z) (rest : string) :
  0 <= a < 16 -> 0 <= b < 64 -> 0 <= c < 64 ->
  (a = 0 -> 32 <= b) -> (a = 13 -> b < 32) ->
  utf8.DecodeRuneInString
    (String (byte_of (224 + a))
       (String (byte_of (128 + b)) (String (byte_of (128 + c)) rest)))
  = (a * 4096 + b * 64 + c, 3%nat).
Proof.
  intros Ha Hb Hc H0 H13. unfold utf8.DecodeRuneInString.
  rewrite !byte_val_of by lia.
  destruct (224 + a <? 128) eqn:E; [lia|].
  assert (Hf : exists lo hi, utf8.first (224 + a) = Some (3%nat, lo, hi) /\
                             between lo hi (128 + b) = true).
  { destruct (decide (a = 0)) as [->|]; [exists 160, 191; split; [reflexivity|unfold between; lia]|].
    destruct (decide (a = 13)) as [->|]; [exists 128, 159; split; [reflexivity|unfold between; lia]|].
    exists 128, 191. split; [first_is | unfold between; lia]. }
  destruct Hf as (lo & hi & -> & ->).
  assert (Hs2 : between 128 191 (128 + c) = true) by (unfold between; lia).
  rewrite Hs2. cbn [negb Nat.leb].
  change 15 with (Z.ones 4). change 63 with (Z.ones 6).
  rewrite (land_low 224 a 4), (land_low 128 b 6), (land_low 128 c 6) by (done || lia).
  rewrite !Z.shiftl_mul_pow2 by lia.
  rewrite (lor_disjoint (b * 2 ^ 6) c 6) by (try apply Z.mod_mul; lia).
  rewrite (lor_disjoint (a * 2 ^ 12) (b * 2 ^ 6 + c) 12) by (try apply Z.mod_mul; lia).
  f_equal. lia.
Qed.

Lemma Decode_bytes4 (a b c d : Z) (rest : string) :
  0 <= a <= 4 -> 0 <= b < 64 -> 0 <= c < 64 -> 0 <= d < 64 ->
  (a = 0 -> 16 <= b) -> (a = 4 -> b < 16) ->
  utf8.DecodeRuneInString
    (String (byte_of (240 + a))
       (String (byte_of (128 + b))
          (String (byte_of (128 + c)) (String (byte_of (128 + d)) rest))))
  = (a * 262144 + b * 4096 + c * 64 + d, 4%nat).
Proof.
  intros Ha Hb Hc Hd H0 H4. unfold utf8.DecodeRuneInString.
  rewrite !byte_val_of by lia.
  destruct (240 + a <? 128) eqn:E; [lia|].
  assert (Hf : exists lo hi, utf8.first (240 + a) = Some (4%nat, lo, hi) /\
                             between lo hi (128 + b) = true).
  { destruct (decide (a = 0)) as [->|]; [exists 144, 191; split; [reflexivity|unfold between; lia]|].
    destruct (decide (a = 4)) as [->|]; [exists 128, 143; split; [reflexivity|unfold between; lia]|].
    exists 128, 191. split; [first_is | unfold between; lia]. }
  destruct Hf as (lo & hi & -> & ->).
  assert (Hs2 : between 128 191 (128 + c) = true) by (unfold between; lia).
  assert (Hs3 : between 128 191 (128 + d) = true) by (unfold between; lia).
  rewrite Hs2, Hs3. cbn [negb Nat.leb].
  change 7 with (Z.ones 3). change 63 with (Z.ones 6).
  rewrite (land_low 240 a 3), (land_low 128 b 6), (land_low 128 c 6),
    (land_low 128 d 6) by (done || lia).
  rewrite !Z.shiftl_mul_pow2 by lia.
  rewrite (lor_disjoint (c * 2 ^ 6) d 6) by (try apply Z.mod_mul; lia).
  rewrite (lor_disjoint (b * 2 ^ 12) (c * 2 ^ 6 + d) 12) by (try apply Z.mod_mul; lia).
  rewrite (lor_disjoint (a * 2 ^ 18) (b * 2 ^ 12 + (c * 2 ^ 6 + d)) 18)
    by (try apply Z.mod_mul; lia).
  f_equal. lia.
Qed.

Lemma bytes3_Decode (u : Z) (rest : string) :
  2048 <= u <= 65535 -> valid_rune u = true ->
  utf8.DecodeRuneInString (utf8.bytes3 u ++ rest) = (u, 3%nat).
Proof.
  intros Hu Hv. unfold utf8.bytes3. rewrite !append_cons.
  change ("" ++ rest)%string with rest.
  rewrite !Z.shiftr_div_pow2 by lia. change 63 with (Z.ones 6).
  rewrite !Z.land_ones by lia.
  set (a := u / 2 ^ 12). set (b := (u / 2 ^ 6) mod 2 ^ 6). set (c := u mod 2 ^ 6).
  assert (Ha : 0 <= a < 16) by (unfold a; Z.div_mod_to_equations; lia).
  assert (Hb : 0 <= b < 64) by (unfold b; Z.div_mod_to_equations; lia).
  assert (Hc : 0 <= c < 64) by (unfold c; Z.div_mod_to_equations; lia).
  assert (Hsum : a * 4096 + b * 64 + c = u)
    by (unfold a, b, c; Z.div_mod_to_equations; lia).
  rewrite (lor_disjoint 224 a 4), !(lor_disjoint 128 _ 6) by (done || lia).
  rewrite Decode_bytes3; [by rewrite Hsum | done..| |].
  - intros H0. unfold valid_rune, between in Hv. lia.
  - intros H13. unfold valid_rune, between in Hv. lia.
Qed.

Lemma Encode_Decode (u : Z) (rest : string) :
  utf8.DecodeRuneInString (utf8.EncodeRune u ++ rest)
  = (written u, String.length (utf8.EncodeRune u)) /\
  (1 <= String.length (utf8.EncodeRune u))%nat.
Proof.
  unfold utf8.EncodeRune, written.
  destruct (between 0 127 u) eqn:E1.
  { assert (Hv : valid_rune u = true) by (unfold valid_rune, between in *; lia).
    rewrite Hv. split; [|simpl; lia]. rewrite append_cons.
    unfold utf8.DecodeRuneInString. rewrite byte_val_of by (unfold between in E1; lia).
    destruct (u <? 128) eqn:E; [done | unfold between in E1; lia]. }
  destruct (between 128 2047 u) eqn:E2.
  { assert (Hv : valid_rune u = true) by (unfold valid_rune, between in *; lia).
    rewrite Hv. split; [|simpl; lia]. rewrite !append_cons.
    change ("" ++ rest)%string with rest.
    rewrite !Z.shiftr_div_pow2 by lia. change 63 with (Z.ones 6).
    rewrite !Z.land_ones by lia.
    assert (Hu : 128 <= u <= 2047) by (unfold between in E2; lia).
    set (a := u / 2 ^ 6). set (b := u mod 2 ^ 6).
    assert (Ha : 2 <= a < 32) by (unfold a; Z.div_mod_to_equations; lia).
    assert (Hb : 0 <= b < 64) by (unfold b; Z.div_mod_to_equations; lia).
    assert (Hsum : a * 64 + b = u) by (unfold a, b; Z.div_mod_to_equations; lia).
    rewrite (lor_disjoint 192 a 5), (lor_disjoint 128 b 6) by (done || lia).
    rewrite Decode_bytes2 by done. by rewrite Hsum. }
  destruct ((u <? 0) || (utf8.MaxRune <? u) || between 55296 57343 u) eqn:E3.
  { assert (Hv : valid_rune u = false)
      by (unfold valid_rune, utf8.MaxRune, between in *; lia).
    rewrite Hv. split; [|simpl; lia].
    apply (bytes3_Decode utf8.RuneError rest); [unfold utf8.RuneError; lia | reflexivity]. }
  assert (Hv : valid_rune u = true)
    by (unfold valid_rune, utf8.MaxRune, between in *; lia).
  rewrite Hv.
  destruct (u <=? 65535) eqn:E4.
  { split; [|simpl; lia]. apply bytes3_Decode; [unfold between in *; lia | done]. }
  split; [|simpl; lia]. rewrite !append_cons. change ("" ++ rest)%string with rest.
  assert (Hu : 65536 <= u <= 1114111) by (unfold utf8.MaxRune, between in *; lia).
  rewrite !Z.shiftr_div_pow2 by lia. change 63 with (Z.ones 6).
  rewrite !Z.land_ones by lia.
  set (a := u / 2 ^ 18). set (b := (u / 2 ^ 12) mod 2 ^ 6).
  set (c := (u / 2 ^ 6) mod 2 ^ 6). set (d := u mod 2 ^ 6).
  assert (Ha : 0 <= a <= 4) by (unfold a; Z.div_mod_to_equations; lia).
  assert (Hb : 0 <= b < 64) by (unfold b; Z.div_mod_to_equations; lia).
  assert (Hc : 0 <= c < 64) by (unfold c; Z.div_mod_to_equations; lia).
  assert (Hd : 0 <= d < 64) by (unfold d; Z.div_mod_to_equations; lia).
  assert (Hsum : a * 262144 + b * 4096 + c * 64 + d = u)
    by (unfold a, b, c, d; Z.div_mod_to_equations; lia).
  assert (H0 : a = 0 -> 16 <= b) by (unfold a, b; Z.div_mod_to_equations; lia).
  assert (H4 : a = 4 -> b < 16) by (unfold a, b; Z.div_mod_to_equations; lia).
  rewrite (lor_disjoint 240 a 3), !(lor_disjoint 128 _ 6) by (done || lia).
  rewrite Decode_bytes4 by done. by rewrite Hsum.
Qed.

(** *** Texts and their runes *)
Lemma length_app_bytes (x y : string) :
  String.length (x ++ y) = (String.length x + String.length y)%nat.
Proof. induction x as [|c x IH]; [done|]. rewrite append_cons. simpl. by rewrite IH. Qed.

Lemma take_skip (n : nat) (s : string) : (take_bytes n s ++ skip_bytes n s)%string = s.
Proof.
  revert s. induction n as [|n IH]; intros [|c s]; try done.
  cbn [take_bytes skip_bytes]. by rewrite append_cons, IH.
Qed.

Lemma take_app (n : nat) (x y : string) :
  (n <= String.length x)%nat -> take_bytes n (x ++ y) = take_bytes n x.
Proof.
  revert x. induction n as [|n IH]; intros [|c x] Hn; try done; simpl in Hn; try lia.
  rewrite append_cons. cbn [take_bytes]. by rewrite IH by lia.
Qed.

Lemma skip_app (n : nat) (x y : string) :
  (n <= String.length x)%nat -> skip_bytes n (x ++ y) = (skip_bytes n x ++ y)%string.
Proof.
  revert x. induction n as [|n IH]; intros [|c x] Hn; try done; simpl in Hn; try lia.
  rewrite append_cons. cbn [skip_bytes]. by rewrite IH by lia.
Qed.

Lemma take_all (x : string) : take_bytes (String.length x) x = x.
Proof. induction x as [|c x IH]; [done|]. simpl. by rewrite IH. Qed.

Lemma skip_all (x : string) : skip_bytes (String.length x) x = "".
Proof. induction x as [|c x IH]; [done|]. done. Qed.

Lemma length_take (n : nat) (s : string) :
  (n <= String.length s)%nat -> String.length (take_bytes n s) = n.
Proof.
  revert s. induction n as [|n IH]; intros [|c s] Hn; try done; simpl in *; try lia.
  by rewrite IH by lia.
Qed.

Lemma length_skip (n : nat) (s : string) :
  String.length (skip_bytes n s) = (String.length s - n)%nat.
Proof. revert s. induction n as [|n IH]; intros [|c s]; try done. simpl. apply IH. Qed.

Lemma append_nil_r (x : string) : (x ++ "")%string = x.
Proof. induction x as [|c x IH]; [done|]. by rewrite append_cons, IH. Qed.

Lemma runes_from_fuel (fuel1 fuel2 : nat) (s : string) :
  (String.length s <= fuel1)%nat -> (String.length s <= fuel2)%nat ->
  runes_from fuel1 s = runes_from fuel2 s.
Proof.
  revert fuel2 s. induction fuel1 as [|fuel1 IH]; intros fuel2 [|c s'] H1 H2;
    simpl in H1; try lia; [by destruct fuel2 | by destruct fuel2 |].
  destruct fuel2 as [|fuel2]; [simpl in H2; lia|].
  cbn [runes_from].
  destruct (utf8.DecodeRuneInString (String c s')) as [r n] eqn:Hd.
  apply Decode_size in Hd as Hn; [|done]. f_equal.
  pose proof (length_skip n (String c s')) as Hskip. simpl in H2, Hn, Hskip.
  apply IH; lia.
Qed.

Lemma runes_from_enough (fuel : nat) (s : string) :
  (String.length s <= fuel)%nat -> runes_from fuel s = runes s.
Proof. intros H. by apply runes_from_fuel. Qed.

Lemma runes_cons (s : string) :
  s <> "" ->
  runes s = (let '(r, n) := utf8.DecodeRuneInString s in
             (r, take_bytes n s) :: runes (skip_bytes n s)).
Proof.
  intros Hs. destruct s as [|c s']; [done|].
  unfold runes at 1. cbn [String.length runes_from].
  destruct (utf8.DecodeRuneInString (String c s')) as [r n] eqn:Hd.
  apply Decode_size in Hd as Hn; [|done]. f_equal.
  apply runes_from_enough. rewrite length_skip. simpl in *. lia.
Qed.

Lemma runes_nil : runes "" = [].
Proof. reflexivity. Qed.

(** Induction on the runes of a text. *)
Lemma runes_ind (P : string -> Prop) :
  P "" ->
  (forall s r n, s <> "" -> utf8.DecodeRuneInString s = (r, n) ->
     (1 <= n <= String.length s)%nat -> P (skip_bytes n s) -> P s) ->
  forall s, P s.
Proof.
  intros H0 Hstep s. remember (String.length s) as len eqn:Hlen.
  revert s Hlen. induction len as [len IH] using lt_wf_ind. intros s Hlen.
  destruct (decide (s = "")) as [->|Hs]; [done|].
  destruct (utf8.DecodeRuneInString s) as [r n] eqn:Hd.
  pose proof (Decode_size s r n Hs Hd) as Hn.
  apply (Hstep s r n Hs Hd Hn).
  apply (IH (String.length (skip_bytes n s))); [|done].
  rewrite length_skip. lia.
Qed.

Lemma runes_concat (s : string) : concat_strings (snd <$> runes s) = s.
Proof.
  induction s as [|s r n Hs Hd Hn IH] using runes_ind; [done|].
  rewrite (runes_cons s Hs), Hd. cbn [fmap list_fmap snd concat_strings].
  change (list_fmap _ _ snd (runes (skip_bytes n s))) with (snd <$> runes (skip_bytes n s)).
  by rewrite IH, take_skip.
Qed.

Lemma runes_Encode_app (u : Z) (rest : string) :
  runes (utf8.EncodeRune u ++ rest)
  = (written u, utf8.EncodeRune u) :: runes rest.
Proof.
  destruct (Encode_Decode u rest) as [Hd Hlen].
  rewrite runes_cons.
  - rewrite Hd. rewrite take_app, skip_app by lia.
    by rewrite take_all, skip_all.
  - intros H. apply (f_equal String.length) in H.
    rewrite length_app_bytes in H. simpl in H. lia.
Qed.

Lemma runes_app_sync (x y : string) :
  starts_rune y -> runes (x ++ y) = runes x ++ runes y.
Proof.
  intros Hy. induction x as [|x r n Hx Hd Hn IH] using runes_ind; [done|].
  assert (Hxy : (x ++ y)%string <> "").
  { intros H. apply (f_equal String.length) in H.
    rewrite length_app_bytes in H. simpl in H. lia. }
  rewrite (runes_cons _ Hxy), (runes_cons _ Hx), Decode_app_sync, Hd by done.
  rewrite take_app, skip_app by lia. by rewrite IH.
Qed.

(** *** The tables of case mappings *)
Lemma mapped_cases (tab : list (Z * Z * Z * Z)) (r : Z) :
  unicode.mapped tab r = r \/
  exists lo hi stride delta,
    (lo, hi, stride, delta) ∈ tab /\ lo <= r <= hi /\ (r - lo) mod stride = 0 /\
    unicode.mapped tab r = r + delta.
Proof.
  unfold unicode.mapped.
  destruct (List.find _ tab) as [[[[lo hi] stride] delta]|] eqn:Hf; [|by left].
  right. apply find_some in Hf as [Hin Hr]. exists lo, hi, stride, delta.
  destruct (between lo hi r) eqn:Hb; [|done]. unfold between in Hb.
  split; [by apply list_elem_of_In|]. split; [lia|]. split; [lia | done].
Qed.

Lemma table_forall_spec (tab : list (Z * Z * Z * Z)) (P : Z -> bool) (r : Z) :
  table_forall tab P = true -> unicode.mapped tab r <> r -> P r = true.
Proof.
  intros Hall Hr. destruct (mapped_cases tab r) as [|(lo & hi & st & d & Hin & Hb & Hm & _)];
    [done|].
  unfold table_forall in Hall. rewrite forallb_forall in Hall.
  specialize (Hall _ (proj1 (list_elem_of_In _ _) Hin)).
  apply andb_true_iff in Hall as [Hst Hall]. cbn in Hst.
  rewrite forallb_forall in Hall. apply Hall. apply list_elem_of_In.
  unfold entry_runes. apply list_elem_of_fmap.
  exists (Z.to_nat ((r - lo) / st)). split.
  - rewrite Z2Nat.id by (apply Z.div_pos; lia).
    pose proof (Z.div_mod (r - lo) st). lia.
  - apply elem_of_seq. split; [lia|].
    assert ((r - lo) / st <= (hi - lo) / st) by (apply Z.div_le_mono; lia).
    assert (0 <= (r - lo) / st) by (apply Z.div_pos; lia). lia.
Qed.

Lemma upper_table_ok : table_forall unicode.upper_ranges upper_ok = true.
Proof. vm_compute. reflexivity. Qed.

Lemma upper_ok_all (r : Z) : 0 <= r -> upper_ok r = true.
Proof.
  intros Hr. destruct (decide (r <= 127)) as [Hlow|Hhigh].
  - assert (Hcases : r ∈ (Z.of_nat <$> seq 0 128)).
    { apply list_elem_of_fmap. exists (Z.to_nat r). split; [lia|].
      apply elem_of_seq. lia. }
    assert (Hall : forallb upper_ok (Z.of_nat <$> seq 0 128) = true)
      by (vm_compute; reflexivity).
    rewrite forallb_forall in Hall. by apply Hall, list_elem_of_In.
  - destruct (decide (unicode.mapped unicode.upper_ranges r = r)) as [Heq|Hne].
    + assert (Hup : unicode.ToUpper r = r).
      { unfold unicode.ToUpper. destruct (r <=? 127) eqn:E; [lia | done]. }
      unfold upper_ok. cbv zeta. rewrite !Hup, Z.eqb_refl, eqb_reflx.
      destruct (0 <=? r) eqn:E; [done | lia].
    + exact (table_forall_spec unicode.upper_ranges upper_ok r upper_table_ok Hne).
Qed.

Lemma ToUpper_rune_idem (r : Z) :
  0 <= r -> unicode.ToUpper (unicode.ToUpper r) = unicode.ToUpper r.
Proof.
  intros Hr. pose proof (upper_ok_all r Hr) as H. unfold upper_ok in H.
  cbv zeta in H. rewrite !andb_true_iff in H. lia.
Qed.

Lemma ToUpper_rune_nonneg (r : Z) : 0 <= r -> 0 <= unicode.ToUpper r.
Proof.
  intros Hr. pose proof (upper_ok_all r Hr) as H. unfold upper_ok in H.
  cbv zeta in H. rewrite !andb_true_iff in H. lia.
Qed.

Lemma ToUpper_rune_space (r : Z) :
  0 <= r -> unicode.IsSpace (unicode.ToUpper r) = unicode.IsSpace r.
Proof.
  intros Hr. pose proof (upper_ok_all r Hr) as H. unfold upper_ok in H.
  cbv zeta in H. rewrite !andb_true_iff in H. destruct H as [_ H]. by apply eqb_prop.
Qed.

(** *** Upper case of a text *)
Lemma runes_nonneg (s : string) (c : Z * string) : c ∈ runes s -> 0 <= c.1.
Proof.
  induction s as [|s r n Hs Hd Hn IH] using runes_ind.
  - rewrite runes_nil. by intros ?%elem_of_nil.
  - rewrite (runes_cons s Hs), Hd. intros [->|Hin]%elem_of_cons; [|by apply IH].
    simpl. by apply (Decode_nonneg s r n).
Qed.

Lemma Encode_invalid (u : Z) :
  valid_rune u = false -> utf8.EncodeRune u = utf8.bytes3 utf8.RuneError.
Proof.
  intros Hv. unfold utf8.EncodeRune.
  destruct (between 0 127 u) eqn:E1; [unfold valid_rune, between in *; lia|].
  destruct (between 128 2047 u) eqn:E2; [unfold valid_rune, between in *; lia|].
  destruct ((u <? 0) || (utf8.MaxRune <? u) || between 55296 57343 u) eqn:E3; [done|].
  unfold valid_rune, utf8.MaxRune, between in *. lia.
Qed.

Lemma runes_encoded (us : list Z) :
  runes (concat_strings (utf8.EncodeRune <$> us))
  = (fun u => (written u, utf8.EncodeRune u)) <$> us.
Proof.
  induction us as [|u us IH]; [done|].
  rewrite !fmap_cons. cbn [concat_strings]. by rewrite runes_Encode_app, IH.
Qed.

Lemma Map_nonneg (f : Z -> Z) (s : string) :
  (forall c, c ∈ runes s -> 0 <= f c.1) ->
  Map f s = concat_strings (utf8.EncodeRune <$> (f ∘ fst <$> runes s)).
Proof.
  unfold Map. induction (runes s) as [|c l IH]; intros Hf; [done|].
  rewrite !fmap_cons. cbn [concat_strings].
  rewrite IH by (intros c' Hc'; apply Hf; by right).
  destruct (f c.1 <? 0) eqn:E; [|done].
  assert (Hc : c ∈ c :: l) by (by left). specialize (Hf c Hc). lia.
Qed.

Lemma ToUpper_unfold (s : string) :
  ToUpper s
  = concat_strings (utf8.EncodeRune <$> (unicode.ToUpper ∘ fst <$> runes s)).
Proof.
  apply Map_nonneg. intros c Hc. by apply ToUpper_rune_nonneg, (runes_nonneg s).
Qed.

Lemma runes_ToUpper (s : string) :
  runes (ToUpper s)
  = (fun c : Z * string => (written (unicode.ToUpper c.1),
                            utf8.EncodeRune (unicode.ToUpper c.1))) <$> runes s.
Proof. by rewrite ToUpper_unfold, runes_encoded, <- list_fmap_compose. Qed.

Lemma Encode_upper_written (v : Z) :
  0 <= v -> unicode.ToUpper v = v ->
  utf8.EncodeRune (unicode.ToUpper (written v)) = utf8.EncodeRune v.
Proof.
  intros Hv Hup. unfold written. destruct (valid_rune v) eqn:E; [by rewrite Hup|].
  by rewrite (Encode_invalid v).
Qed.

Lemma ToUpper_idem (s : string) : ToUpper (ToUpper s) = ToUpper s.
Proof.
  rewrite (ToUpper_unfold (ToUpper s)), runes_ToUpper, (ToUpper_unfold s).
  f_equal. rewrite <- !list_fmap_compose. apply list_fmap_ext.
  intros i c Hc. apply list_elem_of_lookup_2, runes_nonneg in Hc. cbn.
  apply Encode_upper_written; [by apply ToUpper_rune_nonneg | by apply ToUpper_rune_idem].
Qed.

(** *** Dropping at both ends *)
Section Drop.

Context {A : Type} (f : A -> bool).

Lemma drop_while_suffix (l : list A) : exists front, l = front ++ drop_while f l.
Proof.
  induction l as [|x l [front IH]]; [by exists []|]. cbn [drop_while].
  destruct (f x); [|by exists []]. exists (x :: front). by rewrite IH at 1.
Qed.

Lemma drop_end_prefix (l : list A) :
  exists back, l = drop_end f l ++ back /\ Forall (fun x => f x = true) back.
Proof.
  induction l as [|x l (back & IH & Hback)]; [by exists []|]. cbn [drop_end].
  destruct (drop_end f l) as [|y kept] eqn:E.
  - destruct (f x) eqn:Hx.
    + exists (x :: back). split; [by rewrite IH at 1 | by constructor].
    + exists back. split; [by rewrite IH at 1 | done].
  - exists back. split; [by rewrite IH at 1 | done].
Qed.

Lemma drop_while_starts (l : list A) : starts_kept f (drop_while f l).
Proof.
  induction l as [|x l IH]; [done|]. cbn [drop_while].
  by destruct (f x) eqn:E.
Qed.

Lemma drop_while_kept (l : list A) : starts_kept f l -> drop_while f l = l.
Proof. destruct l as [|x l]; [done|]. simpl. by intros ->. Qed.

Lemma drop_end_starts (l : list A) : starts_kept f l -> starts_kept f (drop_end f l).
Proof.
  destruct l as [|x l]; [done|]. cbn [starts_kept drop_end]. intros Hx.
  destruct (drop_end f l); [by rewrite Hx | done].
Qed.

Lemma drop_end_idem (l : list A) : drop_end f (drop_end f l) = drop_end f l.
Proof.
  induction l as [|x l IH]; [done|]. cbn [drop_end].
  destruct (drop_end f l) as [|y kept] eqn:E.
  - destruct (f x) eqn:Hx; [done|]. cbn [drop_end]. by rewrite Hx.
  - cbn [drop_end]. cbn [drop_end] in IH. by rewrite IH.
Qed.

Lemma trim_idem (l : list A) :
  drop_end f (drop_while f (drop_end f (drop_while f l)))
  = drop_end f (drop_while f l).
Proof.
  rewrite (drop_while_kept (drop_end f (drop_while f l))).
  - apply drop_end_idem.
  - apply drop_end_starts, drop_while_starts.
Qed.

Lemma trim_elem (l : list A) (x : A) :
  x ∈ drop_end f (drop_while f l) -> x ∈ l.
Proof.
  intros Hx. destruct (drop_while_suffix l) as [front Hl].
  destruct (drop_end_prefix (drop_while f l)) as (back & Hm & _).
  rewrite Hl, Hm, !elem_of_app. auto.
Qed.

End Drop.

Lemma drop_while_fmap {A B} (f : B -> bool) (h : A -> bool) (g : A -> B) (l : list A) :
  (forall x, x ∈ l -> f (g x) = h x) ->
  drop_while f (g <$> l) = g <$> drop_while h l.
Proof.
  induction l as [|x l IH]; intros Hg; [done|]. rewrite fmap_cons. cbn [drop_while].
  rewrite (Hg x) by (by left). destruct (h x); [|done].
  apply IH. intros y Hy. apply Hg. by right.
Qed.

Lemma drop_end_fmap {A B} (f : B -> bool) (h : A -> bool) (g : A -> B) (l : list A) :
  (forall x, x ∈ l -> f (g x) = h x) ->
  drop_end f (g <$> l) = g <$> drop_end h l.
Proof.
  induction l as [|x l IH]; intros Hg; [done|]. rewrite fmap_cons. cbn [drop_end].
  rewrite IH by (intros y Hy; apply Hg; by right).
  rewrite (Hg x) by (by left).
  destruct (drop_end h l); [by destruct (h x) | done].
Qed.

(** *** White space at the ends of a text *)
Lemma concat_strings_app (l1 l2 : list string) :
  concat_strings (l1 ++ l2) = (concat_strings l1 ++ concat_strings l2)%string.
Proof.
  induction l1 as [|x l1 IH]; [done|]. cbn [app concat_strings].
  by rewrite IH, append_assoc3.
Qed.

Lemma runes_empty (x : string) : runes x = [] -> x = "".
Proof.
  intros H. destruct (decide (x = "")) as [|Hx]; [done|].
  rewrite (runes_cons x Hx) in H. by destruct (utf8.DecodeRuneInString x).
Qed.

Lemma runes_suffix (front back : list (Z * string)) (x : string) :
  runes x = front ++ back -> runes (concat_strings (snd <$> back)) = back.
Proof.
  revert x. induction front as [|a front IH]; intros x Hx.
  - cbn [app] in Hx. rewrite <- Hx. by rewrite runes_concat.
  - destruct (decide (x = "")) as [->|Hne]; [done|].
    rewrite (runes_cons x Hne) in Hx.
    destruct (utf8.DecodeRuneInString x) as [r n]. injection Hx as _ Hx.
    by apply (IH (skip_bytes n x)).
Qed.

Lemma IsSpace_valid (r : Z) : unicode.IsSpace r = true -> valid_rune r = true.
Proof. unfold unicode.IsSpace, valid_rune, between. lia. Qed.

Lemma spaces_start (y : string) :
  Forall (fun c => is_space c = true) (runes y) -> starts_rune y.
Proof.
  destruct y as [|d y]; [done|]. intros Hall. cbn [starts_rune].
  destruct (between 128 191 (byte_val d)) eqn:Hd; [|done].
  rewrite runes_cons, (Decode_cont d y Hd) in Hall by done.
  apply Forall_cons in Hall as [Hsp _]. done.
Qed.

Lemma runes_prefix (kept back : list (Z * string)) (x : string) :
  runes x = kept ++ back -> Forall (fun c => is_space c = true) back ->
  runes (concat_strings (snd <$> kept)) = kept.
Proof.
  intros Hx Hback.
  pose proof (runes_suffix kept back x Hx) as Hy.
  pose proof (runes_concat x) as Hc.
  rewrite Hx, fmap_app, concat_strings_app in Hc.
  assert (Hstart : starts_rune (concat_strings (snd <$> back)))
    by (apply spaces_start; by rewrite Hy).
  pose proof (runes_app_sync (concat_strings (snd <$> kept)) _ Hstart) as Happ.
  rewrite Hc, Hx, Hy in Happ. by apply app_inv_tail in Happ.
Qed.

Lemma runes_TrimSpace (s : string) :
  runes (TrimSpace s) = drop_end is_space (drop_while is_space (runes s)).
Proof.
  unfold TrimSpace.
  destruct (drop_while_suffix is_space (runes s)) as [front Hfront].
  destruct (drop_end_prefix is_space (drop_while is_space (runes s)))
    as (back & Hback & Hsp).
  apply (runes_prefix _ back (concat_strings (snd <$> drop_while is_space (runes s))));
    [|done].
  rewrite (runes_suffix front _ s Hfront). exact Hback.
Qed.

Lemma TrimSpace_idem (s : string) : TrimSpace (TrimSpace s) = TrimSpace s.
Proof.
  unfold TrimSpace at 1. rewrite runes_TrimSpace, trim_idem. reflexivity.
Qed.

Lemma is_space_upper (c : Z * string) :
  0 <= c.1 ->
  is_space (written (unicode.ToUpper c.1), utf8.EncodeRune (unicode.ToUpper c.1))
  = is_space c.
Proof.
  intros Hc. unfold is_space. cbn [fst].
  rewrite <- (ToUpper_rune_space c.1 Hc). unfold written.
  destruct (valid_rune (unicode.ToUpper c.1)) eqn:Hv; [done|].
  destruct (unicode.IsSpace (unicode.ToUpper c.1)) eqn:Hs; [|done].
  apply IsSpace_valid in Hs. congruence.
Qed.

Lemma TrimSpace_ToUpper (s : string) : TrimSpace (ToUpper s) = ToUpper (TrimSpace s).
Proof.
  rewrite (ToUpper_unfold (TrimSpace s)), runes_TrimSpace.
  unfold TrimSpace. rewrite runes_ToUpper.
  set (g := fun c : Z * string =>
              (written (unicode.ToUpper c.1), utf8.EncodeRune (unicode.ToUpper c.1))).
  assert (Hg : forall c, c ∈ runes s -> is_space (g c) = is_space c).
  { intros c Hc. apply is_space_upper, (runes_nonneg s c Hc). }
  rewrite (drop_while_fmap is_space is_space g (runes s) Hg).
  rewrite (drop_end_fmap is_space is_space g).
  - rewrite <- !list_fmap_compose. reflexivity.
  - intros c Hc. apply Hg.
    destruct (drop_while_suffix is_space (runes s)) as [front Hfront].
    rewrite Hfront. apply elem_of_app. by right.
Qed.

(** The button payload is normalised once and for all. *)
Lemma normalise_idem (data : string) :
  ToUpper (TrimSpace (ToUpper (TrimSpace data))) = ToUpper (TrimSpace data).
Proof. by rewrite TrimSpace_ToUpper, TrimSpace_idem, ToUpper_idem. Qed.

(** ** What a handler touches *)

Section Preserves.

Context {S : Type}.

Lemma touches_only_refl u (w : World S) : touches_only u w w.
Proof. split; [done|]. exists []. by rewrite app_nil_r. Qed.

Lemma touches_only_trans u (w1 w2 w3 : World S) :
  touches_only u w1 w2 -> touches_only u w2 w3 -> touches_only u w1 w3.
Proof.
  intros [H1 [e1 E1]] [H2 [e2 E2]]. split.
  - intros v Hv. by rewrite H2, H1.
  - exists (e1 ++ e2). by rewrite E2, E1, app_assoc.
Qed.

Lemma preserves_ret {A} u (a : A) : preserves (S := S) u (ret a).
Proof. intros w a' w' [= _ <-]. apply touches_only_refl. Qed.

Lemma preserves_panic {A} u : preserves (S := S) (A := A) u panic.
Proof. intros w a w'. discriminate. Qed.

Lemma preserves_bind {A B} u (c : M S A) (k : A -> M S B) :
  preserves u c -> (forall a, preserves u (k a)) -> preserves u (bind c k).
Proof.
  intros Hc Hk w b w'. unfold bind.
  destruct (c w) as [[a w1]|] eqn:E; [|discriminate].
  intros H. eapply touches_only_trans; [by eapply Hc | by eapply Hk].
Qed.

Lemma preserves_send u (e : Effect) : preserves (S := S) u (send e).
Proof. intros w a w' [= _ <-]. split; [done|]. by exists [e]. Qed.

Lemma preserves_getUser u v : preserves (S := S) u (getUser v).
Proof. intros w a w' [= _ <-]. apply touches_only_refl. Qed.

Lemma preserves_putUser u (st : S) : preserves u (putUser u st).
Proof.
  intros w a w' [= _ <-]. split.
  - intros v Hv. simpl. by rewrite lookup_insert_ne.
  - exists []. simpl. by rewrite app_nil_r.
Qed.

Lemma preserves_delUser u : preserves (S := S) u (delUser u).
Proof.
  intros w a w' [= _ <-]. split.
  - intros v Hv. simpl. by rewrite lookup_delete_ne.
  - exists []. simpl. by rewrite app_nil_r.
Qed.

Lemma preserves_index {A} u (l : list A) (i : Z) : preserves (S := S) u (index l i).
Proof.
  intros w a w' H. apply index_Some in H as (-> & _). apply touches_only_refl.
Qed.

End Preserves.

(** Walks through a handler: binds, branches and the primitives. *)
Ltac preserves_tac :=
  unfold mbind, M_bind, mret, M_ret, answerCallback;
  repeat first
    [ apply preserves_ret | apply preserves_panic | apply preserves_send
    | apply preserves_getUser | apply preserves_putUser | apply preserves_delUser
    | apply preserves_index
    | apply preserves_bind; [|intros ?]
    | match goal with
      | |- preserves _ (match ?x with _ => _ end) => destruct x
      | |- preserves _ (let '(_, _) := ?x in _) => destruct x
      end ].

Lemma sendQuestion_preserves qm chatID userID :
  preserves userID (sendQuestion qm chatID userID).
Proof. unfold sendQuestion. preserves_tac. Qed.

Lemma handleStartCommand_preserves qm message :
  preserves (msg_From message) (handleStartCommand qm message).
Proof. unfold handleStartCommand. cbn zeta. preserves_tac. Qed.

Lemma handleRestartCommand_preserves qm message :
  preserves (msg_From message) (handleRestartCommand qm message).
Proof.
  unfold handleRestartCommand. cbn zeta. preserves_tac.
Qed.

Lemma on_answer_preserves qm userID chatID data state :
  preserves userID (on_answer qm userID chatID data state).
Proof.
  unfold on_answer. cbn zeta. preserves_tac.
Qed.

Lemma handleCallbackQuery_body_preserves qm rnd callback st :
  preserves (cb_From callback)
    (match st with
     | None => send (MsgNoSession (cb_Chat callback))
     | Some state =>
         if String.eqb (SetupStep state) "select_theme" then
           on_select_theme (cb_From callback) (cb_Chat callback) (cb_Data callback) state
         else if String.eqb (SetupStep state) "select_order" then
           on_select_order qm rnd (cb_From callback) (cb_Chat callback)
             (cb_Data callback) state
         else on_answer qm (cb_From callback) (cb_Chat callback) (cb_Data callback) state
     end).
Proof.
  destruct st as [state|]; [|apply preserves_send].
  destruct (String.eqb (SetupStep state) "select_theme");
    [|destruct (String.eqb (SetupStep state) "select_order")].
  - unfold on_select_theme. cbn zeta. preserves_tac.
  - unfold on_select_order. cbn zeta. preserves_tac.
  - apply on_answer_preserves.
Qed.

Lemma handleCallbackQuery_preserves qm rnd callback :
  preserves (cb_From callback) (handleCallbackQuery qm rnd callback).
Proof.
  unfold handleCallbackQuery. cbn zeta. unfold mbind, M_bind.
  apply preserves_bind; [|intros; apply preserves_send].
  apply preserves_bind; [apply preserves_getUser|].
  intros st. apply handleCallbackQuery_body_preserves.
Qed.

(** X1.  An update changes the session of no user but the ones it comes
    from. *)
Theorem update_leaves_others (qm : Themes) (rnd : nat -> nat) (update : Update)
    (w w' : World UserState) (v : Z) :
  handleUpdate qm rnd update w = Some (tt, w') ->
  v ∉ senders update ->
  Users w' !! v = Users w !! v.
Proof.
  unfold handleUpdate, senders. unfold mbind at 1, M_bind at 1, bind at 1.
  match goal with |- context [match ?c w with _ => _ end] =>
    destruct (c w) as [[[] w1]|] eqn:H1; [|discriminate] end.
  intros H2 Hv. rewrite elem_of_app in Hv.
  transitivity (Users w1 !! v).
  - destruct (upd_CallbackQuery update) as [callback|]; [|by injection H2 as <-].
    apply (handleCallbackQuery_preserves qm rnd callback _ _ _ H2).
    intros ->. apply Hv. right. by left.
  - destruct (upd_Message update) as [message|]; [|by injection H1 as <-].
    assert (Hm : v <> msg_From message) by (intros ->; apply Hv; left; by left).
    destruct (msg_Command message) as [cmd|]; [|by injection H1 as <-].
    destruct (String.eqb cmd "start");
      [by apply (handleStartCommand_preserves qm message _ _ _ H1)|].
    destruct (String.eqb cmd "help");
      [revert H1; unfold handleHelpCommand; unfold_M; by intros [= <-]|].
    destruct (String.eqb cmd "restart");
      [by apply (handleRestartCommand_preserves qm message _ _ _ H1)|].
    revert H1. unfold_M. by intros [= <-].
Qed.

Lemma update_leaves_others_witness :
  Users (Scene.step_of (handleUpdate Demo.bank Demo.no_rnd
                          (press_from 7 70 "c4" "A") Scene.world2)) !! 8
  = Users Scene.world2 !! 8.
Proof.
  apply (update_leaves_others Demo.bank Demo.no_rnd (press_from 7 70 "c4" "A")
           Scene.world2).
  - vm_compute. reflexivity.
  - unfold senders, press_from. simpl.
    rewrite elem_of_cons, elem_of_nil. intros [H|[]]. discriminate.
Defined.

(** X2.  A button press that is handled is acknowledged, as the last thing
    the handler sends, and nothing sent before is taken back. *)
Theorem callback_acknowledged_last (qm : Themes) (rnd : nat -> nat)
    (callback : CallbackQuery) (w w' : World UserState) :
  handleCallbackQuery qm rnd callback w = Some (tt, w') ->
  exists effs,
    outbox w' = outbox w ++ effs ++ [CallbackAnswered (cb_ID callback)].
Proof.
  unfold handleCallbackQuery. cbn zeta.
  unfold mbind at 1, M_bind at 1, bind at 1.
  match goal with |- context [match ?c w with _ => _ end] =>
    destruct (c w) as [[[] w1]|] eqn:H1; [|discriminate] end.
  unfold answerCallback, send. intros [= <-]. simpl.
  assert (Hpre : touches_only (cb_From callback) w w1).
  { revert H1. unfold mbind, M_bind. apply preserves_bind.
    - apply preserves_getUser.
    - intros st. apply handleCallbackQuery_body_preserves. }
  destruct Hpre as [_ [effs ->]]. exists effs. by rewrite app_assoc.
Qed.

Lemma callback_acknowledged_last_witness :
  exists effs,
    outbox (Scene.step_of (handleCallbackQuery Demo.bank Demo.no_rnd
                             (Demo.press 7 "B") Demo.world1))
    = outbox Demo.world1 ++ effs ++ [CallbackAnswered (cb_ID (Demo.press 7 "B"))].
Proof.
  apply (callback_acknowledged_last Demo.bank Demo.no_rnd (Demo.press 7 "B")
           Demo.world1).
  vm_compute. reflexivity.
Defined.

(** ** One answer, exactly *)

Lemma current_question_covered questions st :
  0 <= CurrentQuestion st < len questions ->
  order_covers questions (QuestionOrder st) ->
  exists idx q,
    QuestionOrder st !! Z.to_nat (CurrentQuestion st) = Some idx /\
    0 <= idx < len questions /\
    questions !! Z.to_nat idx = Some q /\
    current_question questions st = Some q.
Proof.
  intros Hpos Hcov.
  destruct (Hcov (Z.to_nat (CurrentQuestion st))) as (idx & Hidx & Hr).
  { unfold len in Hpos. lia. }
  destruct (lookup_lt_is_Some_2 questions (Z.to_nat idx)) as [q Hq].
  { unfold len in Hr. lia. }
  exists idx, q. unfold current_question. by rewrite Hidx.
Qed.

Lemma sendQuestion_exact qm chatID userID w st questions q :
  Users w !! userID = Some st ->
  qm !! SelectedTheme st = Some questions ->
  0 <= CurrentQuestion st < len questions ->
  order_covers questions (QuestionOrder st) ->
  current_question questions st = Some q ->
  sendQuestion qm chatID userID w
  = Some (tt, {| Users := Users w; outbox := outbox w ++ [question_msg chatID q] |}).
Proof.
  intros Hst Hqs Hpos Hcov Hq.
  destruct (current_question_covered questions st Hpos Hcov)
    as (idx & q' & Hidx & Hr & Hq' & Hcur).
  assert (q' = q) by congruence. subst q'.
  unfold sendQuestion. unfold_M. rewrite Hst, Hqs.
  destruct (len questions =? 0) eqn:E0; [lia|].
  destruct (len questions <=? CurrentQuestion st) eqn:E1; [lia|].
  rewrite (index_in_range _ _ idx) by (done || lia).
  destruct (len questions <=? idx) eqn:E2; [lia|].
  rewrite (index_in_range _ _ q) by (done || lia).
  reflexivity.
Qed.

Lemma answer_step (qm : Themes) (rnd : nat -> nat) (callback : CallbackQuery)
    (w : World UserState) (st : UserState) (questions : list Question)
    (q : Question) :
  bank_fits qm ->
  Users w !! cb_From callback = Some st ->
  phase st = InProgress ->
  session_inv st ->
  qm !! SelectedTheme st = Some questions ->
  order_covers questions (QuestionOrder st) ->
  CurrentQuestion st < len questions ->
  current_question questions st = Some q ->
  CorrectAnswer q <> [] ->
  handleCallbackQuery qm rnd callback w
  = Some (tt, answer_outcome callback st questions q w).
Proof.
  intros Hfit Hst Hph Hinv Hqs Hcov Hlt Hq Hca.
  destruct (phase_InProgress _ Hph) as [Hne1 Hne2].
  assert (Hpos : 0 <= CurrentQuestion st) by (destruct Hinv; lia).
  destruct (current_question_covered questions st (conj Hpos Hlt) Hcov)
    as (idx & q' & Hidx & Hr & Hq' & Hcur).
  assert (q' = q) by congruence. subst q'.
  set (hit := is_hit q (cb_Data callback)).
  set (st' := answered st hit).
  assert (Hbody :
    on_answer qm (cb_From callback) (cb_Chat callback) (cb_Data callback) st w
    = after_answer qm (cb_From callback) (cb_Chat callback)
        (feedback q (cb_Data callback)) st' questions w).
  { rewrite on_answer_unfold, Hqs.
    destruct (len questions =? 0) eqn:E0; [lia|].
    destruct (len questions <=? CurrentQuestion st) eqn:E1; [lia|].
    rewrite (index_in_range _ _ idx) by done.
    rewrite (index_in_range _ _ q) by (done || lia).
    cbn zeta.
    pose proof (set_fields_answered qm Hfit st questions false Hinv Hqs Hlt) as Hmiss.
    pose proof (set_fields_answered qm Hfit st questions true Hinv Hqs Hlt) as Hhit.
    simpl in Hmiss, Hhit. unfold st', hit, is_hit, feedback. cbn zeta.
    destruct (String.eqb (ToUpper (TrimSpace (cb_Data callback))) "");
      simpl; [by rewrite Hmiss|].
    destruct (contains (CorrectAnswer q) (ToUpper (TrimSpace (cb_Data callback))));
      [by rewrite Hhit|].
    destruct (CorrectAnswer q) as [|c rest] eqn:Hc; [done|].
    rewrite (index_in_range _ _ c) by (done || lia).
    by rewrite Hmiss. }
  unfold handleCallbackQuery. cbn zeta.
  unfold mbind at 1, M_bind at 1, bind at 1.
  unfold mbind at 1, M_bind at 1, bind at 1.
  unfold getUser at 1. rewrite Hst, Hne1, Hne2, Hbody.
  unfold answer_outcome. fold hit. fold st'. cbn zeta.
  unfold after_answer. unfold_M.
  destruct (CurrentQuestion st' <? len questions) eqn:E.
  - assert (Hpos' : 0 <= CurrentQuestion st' < len questions) by (simpl in *; lia).
    destruct (current_question_covered questions st' Hpos' Hcov)
      as (idx' & q2 & _ & _ & _ & Hcur').
    rewrite Hcur'.
    rewrite (sendQuestion_exact qm _ _ _ st' questions q2);
      [|apply lookup_insert_eq | done | done | done | done].
    simpl. by rewrite <- !app_assoc.
  - simpl. by rewrite delete_insert_eq, <- !app_assoc.
Qed.

(** ** A quiz from the first press to the last *)

Lemma handleUpdate_press qm rnd user chat id data w :
  handleUpdate qm rnd (press_from user chat id data) w
  = handleCallbackQuery qm rnd
      {| cb_ID := id; cb_From := user; cb_Chat := chat; cb_Data := data |} w.
Proof. reflexivity. Qed.

Section Quiz.

Variable qm : Themes.
Variable rnd : nat -> nat.
Variables (user chat : Z) (id : string).
Variable questions : list Question.
Hypothesis qm_fits : bank_fits qm.
Hypothesis keyed : Forall (fun q => CorrectAnswer q <> []) questions.

Lemma quiz_runs (datas : list string) :
  forall (st : UserState) (w : World UserState),
    Users w !! user = Some st ->
    phase st = InProgress ->
    session_inv st ->
    qm !! SelectedTheme st = Some questions ->
    order_covers questions (QuestionOrder st) ->
    datas <> [] ->
    len datas = len questions - CurrentQuestion st ->
    exists w' effs,
      run qm ((fun data => (rnd, press_from user chat id data)) <$> datas) w = Some w' /\
      Users w' = delete user (Users w) /\
      outbox w' = outbox w ++ effs ++
        [MsgFinal chat
           (Score st + count_hits questions (QuestionOrder st)
                         (Z.to_nat (CurrentQuestion st)) datas)
           (len questions);
         CallbackAnswered id].
Proof.
  induction datas as [|data rest IH]; intros st w Hst Hph Hinv Hqs Hcov Hne Hlen;
    [done|].
  assert (Hpos : 0 <= CurrentQuestion st) by (destruct Hinv; lia).
  rewrite len_cons in Hlen. pose proof (len_nonneg rest) as Hrest0.
  assert (Hlt : CurrentQuestion st < len questions) by lia.
  destruct (current_question_covered questions st (conj Hpos Hlt) Hcov)
    as (idx & q & Hidx & Hr & Hq & Hcur).
  assert (Hca : CorrectAnswer q <> []).
  { rewrite Forall_forall in keyed. apply keyed. by eapply list_elem_of_lookup_2. }
  rewrite fmap_cons. cbn [run]. rewrite handleUpdate_press.
  rewrite (answer_step qm rnd _ w st questions q) by done.
  unfold answer_outcome. cbn [cb_Data cb_From cb_Chat cb_ID]. cbn zeta.
  set (hit := is_hit q data). set (st' := answered st hit).
  assert (Hscore : Score st' + count_hits questions (QuestionOrder st)
                                 (S (Z.to_nat (CurrentQuestion st))) rest
                   = Score st + count_hits questions (QuestionOrder st)
                                  (Z.to_nat (CurrentQuestion st)) (data :: rest)).
  { cbn [count_hits]. rewrite Hidx, Hq. fold hit. simpl. lia. }
  destruct (CurrentQuestion st' <? len questions) eqn:E.
  - assert (Hrest : rest <> []).
    { intros ->. change (len (@nil string)) with 0 in Hlen.
      change (CurrentQuestion st') with (CurrentQuestion st + 1) in E. lia. }
    match goal with |- context [run qm _ ?x] =>
      edestruct (IH st' x) as (w' & effs & Hrun & Husers & Hout) end.
    + simpl. apply lookup_insert_eq.
    + exact Hph.
    + pose proof (lookup_lt_Some _ _ _ Hidx) as Hlo.
      destruct Hinv as [Hs Hp]. unfold session_inv, st', len. cbn [Score CurrentQuestion QuestionOrder answered].
      destruct hit; lia.
    + exact Hqs.
    + exact Hcov.
    + exact Hrest.
    + change (CurrentQuestion st') with (CurrentQuestion st + 1). lia.
    + exists w'.
      exists (([MsgResult chat (feedback q data) (Score st') (len questions)] ++
               match current_question questions st' with
               | Some q' => [question_msg chat q']
               | None => []
               end ++ [CallbackAnswered id]) ++ effs).
      split; [exact Hrun|]. split.
      * rewrite Husers. simpl. apply delete_insert_eq.
      * change (QuestionOrder st') with (QuestionOrder st) in Hout.
        change (CurrentQuestion st') with (CurrentQuestion st + 1) in Hout.
        replace (Z.to_nat (CurrentQuestion st + 1))
          with (S (Z.to_nat (CurrentQuestion st))) in Hout by lia.
        rewrite Hscore in Hout. rewrite Hout. cbn [outbox].
        by rewrite <- !app_assoc.
  - assert (rest = []) as ->.
    { destruct rest as [|d r]; [done|]. rewrite len_cons in Hlen.
      pose proof (len_nonneg r).
      change (CurrentQuestion st') with (CurrentQuestion st + 1) in E. lia. }
    cbn [fmap list_fmap run]. eexists.
    exists [MsgResult chat (feedback q data) (Score st') (len questions)].
    split; [reflexivity|]. split; [done|]. cbn [outbox app].
    rewrite <- Hscore. cbn [count_hits]. by rewrite Z.add_0_r.
Qed.

End Quiz.

(** X3.  In a reachable world, a user in InProgress who presses a button
    for each of the questions that are left (none of them without correct
    answer) is told the final score - the score so far plus the hits of
    these presses - out of the number of questions, and the session is
    gone; every press was handled. *)
Theorem quiz_completes (qm : Themes) (rnd : nat -> nat) (user chat : Z)
    (id : string) (questions : list Question) (datas : list string)
    (st : UserState) (w : World UserState) :
  bank_fits qm ->
  Forall (fun q => CorrectAnswer q <> []) questions ->
  reachable qm w ->
  Users w !! user = Some st ->
  phase st = InProgress ->
  qm !! SelectedTheme st = Some questions ->
  datas <> [] ->
  len datas = len questions - CurrentQuestion st ->
  exists w' effs,
    run qm ((fun data => (rnd, press_from user chat id data)) <$> datas) w = Some w' /\
    Users w' = delete user (Users w) /\
    outbox w' = outbox w ++ effs ++
      [MsgFinal chat
         (Score st + count_hits questions (QuestionOrder st)
                       (Z.to_nat (CurrentQuestion st)) datas)
         (len questions);
       CallbackAnswered id].
Proof.
  intros Hfit Hkeyed Hreach Hst Hph Hqs Hne Hlen.
  destruct (reachable_ok qm w Hfit Hreach _ _ Hst) as [Hinv Hcov].
  apply (quiz_runs qm rnd user chat id questions Hfit Hkeyed); auto.
Qed.

Lemma scene_reachable_world2 : reachable Demo.bank Scene.world2.
Proof. exists Scene.two_users. vm_compute. reflexivity. Defined.

Lemma scene_world2_user7 :
  Users Scene.world2 !! 7 = Some (started "quizzes/geo.json" [1; 0]).
Proof. vm_compute. reflexivity. Defined.

Lemma demo_bank_keyed : Forall (fun q => CorrectAnswer q <> []) [Demo.q1; Demo.q2].
Proof. repeat constructor; discriminate. Defined.

Lemma quiz_completes_witness :
  exists w' effs,
    run Demo.bank ((fun data => (Demo.no_rnd, press_from 7 70 "c" data)) <$> ["B"; "x"])
      Scene.world2 = Some w' /\
    Users w' = delete 7 (Users Scene.world2) /\
    outbox w' = outbox Scene.world2 ++ effs ++
      [MsgFinal 70
         (Score (started "quizzes/geo.json" [1; 0])
          + count_hits [Demo.q1; Demo.q2]
              (QuestionOrder (started "quizzes/geo.json" [1; 0]))
              (Z.to_nat (CurrentQuestion (started "quizzes/geo.json" [1; 0])))
              ["B"; "x"])
         (len [Demo.q1; Demo.q2]);
       CallbackAnswered "c"].
Proof.
  apply (quiz_completes Demo.bank Demo.no_rnd 7 70 "c" [Demo.q1; Demo.q2] ["B"; "x"]
           (started "quizzes/geo.json" [1; 0]) Scene.world2).
  - apply demo_bank_fits.
  - apply demo_bank_keyed.
  - apply scene_reachable_world2.
  - apply scene_world2_user7.
  - reflexivity.
  - reflexivity.
  - discriminate.
  - reflexivity.
Defined.

(** ** What an answer can do to a session *)

Lemma after_answer_session qm userID chatID fb st' questions w w' :
  after_answer qm userID chatID fb st' questions w = Some (tt, w') ->
  Users w' !! userID = Some st' \/ Users w' !! userID = None.
Proof.
  unfold after_answer. unfold_M.
  destruct (CurrentQuestion st' <? len questions).
  - intros H. destruct (sendQuestion_table qm _ _ _ _ H) as [-> | ->]; simpl.
    + left. apply lookup_insert_eq.
    + right. apply lookup_delete_eq.
  - intros [= <-]. right. simpl. apply lookup_delete_eq.
Qed.

Lemma on_answer_session qm userID chatID data st w w' :
  bank_fits qm -> session_inv st ->
  on_answer qm userID chatID data st w = Some (tt, w') ->
  Users w' !! userID = Users w !! userID \/
  Users w' !! userID = None \/
  exists hit, Users w' !! userID = Some (answered st hit).
Proof.
  intros Hfit Hinv. rewrite on_answer_unfold.
  destruct (qm !! SelectedTheme st) as [questions|] eqn:Hqs;
    [|unfold_M; intros [= <-]; by left].
  destruct (len questions =? 0); [unfold_M; intros [= <-]; by left|].
  destruct (len questions <=? CurrentQuestion st) eqn:Hpos;
    [unfold_M; intros [= <-]; by left|].
  destruct (index (QuestionOrder st) (CurrentQuestion st) w)
    as [[i w1]|]; [|discriminate].
  destruct (index questions i w) as [[q w2]|]; [|discriminate].
  assert (Hlt : CurrentQuestion st < len questions) by lia.
  pose proof (set_fields_answered qm Hfit st questions false Hinv Hqs Hlt) as Hmiss.
  pose proof (set_fields_answered qm Hfit st questions true Hinv Hqs Hlt) as Hhit.
  simpl in Hmiss, Hhit. cbn zeta. intros Hgo. right. revert Hgo.
  assert (Hany : forall fb hit,
    after_answer qm userID chatID fb (answered st hit) questions w = Some (tt, w') ->
    Users w' !! userID = None \/
    exists hit, Users w' !! userID = Some (answered st hit)).
  { intros fb hit Hrun.
    destruct (after_answer_session _ _ _ _ _ _ _ _ Hrun); eauto. }
  destruct (String.eqb _ ""); [rewrite Hmiss; apply Hany|].
  destruct (contains _ _); [rewrite Hhit; apply Hany|].
  destruct (index (CorrectAnswer q) 0 w) as [[c w3]|]; [|discriminate].
  rewrite Hmiss. apply Hany.
Qed.

(** X4.  In a reachable world, a press of a user in InProgress that is
    handled and leaves the session in the table leaves its topic, its
    order and its phase as they were; the position stays or goes up by
    one, and the score goes up by at most what the position goes up. *)
Theorem answer_keeps_quiz (qm : Themes) (rnd : nat -> nat) (callback : CallbackQuery)
    (w w' : World UserState) (st st' : UserState) :
  bank_fits qm ->
  reachable qm w ->
  Users w !! cb_From callback = Some st ->
  phase st = InProgress ->
  handleCallbackQuery qm rnd callback w = Some (tt, w') ->
  Users w' !! cb_From callback = Some st' ->
  SelectedTheme st' = SelectedTheme st /\
  QuestionOrder st' = QuestionOrder st /\
  SetupStep st' = SetupStep st /\
  0 <= Score st' - Score st <= CurrentQuestion st' - CurrentQuestion st /\
  CurrentQuestion st' - CurrentQuestion st <= 1.
Proof.
  intros Hfit Hreach Hst Hph Hrun Hst'.
  destruct (reachable_ok qm w Hfit Hreach _ _ Hst) as [Hinv _].
  destruct (phase_InProgress _ Hph) as [Hne1 Hne2].
  revert Hrun. unfold handleCallbackQuery. cbn zeta.
  unfold mbind at 1, M_bind at 1, bind at 1.
  unfold mbind at 1, M_bind at 1, bind at 1.
  unfold getUser at 1. rewrite Hst, Hne1, Hne2.
  destruct (on_answer _ _ _ _ _ w) as [[[] w1]|] eqn:Hans; [|discriminate].
  unfold answerCallback, send. intros [= <-]. simpl in Hst'.
  destruct (on_answer_session _ _ _ _ _ _ _ Hfit Hinv Hans) as [H | [H | [hit H]]];
    rewrite H in Hst'.
  - rewrite Hst in Hst'. injection Hst' as <-. repeat split; lia.
  - discriminate.
  - injection Hst' as <-. simpl. destruct hit; repeat split; lia.
Qed.

Lemma answer_keeps_quiz_witness :
  SelectedTheme (answered (started "quizzes/geo.json" [1; 0]) true)
  = SelectedTheme (started "quizzes/geo.json" [1; 0]) /\
  QuestionOrder (answered (started "quizzes/geo.json" [1; 0]) true)
  = QuestionOrder (started "quizzes/geo.json" [1; 0]) /\
  SetupStep (answered (started "quizzes/geo.json" [1; 0]) true)
  = SetupStep (started "quizzes/geo.json" [1; 0]) /\
  0 <= Score (answered (started "quizzes/geo.json" [1; 0]) true)
       - Score (started "quizzes/geo.json" [1; 0])
    <= CurrentQuestion (answered (started "quizzes/geo.json" [1; 0]) true)
       - CurrentQuestion (started "quizzes/geo.json" [1; 0]) /\
  CurrentQuestion (answered (started "quizzes/geo.json" [1; 0]) true)
  - CurrentQuestion (started "quizzes/geo.json" [1; 0]) <= 1.
Proof.
  apply (answer_keeps_quiz Demo.bank Demo.no_rnd (Demo.press 7 "b") Scene.world2
           (Scene.step_of (handleCallbackQuery Demo.bank Demo.no_rnd
                             (Demo.press 7 "b") Scene.world2))).
  - apply demo_bank_fits.
  - apply scene_reachable_world2.
  - apply scene_world2_user7.
  - reflexivity.
  - vm_compute. reflexivity.
  - vm_compute. reflexivity.
Defined.

(** ** Setting a quiz up *)

Lemma theme_names_spec (qm : Themes) :
  NoDup (theme_names qm) /\
  forall name, name ∈ theme_names qm <-> is_Some (qm !! name).
Proof.
  unfold theme_names. split; [apply NoDup_fst_map_to_list|].
  intros name. rewrite list_elem_of_fmap. split.
  - intros ([n qs] & -> & Hin). apply elem_of_map_to_list in Hin. eauto.
  - intros [qs Hqs]. exists (name, qs). split; [done|].
    by apply elem_of_map_to_list.
Qed.

Lemma theme_names_empty (qm : Themes) : len (theme_names qm) = 0 <-> qm = ∅.
Proof.
  unfold theme_names, len. rewrite length_fmap. split.
  - intros H. apply map_to_list_empty_iff.
    destruct (map_to_list qm); [done | simpl in H; lia].
  - intros ->. by rewrite map_to_list_empty.
Qed.

(** X5.  /start replaces whatever session the user has by a fresh one in
    AwaitingTopic.  With an empty bank the user is told that there are no
    topics; otherwise the topics offered are the topics of the bank, each
    of them once. *)
Theorem start_offers_bank (qm : Themes) (message : Message) (w : World UserState) :
  handleStartCommand qm message w
  = Some (tt, {| Users := <[msg_From message := fresh]> (Users w);
                 outbox := outbox w ++
                   [if decide (qm = ∅) then MsgNoThemes (msg_Chat message)
                    else MsgThemeList (msg_Chat message) (theme_names qm)] |}) /\
  NoDup (theme_names qm) /\
  forall name, name ∈ theme_names qm <-> is_Some (qm !! name).
Proof.
  split; [|apply theme_names_spec].
  unfold handleStartCommand. unfold_M. cbn zeta.
  pose proof (theme_names_empty qm) as He.
  destruct (len (theme_names qm) =? 0) eqn:E; case_decide; try reflexivity.
  - apply Z.eqb_eq in E. tauto.
  - apply Z.eqb_neq in E. tauto.
Qed.

(** X6.  A press that does not fit the phase is dropped without a word:
    in AwaitingTopic a payload that does not start with theme_, in
    AwaitingOrder a payload other than order_ordered and order_random.
    The session stays as it is and the press is only acknowledged. *)
Theorem stray_press_dropped (qm : Themes) (rnd : nat -> nat)
    (callback : CallbackQuery) (w : World UserState) (st : UserState) :
  Users w !! cb_From callback = Some st ->
  (phase st = AwaitingTopic /\ HasPrefix (cb_Data callback) "theme_" = false) \/
  (phase st = AwaitingOrder /\ cb_Data callback <> "order_ordered" /\
   cb_Data callback <> "order_random") ->
  handleCallbackQuery qm rnd callback w
  = Some (tt, {| Users := Users w;
                 outbox := outbox w ++ [CallbackAnswered (cb_ID callback)] |}).
Proof.
  intros Hst Hcase. unfold handleCallbackQuery. cbn zeta. unfold_M. rewrite Hst.
  destruct Hcase as [[Hph Hpre] | (Hph & Hn1 & Hn2)].
  - rewrite (phase_AwaitingTopic _ Hph). unfold on_select_theme. by rewrite Hpre.
  - destruct (phase_AwaitingOrder _ Hph) as [-> ->]. unfold on_select_order.
    apply String.eqb_neq in Hn1, Hn2. by rewrite Hn1, Hn2.
Qed.

Lemma stray_press_dropped_witness :
  handleCallbackQuery Demo.bank Demo.no_rnd (Demo.press 7 "A") Demo.world_waiting
  = Some (tt, {| Users := Users Demo.world_waiting;
                 outbox := outbox Demo.world_waiting
                           ++ [CallbackAnswered (cb_ID (Demo.press 7 "A"))] |}).
Proof.
  apply (stray_press_dropped Demo.bank Demo.no_rnd (Demo.press 7 "A")
           Demo.world_waiting Demo.waiting).
  - reflexivity.
  - right. split; [reflexivity|]. split; discriminate.
Defined.

(** X7.  A press in InProgress for a session whose topic is not in the
    bank, or is there without questions, is answered with "topic
    unavailable" and acknowledged; the session stays as it is, so every
    later press gets the same answer until the user starts again. *)
Theorem answer_without_topic (qm : Themes) (rnd : nat -> nat)
    (callback : CallbackQuery) (w : World UserState) (st : UserState) :
  Users w !! cb_From callback = Some st ->
  phase st = InProgress ->
  qm !! SelectedTheme st = None \/ qm !! SelectedTheme st = Some [] ->
  handleCallbackQuery qm rnd callback w
  = Some (tt, {| Users := Users w;
                 outbox := outbox w ++ [MsgThemeUnavailable (cb_Chat callback);
                                        CallbackAnswered (cb_ID callback)] |}).
Proof.
  intros Hst Hph Hqs. destruct (phase_InProgress _ Hph) as [Hn1 Hn2].
  unfold handleCallbackQuery. cbn zeta. unfold_M. rewrite Hst, Hn1, Hn2.
  unfold on_answer. cbn zeta.
  destruct Hqs as [-> | ->]; unfold_M; simpl; by rewrite <- app_assoc.
Qed.

Lemma answer_without_topic_witness :
  handleCallbackQuery Demo.bank Demo.no_rnd (Demo.press 7 "A")
    (Scene.world_of (run Demo.bank [(Demo.no_rnd, Demo.command 7 "start");
                                    (Demo.no_rnd, Demo.command 7 "restart")]
                       init_world))
  = Some (tt, {| Users := Users (Scene.world_of
                    (run Demo.bank [(Demo.no_rnd, Demo.command 7 "start");
                                    (Demo.no_rnd, Demo.command 7 "restart")]
                       init_world));
                 outbox := outbox (Scene.world_of
                    (run Demo.bank [(Demo.no_rnd, Demo.command 7 "start");
                                    (Demo.no_rnd, Demo.command 7 "restart")]
                       init_world))
                   ++ [MsgThemeUnavailable (cb_Chat (Demo.press 7 "A"));
                       CallbackAnswered (cb_ID (Demo.press 7 "A"))] |}).
Proof.
  apply (answer_without_topic Demo.bank Demo.no_rnd (Demo.press 7 "A") _
           (started "" [0; 1])).
  - vm_compute. reflexivity.
  - reflexivity.
  - left. vm_compute. reflexivity.
Defined.

Lemma handleUpdate_command qm rnd user chat cmd w :
  handleUpdate qm rnd (command_from user chat cmd) w
  = match (if String.eqb cmd "start" then
             handleStartCommand qm {| msg_From := user; msg_Chat := chat;
                                      msg_Command := Some cmd |}
           else if String.eqb cmd "help" then
             handleHelpCommand {| msg_From := user; msg_Chat := chat;
                                  msg_Command := Some cmd |}
           else if String.eqb cmd "restart" then
             handleRestartCommand qm {| msg_From := user; msg_Chat := chat;
                                        msg_Command := Some cmd |}
           else send (MsgUnknownCommand chat)) w with
    | Some (_, w') => Some (tt, w')
    | None => None
    end.
Proof.
  unfold handleUpdate, command_from. cbn [upd_Message upd_CallbackQuery msg_Command msg_Chat].
  unfold_M. by destruct (_ w) as [[[] w']|].
Qed.

(** X8.  The way into a quiz: /start, then the button of a topic of the
    bank that has a question, then the button for the ordered quiz, leave
    the user in InProgress at position 0 with score 0 on the questions of
    that topic in their order in the bank; the topics, the choice of the
    order and the first question of the topic were sent, and both presses
    acknowledged. *)
Theorem setup_starts_quiz (qm : Themes) (r1 r2 r3 : nat -> nat) (user chat : Z)
    (id1 id2 name : string) (questions : list Question) (q0 : Question)
    (w : World UserState) :
  qm !! name = Some questions ->
  questions !! 0%nat = Some q0 ->
  run qm [(r1, command_from user chat "start");
          (r2, press_from user chat id1 ("theme_" ++ name)%string);
          (r3, press_from user chat id2 "order_ordered")] w
  = Some {| Users := <[user := started name (Z.of_nat <$> seq 0 (length questions))]>
                       (Users w);
            outbox := outbox w ++
              [MsgThemeList chat (theme_names qm); MsgOrderChoice chat;
               CallbackAnswered id1; question_msg chat q0;
               CallbackAnswered id2] |}.
Proof.
  intros Hqs Hq0.
  assert (Hn : (1 <= length questions)%nat).
  { apply lookup_lt_Some in Hq0. lia. }
  cbn [run].
  (* /start *)
  rewrite handleUpdate_command. cbn [String.eqb Ascii.eqb Bool.eqb].
  unfold handleStartCommand. unfold_M. cbn zeta.
  cbn [msg_From msg_Chat].
  destruct (len (theme_names qm) =? 0) eqn:E.
  { apply Z.eqb_eq, theme_names_empty in E. rewrite E in Hqs.
    by rewrite lookup_empty in Hqs. }
  (* the topic *)
  rewrite handleUpdate_press. unfold handleCallbackQuery. cbn zeta.
  cbn [cb_From cb_Chat cb_Data cb_ID]. unfold_M.
  rewrite lookup_insert_eq. cbn [SetupStep String.eqb Ascii.eqb Bool.eqb].
  unfold on_select_theme, HasPrefix, TrimPrefix.
  change "theme_" with ("theme_" ++ "")%string at 1 3.
  rewrite !strip_prefix_app. unfold_M. rewrite insert_insert_eq.
  (* the order *)
  rewrite handleUpdate_press. unfold handleCallbackQuery. cbn zeta.
  cbn [cb_From cb_Chat cb_Data cb_ID]. unfold_M.
  rewrite lookup_insert_eq.
  cbn [set_theme SetupStep SelectedTheme String.eqb Ascii.eqb Bool.eqb].
  unfold on_select_order.
  cbn [set_theme SelectedTheme String.eqb Ascii.eqb Bool.eqb orb].
  rewrite Hqs.
  destruct (len questions =? 0) eqn:E0; [unfold len in E0; lia|].
  cbn zeta. unfold_M. rewrite insert_insert_eq.
  rewrite (sendQuestion_exact qm chat user _
             (started name (identity_order (length questions))) questions q0).
  - cbn [Users outbox]. rewrite identity_order_seq, <- !app_assoc. reflexivity.
  - cbn [Users]. apply lookup_insert_eq.
  - exact Hqs.
  - unfold len. simpl. lia.
  - apply order_covers_identity. lia.
  - unfold current_question. simpl.
    rewrite identity_order_lookup by lia. exact Hq0.
Qed.

Lemma setup_starts_quiz_witness :
  run Demo.bank [(Demo.no_rnd, command_from 7 70 "start");
                 (Demo.no_rnd, press_from 7 70 "c1" ("theme_" ++ "quizzes/geo.json")%string);
                 (Demo.no_rnd, press_from 7 70 "c2" "order_ordered")] init_world
  = Some {| Users := <[7 := started "quizzes/geo.json"
                             (Z.of_nat <$> seq 0 (length [Demo.q1; Demo.q2]))]>
                       (Users init_world);
            outbox := outbox init_world ++
              [MsgThemeList 70 (theme_names Demo.bank); MsgOrderChoice 70;
               CallbackAnswered "c1"; question_msg 70 Demo.q1;
               CallbackAnswered "c2"] |}.
Proof.
  apply (setup_starts_quiz Demo.bank Demo.no_rnd Demo.no_rnd Demo.no_rnd 7 70
           "c1" "c2" "quizzes/geo.json" [Demo.q1; Demo.q2] Demo.q1 init_world).
  - reflexivity.
  - reflexivity.
Defined.

(** ** Labels *)

(** X10.  In InProgress only the trimmed, upper-cased payload of a press
    counts: the press and the press of its normalised payload are handled
    alike, whatever white space is around the label and whatever the case
    of its letters. *)
Theorem answer_reads_normalised_label (qm : Themes) (rnd : nat -> nat)
    (callback : CallbackQuery) (w : World UserState) (st : UserState) :
  Users w !! cb_From callback = Some st ->
  phase st = InProgress ->
  handleCallbackQuery qm rnd callback w
  = handleCallbackQuery qm rnd
      {| cb_ID := cb_ID callback; cb_From := cb_From callback;
         cb_Chat := cb_Chat callback;
         cb_Data := ToUpper (TrimSpace (cb_Data callback)) |} w.
Proof.
  intros Hst Hph. destruct (phase_InProgress _ Hph) as [Hn1 Hn2].
  unfold handleCallbackQuery. cbn zeta. cbn [cb_ID cb_From cb_Chat cb_Data].
  unfold_M. rewrite Hst, Hn1, Hn2.
  unfold on_answer. cbn zeta. by rewrite normalise_idem.
Qed.

Lemma answer_reads_normalised_label_witness :
  handleCallbackQuery Demo.bank Demo.no_rnd (Demo.press 7 " b ") Demo.world1
  = handleCallbackQuery Demo.bank Demo.no_rnd
      {| cb_ID := cb_ID (Demo.press 7 " b "); cb_From := cb_From (Demo.press 7 " b ");
         cb_Chat := cb_Chat (Demo.press 7 " b ");
         cb_Data := ToUpper (TrimSpace (cb_Data (Demo.press 7 " b "))) |} Demo.world1.
Proof.
  apply (answer_reads_normalised_label Demo.bank Demo.no_rnd (Demo.press 7 " b ")
           Demo.world1 Demo.after_first).
  - apply demo_world1_user7.
  - reflexivity.
Defined.

(** ** More on extractLetter *)

Lemma find_sep_dot_cons (c : ascii) (r : string) :
  find_sep "." (String c r)
  = if Ascii.eqb "." c then Some 0%nat else S <$> find_sep "." r.
Proof.
  cbn [find_sep]. unfold HasPrefix. cbn [strip_prefix].
  by destruct (Ascii.eqb "." c).
Qed.

Lemma find_sep_dot_app (label rest : string) :
  find_sep "." label = None ->
  find_sep "." (label ++ "." ++ rest)%string = Some (String.length label).
Proof.
  induction label as [|c label IH]; intros Hnone.
  - reflexivity.
  - rewrite find_sep_dot_cons in Hnone.
    change (String c label ++ "." ++ rest)%string
      with (String c (label ++ "." ++ rest)%string).
    rewrite find_sep_dot_cons.
    destruct (Ascii.eqb "." c); [discriminate|].
    destruct (find_sep "." label); [discriminate|].
    by rewrite IH.
Qed.

Lemma substring_app_length (s t : string) :
  substring 0 (String.length s) (s ++ t)%string = s.
Proof.
  induction s as [|c s IH]; simpl.
  - by destruct t.
  - by rewrite IH.
Qed.

(** X11.  What extractLetter returns is in upper case, for every text. *)
Theorem extractLetter_upper (text : string) :
  ToUpper (extractLetter text) = extractLetter text.
Proof.
  unfold extractLetter.
  destruct (extractLetter_seps separators text) as [letter|] eqn:Hseps.
  - unfold separators in Hseps. rewrite !extractLetter_seps_cons in Hseps.
    cbn [extractLetter_seps] in Hseps.
    destruct (find_sep "." text); [injection Hseps as <-; apply ToUpper_idem|].
    destruct (find_sep ")" text); [injection Hseps as <-; apply ToUpper_idem|].
    destruct (find_sep ":" text); [injection Hseps as <-; apply ToUpper_idem|].
    discriminate.
  - destruct text; [done | apply ToUpper_idem].
Qed.

(** X12.  When the text holds a separator, the letter extractLetter
    returns is a label as the handler of the presses reads it: trimming
    and upper-casing it again changes nothing. *)
Theorem extractLetter_stable (text letter : string) :
  extractLetter_seps separators text = Some letter ->
  extractLetter text = letter /\ ToUpper (TrimSpace letter) = letter.
Proof.
  intros Hseps. unfold extractLetter. rewrite Hseps. split; [done|].
  unfold separators in Hseps. rewrite !extractLetter_seps_cons in Hseps.
  cbn [extractLetter_seps] in Hseps.
  destruct (find_sep "." text); [injection Hseps as <-; apply normalise_idem|].
  destruct (find_sep ")" text); [injection Hseps as <-; apply normalise_idem|].
  destruct (find_sep ":" text); [injection Hseps as <-; apply normalise_idem|].
  discriminate.
Qed.

Lemma extractLetter_stable_witness :
  extractLetter " b ) London" = "B" /\ ToUpper (TrimSpace "B") = "B".
Proof.
  apply (extractLetter_stable " b ) London" "B"). reflexivity.
Defined.

(** X13.  A label and a text put together as main.go shows an option,
    "label. text", give the upper-cased label back, when the label holds
    no dot and no white space around it. *)
Theorem extractLetter_of_rendered_option (label text : string) :
  find_sep "." label = None ->
  TrimSpace label = label ->
  extractLetter (label ++ ". " ++ text)%string = ToUpper label.
Proof.
  intros Hdot Htrim. unfold extractLetter, separators.
  rewrite extractLetter_seps_cons.
  change (label ++ ". " ++ text)%string with (label ++ "." ++ (" " ++ text))%string.
  rewrite (find_sep_dot_app label _ Hdot), substring_app_length.
  by rewrite Htrim.
Qed.

Lemma extractLetter_of_rendered_option_witness :
  extractLetter ("b2" ++ ". " ++ "Rome (Italy)")%string = ToUpper "b2".
Proof.
  apply (extractLetter_of_rendered_option "b2" "Rome (Italy)"); reflexivity.
Defined.

(** ** More on loading *)

Lemma load_entry_skip dirPath acc file :
  is_topic_file file = false -> load_entry dirPath acc file = acc.
Proof.
  destruct acc as [themes log]. unfold is_topic_file, load_entry.
  destruct (IsDir file); [done|]. simpl. by intros ->.
Qed.

Lemma load_entry_topic dirPath themes log file :
  is_topic_file file = true ->
  load_entry dirPath (themes, log) file
  = (match content file with
     | Decoded qs => <[Join dirPath (Name file) := qs]> themes
     | _ => themes
     end, log ++ [log_line dirPath file]).
Proof.
  unfold is_topic_file, load_entry, log_line.
  destruct (IsDir file); [done|]. simpl. intros ->. simpl.
  by destruct (content file).
Qed.

Lemma load_all_filter dirPath files acc :
  foldl (load_entry dirPath) acc files
  = foldl (load_entry dirPath) acc (List.filter is_topic_file files).
Proof.
  revert acc. induction files as [|f files IH]; intros acc;
    cbn [foldl List.filter]; [done|].
  destruct (is_topic_file f) eqn:E; cbn [foldl]; [apply IH|].
  by rewrite load_entry_skip.
Qed.

Lemma load_all_log_lines dirPath files themes log :
  (foldl (load_entry dirPath) (themes, log) files).2
  = log ++ (log_line dirPath <$> List.filter is_topic_file files).
Proof.
  revert themes log. induction files as [|f files IH]; intros themes log;
    cbn [foldl List.filter].
  - by rewrite app_nil_r.
  - destruct (is_topic_file f) eqn:E.
    + rewrite load_entry_topic by done. rewrite IH. rewrite fmap_cons.
      by rewrite <- app_assoc.
    + by rewrite load_entry_skip.
Qed.

(** X14.  The load looks at the topic files only - the entries that are
    no directory and whose extension is .json in any case: the files it
    is given and the topic files among them load the same bank with the
    same log. *)
Theorem load_reads_topic_files_only (dirPath : string) (files : list DirEntry)
    (themes : Themes) :
  LoadAllQuestionsFromDir dirPath (Listing files) themes
  = LoadAllQuestionsFromDir dirPath (Listing (List.filter is_topic_file files)) themes.
Proof. unfold LoadAllQuestionsFromDir. by rewrite load_all_filter. Qed.

(** X15.  A load that lists the root logs one line for each topic file,
    in the order of the listing: that the topic was loaded, or the
    warning that the file could not be read or decoded. *)
Theorem load_logs_each_topic_file (dirPath : string) (files : list DirEntry)
    (themes : Themes) :
  exists themes',
    LoadAllQuestionsFromDir dirPath (Listing files) themes
    = (None, themes', log_line dirPath <$> List.filter is_topic_file files).
Proof.
  unfold LoadAllQuestionsFromDir.
  pose proof (load_all_log_lines dirPath files themes []) as Hlog.
  destruct (foldl (load_entry dirPath) (themes, []) files) as [themes' log].
  exists themes'. simpl in Hlog. by rewrite Hlog.
Qed.

Lemma load_entry_keys dirPath acc file key :
  is_Some ((load_entry dirPath acc file).1 !! key) <->
  is_Some (acc.1 !! key) \/
  (decodes file = true /\ Join dirPath (Name file) = key).
Proof.
  unfold decodes. destruct (is_topic_file file) eqn:E.
  - destruct acc as [themes log]. rewrite load_entry_topic by done. simpl.
    destruct (content file) as [| |qs]; simpl;
      [split; [by left | by intros [Hk | [Hf _]]]
      |split; [by left | by intros [Hk | [Hf _]]]|].
    rewrite lookup_insert. case_decide as Hk.
    + split; [by right|]. intros _. by eexists.
    + split; [by left|]. by intros [Hs | [_ Hj]].
  - rewrite load_entry_skip by done. simpl.
    split; [by left | by intros [Hk | [Hf _]]].
Qed.

Lemma load_all_keys dirPath files acc key :
  is_Some ((foldl (load_entry dirPath) acc files).1 !! key) <->
  is_Some (acc.1 !! key) \/
  exists file, file ∈ files /\ decodes file = true /\ Join dirPath (Name file) = key.
Proof.
  revert acc. induction files as [|f files IH]; intros acc; cbn [foldl].
  - split; [by left|]. intros [H | (file & Hin & _)]; [done|].
    by apply elem_of_nil in Hin.
  - rewrite IH, load_entry_keys. split.
    + intros [[H | [Hd Hk]] | (file & Hin & Hd & Hk)].
      * by left.
      * right. exists f. split; [by left | done].
      * right. exists file. split; [by right | done].
    + intros [H | (file & Hin & Hd & Hk)]; [by left; left|].
      apply elem_of_cons in Hin as [-> | Hin].
      * left. by right.
      * right. eauto.
Qed.

(** X16.  A load that lists the root drops no topic the bank held, and
    the topics it adds are the paths of the topic files that decode. *)
Theorem load_adds_decoded_files (dirPath : string) (files : list DirEntry)
    (themes : Themes) :
  exists themes' log,
    LoadAllQuestionsFromDir dirPath (Listing files) themes = (None, themes', log) /\
    forall key,
      is_Some (themes' !! key) <->
      is_Some (themes !! key) \/
      exists file, file ∈ files /\ decodes file = true /\
                   Join dirPath (Name file) = key.
Proof.
  unfold LoadAllQuestionsFromDir.
  pose proof (load_all_keys dirPath files (themes, [])) as Hkeys.
  destruct (foldl (load_entry dirPath) (themes, []) files) as [themes' log].
  exists themes', log. split; [done|]. exact Hkeys.
Qed.

Lemma load_all_size dirPath files :
  listing_ok files ->
  size (foldl (load_entry dirPath) (∅, []) files).1
  = length (List.filter decodes files).
Proof.
  induction files as [|f files IH] using rev_ind; intros [Hnd Hnames]; [done|].
  rewrite fmap_app in Hnd. apply NoDup_app in Hnd as (Hnd & Hfresh & _).
  apply Forall_app in Hnames as [Hnames Hf]. rewrite Forall_singleton in Hf.
  rewrite foldl_app, List.filter_app, length_app. cbn [foldl List.filter].
  rewrite <- IH by (by split).
  pose proof (load_all_keys dirPath files (∅, []) (Join dirPath (Name f))) as Hkey.
  destruct (foldl (load_entry dirPath) (∅, []) files) as [themes log].
  unfold decodes at 1. destruct (is_topic_file f) eqn:E.
  - rewrite load_entry_topic by done. simpl.
    destruct (content f) as [| |qs]; simpl; [lia | lia|].
    rewrite map_size_insert_None; [lia|].
    apply eq_None_not_Some. rewrite Hkey. simpl.
    intros [H | (file & Hin & _ & Heq)].
    + rewrite lookup_empty in H. by destruct H.
    + rewrite Forall_forall in Hnames.
      apply Join_inj in Heq; [|first [by apply Hnames | exact Hf]..].
      apply (Hfresh (Name f)).
      * rewrite <- Heq. apply list_elem_of_fmap. eauto.
      * simpl. by left.
  - rewrite load_entry_skip by done. simpl. lia.
Qed.

(** X17.  Loaded from the empty bank with the entries of a directory,
    the bank holds as many topics as the listing has topic files that
    decode (the number the bot logs at start-up). *)
Theorem load_counts_decoded_files (dirPath : string) (files : list DirEntry) :
  listing_ok files ->
  exists themes' log,
    LoadAllQuestionsFromDir dirPath (Listing files) ∅ = (None, themes', log) /\
    size themes' = length (List.filter decodes files).
Proof.
  intros Hok. unfold LoadAllQuestionsFromDir.
  pose proof (load_all_size dirPath files Hok) as Hsize.
  destruct (foldl (load_entry dirPath) (∅, []) files) as [themes' log].
  exists themes', log. split; [done | exact Hsize].
Qed.

Lemma load_counts_decoded_files_witness :
  exists themes' log,
    LoadAllQuestionsFromDir "./quizzes"
      (Listing [ {| Name := "geo.JSON"; IsDir := false;
                    content := Decoded [Demo.q1; Demo.q2] |};
                 {| Name := "broken.json"; IsDir := false; content := Malformed |};
                 {| Name := "old.json"; IsDir := true; content := Unreadable |} ]) ∅
    = (None, themes', log) /\
    size themes'
    = length (List.filter decodes
        [ {| Name := "geo.JSON"; IsDir := false;
             content := Decoded [Demo.q1; Demo.q2] |};
          {| Name := "broken.json"; IsDir := false; content := Malformed |};
          {| Name := "old.json"; IsDir := true; content := Unreadable |} ]).
Proof.
  apply (load_counts_decoded_files "./quizzes").
  split.
  - simpl. repeat (apply NoDup_cons; split; [rewrite ?elem_of_cons; intros H;
      repeat (destruct H as [H|H]; [discriminate|]); by apply elem_of_nil in H|]).
    apply NoDup_nil_2.
  - repeat (apply Forall_cons; split; [reflexivity|]). apply Forall_nil_2.
Defined.

(** ** When the bot panics *)

Lemma phase_not_setup st :
  String.eqb (SetupStep st) "select_theme" = false ->
  String.eqb (SetupStep st) "select_order" = false ->
  phase st = InProgress.
Proof. unfold phase. by intros -> ->. Qed.

Lemma handleRestartCommand_defined qm message w prev :
  Users w !! msg_From message = Some prev ->
  exists w', handleRestartCommand qm message w = Some (tt, w').
Proof.
  intros Hprev. unfold handleRestartCommand. unfold_M. cbn zeta.
  destruct (len (all_questions qm) =? 0); [eauto|].
  rewrite Hprev.
  set (st' := {| CurrentQuestion := 0; Score := 0;
                 QuestionOrder := identity_order (length (all_questions qm));
                 SelectedTheme := SelectedTheme prev; SetupStep := "" |}).
  set (w1 := {| Users := <[msg_From message := st']> (Users w);
                outbox := outbox w ++ [MsgRestarted (msg_Chat message)] |}).
  destruct (sendQuestion_at_start qm (msg_Chat message) (msg_From message) w1 st')
    as [e He].
  - simpl. apply lookup_insert_eq.
  - reflexivity.
  - simpl. intros questions Hqs.
    by apply order_covers_identity, (theme_in_all_questions _ (SelectedTheme prev)).
  - rewrite He. eauto.
Qed.

Lemma handleRestartCommand_panics qm message w :
  Users w !! msg_From message = None -> all_questions qm <> [] ->
  handleRestartCommand qm message w = None.
Proof.
  intros Hno Hne. unfold handleRestartCommand. unfold_M. cbn zeta.
  destruct (len (all_questions qm) =? 0) eqn:E.
  - apply Z.eqb_eq in E. unfold len in E. destruct (all_questions qm); [done|].
    simpl in E. lia.
  - by rewrite Hno.
Qed.

Lemma handleCallbackQuery_defined qm rnd callback w :
  bank_fits qm -> bank_keyed qm ->
  table_all (session_ok qm) (Users w) ->
  exists w', handleCallbackQuery qm rnd callback w = Some (tt, w').
Proof.
  intros Hfit Hkeyed Ht.
  destruct (Users w !! cb_From callback) as [st|] eqn:Hst.
  2:{ unfold handleCallbackQuery. cbn zeta. unfold_M. rewrite Hst. eauto. }
  destruct (Ht _ _ Hst) as [Hinv Hcov].
  destruct (String.eqb (SetupStep st) "select_theme") eqn:E1;
    [|destruct (String.eqb (SetupStep st) "select_order") eqn:E2].
  - unfold handleCallbackQuery. cbn zeta. unfold_M. rewrite Hst, E1.
    unfold on_select_theme. destruct (HasPrefix _ _); unfold_M; eauto.
  - unfold handleCallbackQuery. cbn zeta. unfold_M. rewrite Hst, E1, E2.
    unfold on_select_order.
    destruct (String.eqb _ "order_ordered" || String.eqb _ "order_random");
      [|unfold_M; eauto].
    destruct (qm !! SelectedTheme st) as [questions|] eqn:Hqs; [|unfold_M; eauto].
    destruct (len questions =? 0) eqn:E0; [unfold_M; eauto|]. cbn zeta.
    assert (Hord : exists order,
      (if String.eqb (cb_Data callback) "order_random"
       then Shuffle rnd (length (identity_order (length questions)))
              (identity_order (length questions))
       else Some (identity_order (length questions))) = Some order /\
      order ≡ₚ identity_order (length questions)).
    { destruct (String.eqb (cb_Data callback) "order_random"); [|eauto].
      apply Shuffle_Permutation. }
    destruct Hord as (order & -> & HP). unfold_M.
    set (st' := {| CurrentQuestion := 0; Score := 0; QuestionOrder := order;
                   SelectedTheme := SelectedTheme st; SetupStep := "" |}).
    destruct (sendQuestion_next qm (cb_Chat callback) (cb_From callback)
                {| Users := <[cb_From callback := st']> (Users w); outbox := outbox w |}
                st' questions) as (prompt & options & Hsend).
    + simpl. apply lookup_insert_eq.
    + exact Hqs.
    + unfold len in *. simpl. lia.
    + by apply order_covers_Permutation.
    + rewrite Hsend. eauto.
  - pose proof (phase_not_setup st E1 E2) as Hph.
    destruct (qm !! SelectedTheme st) as [questions|] eqn:Hqs.
    2:{ unfold handleCallbackQuery. cbn zeta. unfold_M. rewrite Hst, E1, E2.
        unfold on_answer. cbn zeta. rewrite Hqs. unfold_M. eauto. }
    destruct (len questions =? 0) eqn:E0.
    { unfold handleCallbackQuery. cbn zeta. unfold_M. rewrite Hst, E1, E2.
      unfold on_answer. cbn zeta. rewrite Hqs, E0. unfold_M. eauto. }
    destruct (len questions <=? CurrentQuestion st) eqn:E3.
    { unfold handleCallbackQuery. cbn zeta. unfold_M. rewrite Hst, E1, E2.
      unfold on_answer. cbn zeta. rewrite Hqs, E0, E3. unfold_M. eauto. }
    assert (Hpos : 0 <= CurrentQuestion st < len questions)
      by (destruct Hinv; lia).
    specialize (Hcov Hph _ eq_refl).
    destruct (current_question_covered questions st Hpos Hcov)
      as (idx & q & Hidx & Hr & Hq & Hcur).
    eexists. apply (answer_step qm rnd callback w st questions q); try done.
    + lia.
    + specialize (Hkeyed _ _ Hqs). rewrite Forall_forall in Hkeyed.
      apply Hkeyed. by eapply list_elem_of_lookup_2.
Qed.

(** X18.  In a reachable world, over a bank whose questions all name a
    correct answer, handling an update panics in one case only: the
    update holds a /restart of a user who has no session, and the bank
    holds a question.  Every other update is handled. *)
Theorem panics_only_on_restart_from_nowhere (qm : Themes) (rnd : nat -> nat)
    (update : Update) (w : World UserState) :
  bank_fits qm ->
  bank_keyed qm ->
  reachable qm w ->
  handleUpdate qm rnd update w = None <-> restart_from_nowhere qm w update.
Proof.
  intros Hfit Hkeyed Hreach.
  pose proof (reachable_ok qm w Hfit Hreach) as Ht.
  unfold handleUpdate, restart_from_nowhere.
  unfold mbind at 1, M_bind at 1, bind at 1.
  assert (Hcb : forall w1, table_all (session_ok qm) (Users w1) ->
    match upd_CallbackQuery update with
    | Some callback => handleCallbackQuery qm rnd callback
    | None => mret tt
    end w1 <> None).
  { intros w1 Ht1. destruct (upd_CallbackQuery update) as [callback|]; [|done].
    destruct (handleCallbackQuery_defined qm rnd callback w1 Hfit Hkeyed Ht1)
      as [w' ->]. done. }
  destruct (upd_Message update) as [message|].
  2:{ split; [intros H; by apply Hcb in H | by intros (m & Hm & _)]. }
  destruct (msg_Command message) as [cmd|] eqn:Hcmd.
  2:{ split; [intros H; by apply Hcb in H|].
      intros (m & [= <-] & Hc & _). congruence. }
  destruct (String.eqb cmd "start") eqn:Es.
  { apply String.eqb_eq in Es. subst cmd.
    destruct (handleStartCommand qm message w) as [[[] w1]|] eqn:H1.
    - split; [intros H; apply Hcb in H; [done|by eapply handleStartCommand_ok]|].
      intros (m & [= <-] & Hc & _). congruence.
    - revert H1. unfold handleStartCommand. unfold_M.
      by destruct (len (theme_names qm) =? 0). }
  destruct (String.eqb cmd "help") eqn:Eh.
  { apply String.eqb_eq in Eh. subst cmd. unfold handleHelpCommand. unfold_M.
    split; [intros H; by apply Hcb in H|].
    intros (m & [= <-] & Hc & _). congruence. }
  destruct (String.eqb cmd "restart") eqn:Er.
  2:{ unfold_M. split; [intros H; by apply Hcb in H|].
      intros (m & [= <-] & Hc & _). rewrite Hcmd in Hc. injection Hc as ->.
      discriminate. }
  apply String.eqb_eq in Er. subst cmd.
  destruct (Users w !! msg_From message) as [prev|] eqn:Hprev.
  - destruct (handleRestartCommand_defined qm message w prev Hprev) as [w1 H1].
    rewrite H1. split.
    + intros H. apply Hcb in H; [done | by eapply handleRestartCommand_ok].
    + intros (m & [= <-] & _ & Hno & _). congruence.
  - destruct (decide (all_questions qm = [])) as [Hall | Hall].
    + assert (H1 : handleRestartCommand qm message w
                   = Some (tt, {| Users := Users w;
                                  outbox := outbox w ++
                                    [MsgNoQuestions (msg_Chat message)] |})).
      { unfold handleRestartCommand. unfold_M. cbn zeta. by rewrite Hall. }
      rewrite H1. split; [intros H; by apply Hcb in H|].
      by intros (m & _ & _ & _ & Hne).
    + rewrite handleRestartCommand_panics by done.
      split; [|done]. intros _. by exists message.
Qed.

Lemma demo_bank_all_keyed : bank_keyed Demo.bank.
Proof.
  intros theme questions H. unfold Demo.bank in H.
  apply lookup_singleton_Some in H as [_ <-]. apply demo_bank_keyed.
Defined.

Lemma panics_only_on_restart_from_nowhere_witness :
  handleUpdate Demo.bank Demo.no_rnd (command_from 9 90 "restart") Demo.world1 = None
  <-> restart_from_nowhere Demo.bank Demo.world1 (command_from 9 90 "restart").
Proof.
  apply (panics_only_on_restart_from_nowhere Demo.bank Demo.no_rnd
           (command_from 9 90 "restart") Demo.world1).
  - apply demo_bank_fits.
  - apply demo_bank_all_keyed.
  - apply demo_reachable_world1.
Defined.

(** ** More on the predecessor *)

Lemma legacy_sendQuestion_preserves questions chatID userID :
  preserves userID (Legacy.sendQuestion questions chatID userID).
Proof. unfold Legacy.sendQuestion. preserves_tac. Qed.

Lemma legacy_handleCallbackQuery_preserves questions callback :
  preserves (cb_From callback) (Legacy.handleCallbackQuery questions callback).
Proof. unfold Legacy.handleCallbackQuery. cbn zeta. preserves_tac. Qed.

(** X19.  In the predecessor, too, an update changes the session of no
    user but the ones it comes from. *)
Theorem legacy_update_leaves_others (questions : list Legacy.Question)
    (rnd : nat -> nat) (update : Update) (w w' : World Legacy.UserState) (v : Z) :
  Legacy.handleUpdate questions rnd update w = Some (tt, w') ->
  v ∉ senders update ->
  Users w' !! v = Users w !! v.
Proof.
  unfold Legacy.handleUpdate, senders. unfold mbind at 1, M_bind at 1, bind at 1.
  match goal with |- context [match ?c w with _ => _ end] =>
    destruct (c w) as [[[] w1]|] eqn:H1; [|discriminate] end.
  intros H2 Hv. rewrite elem_of_app in Hv.
  transitivity (Users w1 !! v).
  - destruct (upd_CallbackQuery update) as [callback|]; [|by injection H2 as <-].
    apply (legacy_handleCallbackQuery_preserves questions callback _ _ _ H2).
    intros ->. apply Hv. right. by left.
  - destruct (upd_Message update) as [message|]; [|by injection H1 as <-].
    assert (Hm : v <> msg_From message) by (intros ->; apply Hv; left; by left).
    destruct (msg_Command message) as [cmd|]; [|by injection H1 as <-].
    assert (Hpre : preserves (msg_From message)
      (if String.eqb cmd "start" then Legacy.handleStartCommand questions message
       else if String.eqb cmd "help" then send (MsgHelp (msg_Chat message))
       else if String.eqb cmd "restart" then Legacy.handleRestartCommand questions message
       else if String.eqb cmd "random" then Legacy.handleRandomCommand questions rnd message
       else send (MsgUnknownCommand (msg_Chat message)))).
    { unfold Legacy.handleStartCommand, Legacy.handleRestartCommand,
        Legacy.handleRandomCommand. cbn zeta. preserves_tac. }
    by apply (Hpre _ _ _ H1).
Qed.

Lemma legacy_update_leaves_others_witness :
  Users (match Legacy.handleUpdate
                 [ {| Legacy.QuestionText := "?"; Legacy.Options := ["A. yes"; "B. no"];
                      Legacy.CorrectOption := "A" |} ]
                 Demo.no_rnd (command_from 7 70 "random")
                 {| Users := {[8 := Legacy.new_session [0]]}; outbox := [] |} with
         | Some (_, w') => w'
         | None => {| Users := ∅; outbox := [] |}
         end) !! 8
  = Users {| Users := {[8 := Legacy.new_session [0]]}; outbox := [] |} !! 8.
Proof.
  apply (legacy_update_leaves_others
           [ {| Legacy.QuestionText := "?"; Legacy.Options := ["A. yes"; "B. no"];
                Legacy.CorrectOption := "A" |} ]
           Demo.no_rnd (command_from 7 70 "random")).
  - vm_compute. reflexivity.
  - unfold senders, command_from. simpl.
    rewrite elem_of_cons, elem_of_nil. intros [H|[]]. discriminate.
Defined.

(** X20.  In the predecessor /start (and /restart, after its message)
    needs no session and never panics.  With questions it stores a session
    at position 0 with score 0 on the questions in their order and sends
    the first of them; without questions it reports a finished quiz with
    0 out of 0 and leaves the user without session. *)
Theorem legacy_start_resets (questions : list Legacy.Question) (message : Message)
    (w : World Legacy.UserState) :
  Legacy.handleStartCommand questions message w
  = Some (tt,
      match questions with
      | [] => {| Users := delete (msg_From message) (Users w);
                 outbox := outbox w ++ [MsgQuizFinished (msg_Chat message) 0 0] |}
      | q0 :: _ =>
          {| Users := <[msg_From message :=
                          Legacy.new_session (Z.of_nat <$> seq 0 (length questions))]>
                        (Users w);
             outbox := outbox w ++
               [MsgQuestion (msg_Chat message) (Legacy.QuestionText q0)
                  (Legacy.buttons (Legacy.Options q0))] |}
      end) /\
  Legacy.handleRestartCommand questions message w
  = Some (tt,
      match questions with
      | [] => {| Users := delete (msg_From message) (Users w);
                 outbox := outbox w ++ [MsgRestarted (msg_Chat message);
                                        MsgQuizFinished (msg_Chat message) 0 0] |}
      | q0 :: _ =>
          {| Users := <[msg_From message :=
                          Legacy.new_session (Z.of_nat <$> seq 0 (length questions))]>
                        (Users w);
             outbox := outbox w ++
               [MsgRestarted (msg_Chat message);
                MsgQuestion (msg_Chat message) (Legacy.QuestionText q0)
                  (Legacy.buttons (Legacy.Options q0))] |}
      end).
Proof.
  unfold Legacy.handleStartCommand, Legacy.handleRestartCommand. cbn zeta.
  unfold Legacy.sendQuestion. unfold_M. rewrite !lookup_insert_eq.
  destruct questions as [|q0 rest].
  - simpl. rewrite !delete_insert_eq, <- !app_assoc. done.
  - rewrite identity_order_seq.
    assert (Hlen : (len (q0 :: rest) <=? 0) = false).
    { rewrite len_cons. pose proof (len_nonneg rest). lia. }
    cbn [Legacy.CurrentQuestion Legacy.new_session Legacy.QuestionOrder Legacy.Score].
    rewrite Hlen.
    rewrite !(index_in_range _ _ 0) by (lia || reflexivity).
    rewrite !(index_in_range _ _ q0) by (lia || reflexivity).
    cbn [Users outbox]. rewrite <- !app_assoc. done.
Qed.

Lemma identity_perm_lookup (order : list Z) (n : nat) (i : Z) :
  order ≡ₚ identity_order n -> 0 <= i < Z.of_nat n ->
  exists idx, order !! Z.to_nat i = Some idx /\ 0 <= idx < Z.of_nat n.
Proof.
  intros HP Hi.
  assert (Hlen : length order = n) by (by rewrite HP, identity_order_length).
  destruct (lookup_lt_is_Some_2 order (Z.to_nat i)) as [idx Hidx]; [lia|].
  exists idx. split; [done|].
  assert (Hin : idx ∈ identity_order n).
  { rewrite <- HP. by eapply list_elem_of_lookup_2. }
  rewrite identity_order_seq in Hin.
  apply list_elem_of_fmap in Hin as (k & -> & Hk).
  apply elem_of_seq in Hk. lia.
Qed.

Section LegacyTotal.

Variable questions : list Legacy.Question.
Hypothesis questions_fit : len questions <= int_max.

Lemma legacy_step_ok_refl w :
  table_all (legacy_session_ok questions) (Users w) -> legacy_step_ok questions w w.
Proof. intros Ht. split; [done|]. exists []. by rewrite app_nil_r. Qed.

Lemma legacy_step_ok_trans w1 w2 w3 :
  legacy_step_ok questions w1 w2 -> legacy_step_ok questions w2 w3 ->
  legacy_step_ok questions w1 w3.
Proof.
  intros (_ & s1 & E1 & F1) (Ht & s2 & E2 & F2). split; [done|].
  exists (s1 ++ s2). split; [by rewrite E2, E1, app_assoc | by apply Forall_app].
Qed.

Lemma legacy_sendQuestion_ok chatID userID w st :
  Users w !! userID = Some st ->
  legacy_session_ok questions st ->
  exists q,
    legacy_current questions st = Some q /\
    Legacy.sendQuestion questions chatID userID w
    = Some (tt, {| Users := Users w;
                   outbox := outbox w ++
                     [MsgQuestion chatID (Legacy.QuestionText q)
                        (Legacy.buttons (Legacy.Options q))] |}).
Proof.
  intros Hst ([Hs Hp] & Hlt & HP). unfold Legacy.sendQuestion. unfold_M. rewrite Hst.
  destruct (len questions <=? Legacy.CurrentQuestion st) eqn:E; [lia|].
  destruct (identity_perm_lookup _ _ (Legacy.CurrentQuestion st) HP)
    as (idx & Hidx & Hr); [unfold len in Hlt; lia|].
  rewrite (index_in_range _ _ idx) by (done || lia).
  destruct (lookup_lt_is_Some_2 questions (Z.to_nat idx)) as [q Hq]; [lia|].
  rewrite (index_in_range _ _ q) by (done || lia).
  exists q. split; [unfold legacy_current; by rewrite Hidx | done].
Qed.

(** Storing a new session and sending its question, as /start, /restart
    and /random do. *)
Lemma legacy_install_total chatID userID order w :
  order ≡ₚ identity_order (length questions) ->
  table_all (legacy_session_ok questions) (Users w) ->
  exists w',
    Legacy.sendQuestion questions chatID userID
      {| Users := <[userID := Legacy.new_session order]> (Users w);
         outbox := outbox w |} = Some (tt, w') /\
    legacy_step_ok questions w w'.
Proof.
  intros HP Ht. destruct (decide (0 < len questions)) as [Hne|He].
  - assert (Hok : legacy_session_ok questions (Legacy.new_session order)).
    { split; [apply legacy_new_session_inv | by split]. }
    destruct (legacy_sendQuestion_ok chatID userID
                {| Users := <[userID := Legacy.new_session order]> (Users w);
                   outbox := outbox w |} (Legacy.new_session order))
      as (q & _ & Hq); [apply lookup_insert_eq | exact Hok |].
    rewrite Hq. eexists. split; [reflexivity|]. split; cbn [Users outbox].
    + by apply table_all_insert.
    + eexists. split; [reflexivity|]. by repeat constructor.
  - unfold Legacy.sendQuestion. unfold_M. rewrite lookup_insert_eq.
    cbn [Legacy.CurrentQuestion Legacy.new_session].
    destruct (len questions <=? 0) eqn:E; [|lia].
    eexists. split; [reflexivity|]. split; cbn [Users outbox].
    + rewrite delete_insert_eq. by apply table_all_delete.
    + eexists. split; [reflexivity|]. constructor; [|constructor].
      simpl. destruct questions; [done|]. rewrite len_cons in He.
      pose proof (len_nonneg l). lia.
Qed.

Lemma legacy_handleCallbackQuery_total callback w :
  table_all (legacy_session_ok questions) (Users w) ->
  exists w',
    Legacy.handleCallbackQuery questions callback w = Some (tt, w') /\
    legacy_step_ok questions w w'.
Proof.
  intros Ht. unfold Legacy.handleCallbackQuery. cbn zeta.
  unfold mbind at 1, M_bind at 1, bind at 1, getUser at 1.
  destruct (Users w !! cb_From callback) as [state|] eqn:Hst.
  2:{ unfold_M. eexists. split; [reflexivity|]. split; [done|]. cbn [outbox].
      rewrite <- app_assoc. eexists. split; [reflexivity|]. by repeat constructor. }
  destruct (Ht _ _ Hst) as ([Hs Hp] & Hlt & HP).
  destruct (len questions <=? Legacy.CurrentQuestion state) eqn:Hpos; [lia|].
  destruct (identity_perm_lookup _ _ (Legacy.CurrentQuestion state) HP)
    as (idx & Hidx & Hr); [unfold len in Hlt; lia|].
  destruct (lookup_lt_is_Some_2 questions (Z.to_nat idx)) as [q Hq]; [lia|].
  unfold mbind at 1, M_bind at 1, bind at 1.
  rewrite (index_in_range _ _ idx) by (done || lia).
  unfold mbind at 1, M_bind at 1, bind at 1.
  rewrite (index_in_range _ _ q) by (done || lia).
  set (hit := String.eqb _ (Legacy.CorrectOption q)).
  set (st' := Legacy.set_CurrentQuestion
                (if hit then Legacy.set_Score state (Legacy.Score state + 1) else state)
                (Legacy.CurrentQuestion state + 1)).
  assert (Hinv' : Legacy.session_inv st' /\
                  Legacy.QuestionOrder st' ≡ₚ identity_order (length questions)).
  { pose proof (lookup_lt_Some _ _ _ Hidx). unfold st'.
    split; [unfold Legacy.session_inv, len | ]; destruct hit; simpl;
      first [exact HP | lia]. }
  assert (Hstep : forall st0 fb0,
    (if hit then (Legacy.set_Score state (incr (Legacy.Score state)), Correct)
     else (state, fb0)) = (st0, if hit then Correct else fb0) ->
    Legacy.set_CurrentQuestion st0 (incr (Legacy.CurrentQuestion st0)) = st').
  { intros st0 fb0. unfold st'. destruct hit; intros [= <-]; simpl;
      rewrite ?incr_small by (unfold len in *; lia); reflexivity. }
  match goal with |- context [let '(_, _) := ?pair in _] =>
    destruct pair as [st0 fb] eqn:Hpair end.
  assert (Hst0 : Legacy.set_CurrentQuestion st0 (incr (Legacy.CurrentQuestion st0)) = st').
  { eapply (Hstep st0 fb). destruct hit; injection Hpair as <- <-; reflexivity. }
  unfold_M. rewrite Hst0.
  destruct (Legacy.CurrentQuestion st' <? len questions) eqn:Hnext.
  - assert (Hok' : legacy_session_ok questions st').
    { destruct Hinv'. split; [done|]. split; [lia | done]. }
    match goal with |- context [Legacy.sendQuestion _ _ _ ?w1] =>
      destruct (legacy_sendQuestion_ok (cb_Chat callback) (cb_From callback)
                  w1 st') as (q' & _ & Hq');
        [apply lookup_insert_eq | exact Hok' |] end.
    rewrite Hq'. eexists. split; [reflexivity|]. split; cbn [Users outbox].
    + by apply table_all_insert.
    + rewrite <- !app_assoc. eexists. split; [reflexivity|]. by repeat constructor.
  - eexists. split; [reflexivity|]. split; cbn [Users outbox].
    + rewrite delete_insert_eq. by apply table_all_delete.
    + rewrite <- !app_assoc. eexists. split; [reflexivity|]. by repeat constructor.
Qed.

Lemma legacy_handleUpdate_total rnd update w :
  table_all (legacy_session_ok questions) (Users w) ->
  exists w',
    Legacy.handleUpdate questions rnd update w = Some (tt, w') /\
    legacy_step_ok questions w w'.
Proof.
  intros Ht. unfold Legacy.handleUpdate.
  unfold mbind at 1, M_bind at 1, bind at 1.
  match goal with |- context [match ?c w with _ => _ end] =>
    assert (Hmsg : exists w1, c w = Some (tt, w1) /\ legacy_step_ok questions w w1) end.
  { pose proof (legacy_step_ok_refl w Ht) as Hrefl.
    destruct (upd_Message update) as [message|]; [|by exists w].
    destruct (msg_Command message) as [cmd|]; [|by exists w].
    destruct (String.eqb cmd "start").
    { unfold Legacy.handleStartCommand. cbn zeta. unfold_M.
      by apply legacy_install_total. }
    destruct (String.eqb cmd "help").
    { unfold_M. eexists. split; [reflexivity|]. split; [done|].
      eexists. split; [reflexivity|]. by repeat constructor. }
    destruct (String.eqb cmd "restart").
    { unfold Legacy.handleRestartCommand. cbn zeta. unfold_M.
      destruct (legacy_install_total (msg_Chat message) (msg_From message)
                  (identity_order (length questions))
                  {| Users := Users w;
                     outbox := outbox w ++ [MsgRestarted (msg_Chat message)] |})
        as (w1 & Hw1 & Hs1); [done | done |].
      cbn [Users outbox] in Hw1. rewrite Hw1. exists w1. split; [reflexivity|].
      eapply legacy_step_ok_trans; [|exact Hs1]. split; [done|].
      eexists. split; [reflexivity|]. by repeat constructor. }
    destruct (String.eqb cmd "random").
    2:{ unfold_M. eexists. split; [reflexivity|]. split; [done|].
        eexists. split; [reflexivity|]. by repeat constructor. }
    unfold Legacy.handleRandomCommand. cbn zeta.
    destruct (Shuffle_Permutation rnd (identity_order (length questions)))
      as (order & -> & HP). unfold_M.
    by apply legacy_install_total. }
  destruct Hmsg as (w1 & -> & Hs1).
  destruct (upd_CallbackQuery update) as [callback|].
  - destruct (legacy_handleCallbackQuery_total callback w1 (proj1 Hs1)) as (w' & ? & ?).
    exists w'. split; [done|]. by eapply legacy_step_ok_trans.
  - by exists w1.
Qed.

Lemma legacy_reachable_ok w :
  Legacy.reachable questions w -> table_all (legacy_session_ok questions) (Users w).
Proof.
  intros [updates Hrun]. revert Hrun.
  assert (H0 : table_all (legacy_session_ok questions)
                 (Users {| Users := (∅ : gmap Z Legacy.UserState); outbox := [] |})).
  { intros u st. simpl. by rewrite lookup_empty. }
  revert H0. generalize ({| Users := (∅ : gmap Z Legacy.UserState); outbox := [] |}).
  induction updates as [|[rnd update] rest IH]; intros w0 Ht; simpl.
  - by intros [= <-].
  - destruct (legacy_handleUpdate_total rnd update w0 Ht) as (w1 & -> & Ht1 & _).
    by apply IH.
Qed.

End LegacyTotal.

(** X21.  The predecessor never panics: in every world it can reach,
    every update - command or press, from a user with or without
    session, whatever the random source holds - is handled. *)
Theorem legacy_never_panics (questions : list Legacy.Question) (rnd : nat -> nat)
    (update : Update) (w : World Legacy.UserState) :
  len questions <= int_max ->
  Legacy.reachable questions w ->
  exists w', Legacy.handleUpdate questions rnd update w = Some (tt, w').
Proof.
  intros Hfit Hreach.
  destruct (legacy_handleUpdate_total questions Hfit rnd update w) as (w' & H & _).
  - by apply legacy_reachable_ok.
  - eauto.
Qed.

Lemma legacy_never_panics_witness :
  exists w',
    Legacy.handleUpdate Old.questions Demo.no_rnd (press_from 7 70 "cb2" "b") Old.world
    = Some (tt, w').
Proof.
  apply (legacy_never_panics Old.questions Demo.no_rnd
           (press_from 7 70 "cb2" "b") Old.world).
  - vm_compute. discriminate.
  - exists Old.history. vm_compute. reflexivity.
Defined.

(** X22.  In every world the predecessor can reach, a session in the
    table is an unfinished quiz on all questions: 0 <= score <= position,
    the position is below the number of questions, and the order is a
    permutation of the indices of the questions.  A finished quiz leaves
    no session behind. *)
Theorem legacy_sessions_unfinished (questions : list Legacy.Question)
    (w : World Legacy.UserState) (u : Z) (st : Legacy.UserState) :
  len questions <= int_max ->
  Legacy.reachable questions w ->
  Users w !! u = Some st ->
  0 <= Legacy.Score st /\
  Legacy.Score st <= Legacy.CurrentQuestion st /\
  Legacy.CurrentQuestion st < len questions /\
  Legacy.QuestionOrder st ≡ₚ Z.of_nat <$> seq 0 (length questions).
Proof.
  intros Hfit Hreach Hst.
  destruct (legacy_reachable_ok questions Hfit w Hreach u st Hst)
    as ([[H0 H1] H2] & Hlt & HP).
  rewrite identity_order_seq in HP. auto.
Qed.

Lemma legacy_sessions_unfinished_witness :
  0 <= Legacy.Score Old.session /\
  Legacy.Score Old.session <= Legacy.CurrentQuestion Old.session /\
  Legacy.CurrentQuestion Old.session < len Old.questions /\
  Legacy.QuestionOrder Old.session ≡ₚ Z.of_nat <$> seq 0 (length Old.questions).
Proof.
  apply (legacy_sessions_unfinished Old.questions Old.world 7 Old.session).
  - vm_compute. discriminate.
  - exists Old.history. vm_compute. reflexivity.
  - vm_compute. reflexivity.
Defined.

(** X23.  In every world the predecessor can reach, an update only adds
    messages to those sent, and none of them is the one of a press on a
    finished quiz; the message of [sendQuestion] for a finished quiz is
    added only when there are no questions at all.  The branch of
    [handleCallbackQuery] for a session past its last question is dead. *)
Theorem legacy_dead_messages (questions : list Legacy.Question) (rnd : nat -> nat)
    (update : Update) (w w' : World Legacy.UserState) :
  len questions <= int_max ->
  Legacy.reachable questions w ->
  Legacy.handleUpdate questions rnd update w = Some (tt, w') ->
  exists sent,
    outbox w' = outbox w ++ sent /\
    forall e, e ∈ sent ->
      (forall chat, e <> MsgAlreadyFinished chat) /\
      (questions <> [] -> forall chat score total, e <> MsgQuizFinished chat score total).
Proof.
  intros Hfit Hreach Hrun.
  destruct (legacy_handleUpdate_total questions Hfit rnd update w)
    as (w2 & Hw2 & _ & sent & Hsent & Hlive); [by apply legacy_reachable_ok|].
  rewrite Hrun in Hw2. injection Hw2 as <-.
  exists sent. split; [done|]. intros e He.
  rewrite Forall_forall in Hlive. specialize (Hlive e He).
  split.
  - intros chat ->. exact Hlive.
  - intros Hne chat score total ->. by apply Hne.
Qed.

Lemma legacy_dead_messages_witness :
  exists sent,
    outbox (Old.step_of (Legacy.handleUpdate Old.questions Demo.no_rnd
                           (press_from 7 70 "cb2" "b") Old.world))
    = outbox Old.world ++ sent /\
    forall e, e ∈ sent ->
      (forall chat, e <> MsgAlreadyFinished chat) /\
      (Old.questions <> [] ->
       forall chat score total, e <> MsgQuizFinished chat score total).
Proof.
  apply (legacy_dead_messages Old.questions Demo.no_rnd
           (press_from 7 70 "cb2" "b") Old.world).
  - vm_compute. discriminate.
  - exists Old.history. vm_compute. reflexivity.
  - vm_compute. reflexivity.
Defined.

(** X24.  A press in the predecessor, in every world it can reach and
    for a user with a session: the session is at a question; the press
    scores exactly when its trimmed, upper-cased payload is the stored
    correct option; the result carries the new score, the position moves
    on by one, and either the next question follows or, after the last
    question, the final score, and the session is removed. *)
Theorem legacy_answer_scored (questions : list Legacy.Question)
    (callback : CallbackQuery) (w : World Legacy.UserState) (st : Legacy.UserState) :
  len questions <= int_max ->
  Legacy.reachable questions w ->
  Users w !! cb_From callback = Some st ->
  exists q,
    legacy_current questions st = Some q /\
    let hit := String.eqb (ToUpper (TrimSpace (cb_Data callback)))
                 (Legacy.CorrectOption q) in
    let st' := legacy_answered st hit in
    let result :=
      MsgResult (cb_Chat callback)
        (if hit then Correct
         else Incorrect (Legacy.CorrectOption q)
                (Legacy.getOptionText q (Legacy.CorrectOption q)))
        (Legacy.Score st') (len questions) in
    if Legacy.CurrentQuestion st' <? len questions then
      exists q',
        legacy_current questions st' = Some q' /\
        Legacy.handleCallbackQuery questions callback w
        = Some (tt, {| Users := <[cb_From callback := st']> (Users w);
                       outbox := outbox w ++
                         [result;
                          MsgQuestion (cb_Chat callback) (Legacy.QuestionText q')
                            (Legacy.buttons (Legacy.Options q'));
                          CallbackAnswered (cb_ID callback)] |})
    else
      Legacy.handleCallbackQuery questions callback w
      = Some (tt, {| Users := delete (cb_From callback) (Users w);
                     outbox := outbox w ++
                       [result;
                        MsgFinal (cb_Chat callback) (Legacy.Score st') (len questions);
                        CallbackAnswered (cb_ID callback)] |}).
Proof.
  intros Hfit Hreach Hst.
  pose proof (legacy_reachable_ok questions Hfit w Hreach) as Ht.
  destruct (Ht _ _ Hst) as ([Hs Hp] & Hlt & HP).
  destruct (identity_perm_lookup _ _ (Legacy.CurrentQuestion st) HP)
    as (idx & Hidx & Hr); [unfold len in Hlt; lia|].
  destruct (lookup_lt_is_Some_2 questions (Z.to_nat idx)) as [q Hq]; [lia|].
  exists q. split; [unfold legacy_current; by rewrite Hidx|].
  pose proof (lookup_lt_Some _ _ _ Hidx) as Hin.
  set (hit := String.eqb (ToUpper (TrimSpace (cb_Data callback)))
                (Legacy.CorrectOption q)).
  cbn zeta.
  assert (Hok' : Legacy.CurrentQuestion (legacy_answered st hit) < len questions ->
                 legacy_session_ok questions (legacy_answered st hit)).
  { intros Hnext. split; [|by split].
    unfold Legacy.session_inv, legacy_answered, len in *.
    cbn [Legacy.Score Legacy.CurrentQuestion Legacy.QuestionOrder] in *.
    destruct hit; lia. }
  assert (Hrun : Legacy.handleCallbackQuery questions callback w
    = ((if Legacy.CurrentQuestion (legacy_answered st hit) <? len questions
        then Legacy.sendQuestion questions (cb_Chat callback) (cb_From callback)
        else send (MsgFinal (cb_Chat callback)
                     (Legacy.Score (legacy_answered st hit)) (len questions));;
             delUser (cb_From callback));;
       answerCallback (cb_ID callback))
        {| Users := <[cb_From callback := legacy_answered st hit]> (Users w);
           outbox := outbox w ++
             [MsgResult (cb_Chat callback)
                (if hit then Correct
                 else Incorrect (Legacy.CorrectOption q)
                        (Legacy.getOptionText q (Legacy.CorrectOption q)))
                (Legacy.Score (legacy_answered st hit)) (len questions)] |}).
  { unfold Legacy.handleCallbackQuery. cbn zeta.
    unfold mbind at 1, M_bind at 1, bind at 1, getUser at 1. rewrite Hst.
    destruct (len questions <=? Legacy.CurrentQuestion st) eqn:Hpos; [lia|].
    unfold mbind at 1, M_bind at 1, bind at 1.
    rewrite (index_in_range _ _ idx) by (done || lia).
    unfold mbind at 1, M_bind at 1, bind at 1.
    rewrite (index_in_range _ _ q) by (done || lia).
    fold hit. unfold legacy_answered.
    destruct hit; cbn iota beta zeta;
      cbn [Legacy.set_Score Legacy.set_CurrentQuestion Legacy.CurrentQuestion
           Legacy.Score Legacy.QuestionOrder];
      rewrite ?incr_small by (unfold len in *; lia); reflexivity. }
  rewrite Hrun. clear Hrun.
  destruct (Legacy.CurrentQuestion (legacy_answered st hit) <? len questions) eqn:Hn.
  - match goal with |- context [_ ?w1 = Some _] =>
      destruct (legacy_sendQuestion_ok questions (cb_Chat callback) (cb_From callback)
                  w1 (legacy_answered st hit)) as (q' & Hcur & Hq');
        [apply lookup_insert_eq | apply Hok'; lia |] end.
    exists q'. split; [done|]. unfold_M. cbn [Users outbox] in Hq'. rewrite Hq'.
    cbn [Users outbox]. by rewrite <- !app_assoc.
  - unfold_M. by rewrite <- !app_assoc, delete_insert_eq.
Qed.

Lemma legacy_answer_scored_witness :
  exists q,
    legacy_current Old.questions Old.session = Some q /\
    let hit := String.eqb (ToUpper (TrimSpace (cb_Data (Old.press " b "))))
                 (Legacy.CorrectOption q) in
    let st' := legacy_answered Old.session hit in
    let result :=
      MsgResult (cb_Chat (Old.press " b "))
        (if hit then Correct
         else Incorrect (Legacy.CorrectOption q)
                (Legacy.getOptionText q (Legacy.CorrectOption q)))
        (Legacy.Score st') (len Old.questions) in
    if Legacy.CurrentQuestion st' <? len Old.questions then
      exists q',
        legacy_current Old.questions st' = Some q' /\
        Legacy.handleCallbackQuery Old.questions (Old.press " b ") Old.world
        = Some (tt, {| Users := <[cb_From (Old.press " b ") := st']> (Users Old.world);
                       outbox := outbox Old.world ++
                         [result;
                          MsgQuestion (cb_Chat (Old.press " b ")) (Legacy.QuestionText q')
                            (Legacy.buttons (Legacy.Options q'));
                          CallbackAnswered (cb_ID (Old.press " b "))] |})
    else
      Legacy.handleCallbackQuery Old.questions (Old.press " b ") Old.world
      = Some (tt, {| Users := delete (cb_From (Old.press " b ")) (Users Old.world);
                     outbox := outbox Old.world ++
                       [result;
                        MsgFinal (cb_Chat (Old.press " b ")) (Legacy.Score st')
                          (len Old.questions);
                        CallbackAnswered (cb_ID (Old.press " b "))] |}).
Proof.
  apply (legacy_answer_scored Old.questions (Old.press " b ") Old.world Old.session).
  - vm_compute. discriminate.
  - exists Old.history. vm_compute. reflexivity.
  - vm_compute. reflexivity.
Defined.
